(** * vfsgen: generator and generated runtime filesystem

    A shallow embedding of [Generate] and of the code emitted by its
    template (the [vfsgen۰FS] table, its three node kinds and the handles
    returned by [Open]), together with the properties of the lazy
    rewind / fast-forward reader over gzip payloads, and of the file
    server of package [gzip_file_server] that serves such a table.

    Conventions.
    - Go's [int64] and [int] values are integers in [Z]; arithmetic that
      the source performs on them is wrapped with [wrap64].
    - A Go call returning [(v, err)] is a function into a product whose
      last component is [option error]; a [panic] is the [Panic]
      constructor of [outcome].
    - A pointer receiver that is mutated is returned as the new value of
      the handle (state passing); where the server sorts the entries of a
      directory in place, the table is returned with them.
    - The calls of the server on its [http.ResponseWriter] are the list
      of those calls, in order. *)

From Stdlib Require Import ZArith Lia List String Ascii.
From Stdlib.Strings Require Import Byte.
From stdpp Require Import base option list gmap strings sorting.

Open Scope string_scope.
Open Scope list_scope.
Open Scope Z_scope.

(** ** Go base types *)

Definition int64_min : Z := - 2 ^ 63.
Definition int64_max : Z := 2 ^ 63 - 1.

(** Two's complement wrap-around of 64-bit signed arithmetic. *)
Definition wrap64 (z : Z) : Z := (z + 2 ^ 63) mod 2 ^ 64 - 2 ^ 63.

Definition is_int64 (z : Z) : Prop := int64_min <= z <= int64_max.

(** [len(s)] as a Go integer. *)
Definition len {A : Type} (l : list A) : Z := Z.of_nat (length l).

(** [time.Time], kept as the instant it denotes; [UTC] changes the
    location a time is printed in, not the instant. *)
Definition Time : Type := Z.
Definition UTC (t : Time) : Time := t.

(** [os.FileMode]: permission bits and the directory bit. *)
Definition FileMode : Type := Z.
Definition ModeDir : FileMode := 2 ^ 31.
Definition ModePerm : FileMode := 511.          (* 0777 *)
Definition perm_write_bits : FileMode := 146.  (* 0222 *)

Definition mode_IsDir (m : FileMode) : bool := negb (Z.land m ModeDir =? 0).
Definition mode_read_only (m : FileMode) : bool := Z.land m perm_write_bits =? 0.

(** Error values that the program creates or passes on. Failures of the
    input filesystem are [ErrInput]; the walker's control sentinel is not
    a failure of the filesystem and is not part of this type. *)
Inductive error : Type :=
| EOF                                         (* io.EOF *)
| ErrUnexpectedEOF                            (* io.ErrUnexpectedEOF *)
| ErrHeader                                   (* gzip.ErrHeader *)
| ErrChecksum                                 (* gzip.ErrChecksum *)
| PathError (op path : string) (err : error)  (* &os.PathError{...} *)
| ErrNotExist                                 (* os.ErrNotExist *)
| Errorf (msg : string)                       (* fmt.Errorf(...) *)
| errCompressedNotSmaller
| ErrInput (msg : string).

#[global] Instance error_eq_dec : EqDecision error.
Proof. intros x y. unfold Decision. decide equality; apply Strings.String.string_dec. Defined.

(** The result of a call that may panic. *)
Inductive outcome (A : Type) : Type :=
| Ret (a : A)
| Panic (msg : string).
Arguments Ret {A} a.
Arguments Panic {A} msg.

(** ** Package path *)

Module path.

Definition slash : ascii := "/"%char.

(** The elements of a path between separators: ["a//b"] has the
    elements ["a"], [""] and ["b"]. *)
Fixpoint split (s : string) : list string :=
  match s with
  | EmptyString => [EmptyString]
  | String c s' =>
      if Ascii.eqb c slash then EmptyString :: split s'
      else match split s' with
           | h :: t => String c h :: t
           | [] => [String c EmptyString]
           end
  end.

Fixpoint join (l : list string) : string :=
  match l with
  | [] => EmptyString
  | [x] => x
  | x :: t => x +:+ "/" +:+ join t
  end.

Definition rooted (s : string) : bool :=
  match s with
  | String c _ => Ascii.eqb c slash
  | EmptyString => false
  end.

(** One element of the input against the elements kept so far ([out],
    last element first). [".."] removes the last kept element when
    there is one to remove; at the root it is dropped, and in a
    relative path it is kept in front. *)
Definition clean_step (isroot : bool) (out : list string) (e : string) : list string :=
  if String.eqb e "" then out
  else if String.eqb e "." then out
  else if String.eqb e ".." then
    match out with
    | top :: rest =>
        if String.eqb top ".." then e :: out else rest
    | [] => if isroot then [] else [e]
    end
  else e :: out.

Definition clean_elems (isroot : bool) (es : list string) : list string :=
  rev (fold_left (clean_step isroot) es []).

(** [path.Clean]: the shortest path equivalent to [p] by lexical
    processing (single separators, no ["."], no inner [".."], no
    [".."] at the root, no trailing separator except for the root, and
    ["."] for the empty result). *)
Definition Clean (p : string) : string :=
  if String.eqb p "" then "."
  else
    let out := clean_elems (rooted p) (split p) in
    if rooted p then "/" +:+ join out
    else match out with
         | [] => "."
         | _ => join out
         end.

(** [path.Base]: the last element of the path, ["."] for the empty
    path and ["/"] for a path of separators only. *)
Definition Base (p : string) : string :=
  if String.eqb p "" then "."
  else match last (filter (fun e => negb (String.eqb e "")) (split p)) with
       | Some e => e
       | None => "/"
       end.

(** [path.Join] of two elements. *)
Definition Join (a b : string) : string :=
  if String.eqb a "" then (if String.eqb b "" then "" else Clean b)
  else Clean (a +:+ "/" +:+ b).

End path.

(** ** Package compress/gzip and package io *)

Module gzip.

(** What a compressed payload decodes to: either its header is refused,
    or it yields [out] and then reports [fin] on every later read
    ([fin] is [EOF] for a complete, well-formed payload). *)
Inductive decoded : Type :=
| BadHeader (e : error)
| Stream (out : list byte) (fin : error).

(** The compressor and decompressor of the library. [compress x] is
    what a [gzip.Writer] has written once [x] was copied into it and it
    was closed. *)
Class Codec : Type := {
  compress : list byte -> list byte;
  decode : list byte -> decoded;
  decode_compress : forall x, decode (compress x) = Stream x EOF
}.

(** A [*gzip.Reader]: the decompressed bytes it has not delivered yet
    and the error it reports once they are used up. *)
Record Reader : Type := mkReader { pending : list byte; fin : error }.

Definition start `{Codec} (src : list byte) : Reader * option error :=
  match decode src with
  | BadHeader e => (mkReader [] e, Some e)
  | Stream out e => (mkReader out e, None)
  end.

(** [gzip.NewReader(bytes.NewReader(src))] *)
Definition NewReader `{Codec} (src : list byte) : Reader * option error :=
  start src.

(** [z.Reset(bytes.NewReader(src))]: the state of [z] is discarded. *)
Definition Reset `{Codec} (z : Reader) (src : list byte) : Reader * option error :=
  start src.

(** [z.Read(p)] with [len(p) = n]: the bytes stored in [p[:k]] and the
    error. The reader fills the buffer as far as decompressed bytes
    remain, and reports [fin] on a call that finds none. *)
Definition Read (z : Reader) (n : nat) : Reader * list byte * option error :=
  match pending z with
  | [] => (z, [], Some (fin z))
  | _ => (mkReader (drop n (pending z)) (fin z), take n (pending z), None)
  end.

End gzip.

Module io.

Definition SeekStart : Z := 0.
Definition SeekCurrent : Z := 1.
Definition SeekEnd : Z := 2.

(** [io.CopyN(ioutil.Discard, z, n)]: the reader afterwards, the number
    of bytes copied and the error. *)
Definition CopyN_Discard (z : gzip.Reader) (n : Z) : gzip.Reader * Z * option error :=
  if n <=? 0 then (z, 0, None)
  else if n <=? len (gzip.pending z) then
    (gzip.mkReader (drop (Z.to_nat n) (gzip.pending z)) (gzip.fin z), n, None)
  else
    (gzip.mkReader [] (gzip.fin z), len (gzip.pending z), Some (gzip.fin z)).

End io.

(** [bytes.Reader] *)
Module bytes.

Record Reader : Type := mkReader { s : list byte; i : Z }.

Definition NewReader (b : list byte) : Reader := mkReader b 0.

Definition Read (r : Reader) (n : nat) : Reader * list byte * option error :=
  if i r >=? len (s r) then (r, [], Some EOF)
  else
    let out := take n (drop (Z.to_nat (i r)) (s r)) in
    (mkReader (s r) (wrap64 (i r + len out)), out, None).

Definition Seek (r : Reader) (offset whence : Z) : Reader * Z * option error :=
  let abs : option Z :=
    if whence =? io.SeekStart then Some offset
    else if whence =? io.SeekCurrent then Some (wrap64 (i r + offset))
    else if whence =? io.SeekEnd then Some (wrap64 (len (s r) + offset))
    else None in
  match abs with
  | None => (r, 0, Some (Errorf "bytes.Reader.Seek: invalid whence"))
  | Some a =>
      if a <? 0 then (r, 0, Some (Errorf "bytes.Reader.Seek: negative position"))
      else (mkReader (s r) a, a, None)
  end.

End bytes.

(** ** The generated runtime: node kinds *)

(** A pointer to a node of the table. The generated initialiser only
    ever takes such pointers as [fs[key]], so a pointer is the key of the
    node it points to; the table is never written after initialisation. *)
Abbreviation ptr := string.

Module CompressedFileInfo.

Record t : Type := mk {
  name : string;
  modTime : Time;
  compressedContent : list byte;
  uncompressedSize : Z
}.

Definition Readdir (f : t) (count : Z) : list ptr * option error :=
  ([], Some (Errorf ("cannot Readdir from file " +:+ name f))).

Definition GzipBytes (f : t) : list byte := compressedContent f.

Definition Name (f : t) : string := name f.
Definition Size (f : t) : Z := uncompressedSize f.
Definition Mode (f : t) : FileMode := 292.   (* 0444 *)
Definition ModTime (f : t) : Time := modTime f.
Definition IsDir (f : t) : bool := false.

End CompressedFileInfo.

Module FileInfo.

Record t : Type := mk {
  name : string;
  modTime : Time;
  content : list byte
}.

Definition Readdir (f : t) (count : Z) : list ptr * option error :=
  ([], Some (Errorf ("cannot Readdir from file " +:+ name f))).

Definition Name (f : t) : string := name f.
Definition Size (f : t) : Z := len (content f).
Definition Mode (f : t) : FileMode := 292.   (* 0444 *)
Definition ModTime (f : t) : Time := modTime f.
Definition IsDir (f : t) : bool := false.

End FileInfo.

Module DirInfo.

Record t : Type := mk {
  name : string;
  modTime : Time;
  entries : list ptr
}.

Definition Read (d : t) (p : nat) : list byte * option error :=
  ([], Some (Errorf ("cannot Read from directory " +:+ name d))).

Definition Name (d : t) : string := name d.
Definition Size (d : t) : Z := 0.
Definition Mode (d : t) : FileMode := Z.lor 493 ModeDir.   (* 0755 | os.ModeDir *)
Definition ModTime (d : t) : Time := modTime d.
Definition IsDir (d : t) : bool := true.

End DirInfo.

(** The dynamic values stored in the table ([interface{}]) and handed
    out as [os.FileInfo]. *)
Inductive node : Type :=
| NCompressed (f : CompressedFileInfo.t)
| NFile (f : FileInfo.t)
| NDir (d : DirInfo.t).

(** ** The generated runtime: handles *)

Module CompressedFile.

Record t : Type := mk {
  info : CompressedFileInfo.t;
  gr : gzip.Reader;
  grPos : Z;     (* Actual gr uncompressed position. *)
  seekPos : Z    (* Seek uncompressed position. *)
}.

Definition set_gr (g : gzip.Reader) (f : t) : t := mk (info f) g (grPos f) (seekPos f).
Definition set_grPos (n : Z) (f : t) : t := mk (info f) (gr f) n (seekPos f).
Definition set_seekPos (n : Z) (f : t) : t := mk (info f) (gr f) (grPos f) n.

Section WithCodec.
Context `{gzip.Codec}.

(** The first conditional of [Read]: rewind to beginning. *)
Definition rewind (f : t) : t * option error :=
  if grPos f >? seekPos f then
    let '(g, err) := gzip.Reset (gr f) (CompressedFileInfo.compressedContent (info f)) in
    match err with
    | Some e => (set_gr g f, Some e)
    | None => (set_grPos 0 (set_gr g f), None)
    end
  else (f, None).

(** The second conditional of [Read]: fast-forward. *)
Definition forward (f : t) : t * option error :=
  if grPos f <? seekPos f then
    let '(g, _, err) := io.CopyN_Discard (gr f) (wrap64 (seekPos f - grPos f)) in
    match err with
    | Some e => (set_gr g f, Some e)
    | None => (set_grPos (seekPos f) (set_gr g f), None)
    end
  else (f, None).

(** [Read(p)] with [len(p) = p]: the handle afterwards, the bytes
    stored in [p[:n]] and the error. *)
Definition Read (f : t) (p : nat) : t * (list byte * option error) :=
  match rewind f with
  | (f1, Some e) => (f1, ([], Some e))
  | (f1, None) =>
      match forward f1 with
      | (f2, Some e) => (f2, ([], Some e))
      | (f2, None) =>
          let '(g, out, err) := gzip.Read (gr f2) p in
          let f3 := set_grPos (wrap64 (grPos f2 + len out)) (set_gr g f2) in
          (set_seekPos (grPos f3) f3, (out, err))
      end
  end.

End WithCodec.

Definition Seek (f : t) (offset whence : Z) : outcome (t * (Z * option error)) :=
  let moved : option t :=
    if whence =? io.SeekStart then Some (set_seekPos (wrap64 (0 + offset)) f)
    else if whence =? io.SeekCurrent then Some (set_seekPos (wrap64 (seekPos f + offset)) f)
    else if whence =? io.SeekEnd then
      Some (set_seekPos (wrap64 (CompressedFileInfo.uncompressedSize (info f) + offset)) f)
    else None in
  match moved with
  | Some f' => Ret (f', (seekPos f', None))
  | None => Panic "invalid whence value"
  end.

Definition Close (f : t) : option error := None.

End CompressedFile.

Module File.

Record t : Type := mk {
  info : FileInfo.t;
  Reader : bytes.Reader
}.

Definition Read (f : t) (p : nat) : t * (list byte * option error) :=
  let '(r, out, err) := bytes.Read (Reader f) p in (mk (info f) r, (out, err)).

Definition Seek (f : t) (offset whence : Z) : t * (Z * option error) :=
  let '(r, pos, err) := bytes.Seek (Reader f) offset whence in (mk (info f) r, (pos, err)).

Definition Close (f : t) : option error := None.

End File.

Module Dir.

Record t : Type := mk {
  info : DirInfo.t;
  pos : Z    (* Position within entries for Seek and Readdir. *)
}.

Definition Seek (d : t) (offset whence : Z) : t * (Z * option error) :=
  if (offset =? 0) && (whence =? io.SeekStart) then (mk (info d) 0, (0, None))
  else (d, (0, Some (Errorf ("unsupported Seek in directory " +:+ DirInfo.name (info d))))).

(** The slice expression [s[lo:hi]]; out of range it panics. *)
Definition slice {A : Type} (l : list A) (lo hi : Z) : option (list A) :=
  if (0 <=? lo) && (lo <=? hi) && (hi <=? len l)
  then Some (take (Z.to_nat (hi - lo)) (drop (Z.to_nat lo) l))
  else None.

Definition Readdir (d : t) (count : Z) : outcome (t * (list ptr * option error)) :=
  let n := len (DirInfo.entries (info d)) in
  if (pos d >=? n) && (count >? 0) then Ret (d, ([], Some EOF))
  else
    let count :=
      if (count <=? 0) || (count >? wrap64 (n - pos d)) then wrap64 (n - pos d) else count in
    match slice (DirInfo.entries (info d)) (pos d) (wrap64 (pos d + count)) with
    | Some e => Ret (mk (info d) (wrap64 (pos d + count)), (e, None))
    | None => Panic "slice bounds out of range"
    end.

End Dir.

(** [http.File] values returned by [Open]. *)
Inductive handle : Type :=
| HCompressed (f : CompressedFile.t)
| HFile (f : File.t)
| HDir (d : Dir.t).

(** [Stat()]: every handle returns the static definition it embeds. *)
Definition Stat (h : handle) : node * option error :=
  match h with
  | HCompressed f => (NCompressed (CompressedFile.info f), None)
  | HFile f => (NFile (File.info f), None)
  | HDir d => (NDir (Dir.info d), None)
  end.

(** The static definition that a handle embeds by reference. *)
Definition opened_node (h : handle) : node := (Stat h).1.

(** The methods of [os.FileInfo], dispatched on the dynamic type. *)
Definition Name (n : node) : string :=
  match n with
  | NCompressed f => CompressedFileInfo.Name f
  | NFile f => FileInfo.Name f
  | NDir d => DirInfo.Name d
  end.

Definition Size (n : node) : Z :=
  match n with
  | NCompressed f => CompressedFileInfo.Size f
  | NFile f => FileInfo.Size f
  | NDir d => DirInfo.Size d
  end.

Definition Mode (n : node) : FileMode :=
  match n with
  | NCompressed f => CompressedFileInfo.Mode f
  | NFile f => FileInfo.Mode f
  | NDir d => DirInfo.Mode d
  end.

Definition ModTime (n : node) : Time :=
  match n with
  | NCompressed f => CompressedFileInfo.ModTime f
  | NFile f => FileInfo.ModTime f
  | NDir d => DirInfo.ModTime d
  end.

Definition IsDir (n : node) : bool :=
  match n with
  | NCompressed f => CompressedFileInfo.IsDir f
  | NFile f => FileInfo.IsDir f
  | NDir d => DirInfo.IsDir d
  end.

(** The type assertion [f.(gzipByter)] followed by [GzipBytes()]: only
    the compressed-file handle has the method. *)
Definition GzipBytes (h : handle) : option (list byte) :=
  match h with
  | HCompressed f => Some (CompressedFileInfo.GzipBytes (CompressedFile.info f))
  | HFile _ => None
  | HDir _ => None
  end.

(** [vfsgen۰FS] and its [Open]. The template leaves out the case of a
    file kind, with its type, when the table has no node of that kind;
    the cases below are those of a table with every kind. The table
    holds values of the three node types only, which the [default] case
    of the type switch never sees. *)
Module FS.

Abbreviation t := (gmap string node).

Definition Open `{gzip.Codec} (fs : t) (path : string) : outcome (handle + error) :=
  let path := path.Clean ("/" +:+ path) in
  match fs !! path with
  | None => Ret (inr (PathError "open" path ErrNotExist))
  | Some (NCompressed f) =>
      match gzip.NewReader (CompressedFileInfo.compressedContent f) with
      | (_, Some e) => Panic "unexpected error reading own gzip compressed bytes"
      | (gr, None) => Ret (inl (HCompressed (CompressedFile.mk f gr 0 0)))
      end
  | Some (NFile f) =>
      Ret (inl (HFile (File.mk f (bytes.NewReader (FileInfo.content f)))))
  | Some (NDir d) => Ret (inl (HDir (Dir.mk d 0)))
  end.

End FS.

(** ** The generator *)

(** [sort.Strings]: ascending byte-wise lexicographic order. *)
Definition str_le (a b : string) : Prop := Strings.String.leb a b = true.

#[global] Instance str_le_dec : RelDecision str_le.
Proof. intros a b. unfold str_le. apply bool_eq_dec. Defined.

Definition sort_Strings (l : list string) : list string := merge_sort str_le l.

(** The input [http.FileSystem], as the tree that [Open], [Stat],
    [Readdir], [Read] and [Seek] let the generator observe. [Open] of the
    path of a node of the tree resolves to that node. A failure is the
    message of the error the operation returns. *)
#[warnings="-register-all"]
Inductive vnode : Type :=
| VFile (name : string) (mtime : Time) (size : Z)
        (data : list byte) (read_err seek_err : option string)
| VDir (name : string) (mtime : Time) (readdir_err : option string)
       (children : list vnode)
| VBroken (name : string) (open_err : string).

Definition vname (n : vnode) : string :=
  match n with
  | VFile name _ _ _ _ _ => name
  | VDir name _ _ _ => name
  | VBroken name _ => name
  end.

Module vfsutil.

(** [vfsutil.ReadDir(fs, dirname)] on the directory [n]: the names of
    its entries. *)
Definition ReadDir (n : vnode) : list string * option error :=
  match n with
  | VDir _ _ (Some e) _ => ([], Some (ErrInput e))
  | VDir _ _ None children => (map vname children, None)
  | VFile name _ _ _ _ _ => ([], Some (ErrInput ("not a directory: " +:+ name)))
  | VBroken _ e => ([], Some (ErrInput e))
  end.

(** [io.Copy(dst, r)] seen from the source [r]: everything [r] holds
    from its current offset, or the error of a failing read. *)
Definition read_all (n : vnode) : list byte * option error :=
  match n with
  | VFile _ _ _ data None _ => (data, None)
  | VFile _ _ _ _ (Some e) _ => ([], Some (ErrInput e))
  | _ => ([], Some (ErrInput "is a directory"))
  end.

(** [r.Seek(0, io.SeekStart)] on the opened input file. *)
Definition seek_start (n : vnode) : option error :=
  match n with
  | VFile _ _ _ _ _ (Some e) => Some (ErrInput e)
  | _ => None
  end.

End vfsutil.

Module vfsgen.

Module fileInfo.
Record t : Type := mk {
  Path : string;
  Name : string;
  ModTime : Time;
  UncompressedSize : Z
}.
End fileInfo.

Module dirInfo.
Record t : Type := mk {
  Path : string;
  Name : string;
  ModTime : Time;
  Entries : list string
}.
End dirInfo.

Module toc.
Record t : Type := mk {
  dirs : list dirInfo.t;
  HasCompressedFile : bool;   (* There's at least one compressedFile. *)
  HasFile : bool              (* There's at least one uncompressed file. *)
}.
Definition zero : t := mk [] false false.
End toc.

Record Options : Type := mkOptions {
  Filename : string;
  PackageName : string;
  BuildTags : string;
  VariableName : string;
  VariableComment : string
}.

(** The text of the output, one [chunk] per template execution and one
    per escaped content byte. *)
Inductive chunk : Type :=
| Header (opt : Options)
| CompressedFileInfo_Before (file : fileInfo.t)
| CompressedFileInfo_After
| FileInfo_Before (file : fileInfo.t)
| FileInfo_After
| Escaped (b : byte)
| DirInfo_ (dir : dirInfo.t)
| DirEntries (dirs : list dirInfo.t)
| Trailer (t : toc.t).

(** [*bytes.Buffer]; a write into it does not fail, and neither does
    the execution of a template into it. *)
Definition Buffer : Type := list chunk.
Definition Truncate (n : Z) (buf : Buffer) : Buffer := take (Z.to_nat n) buf.

(** Modelled from the spec: [stringWriter], declared in another file of
    the package, is the writer through which content reaches the
    output; it passes every byte on (as one escape of the string
    literal) and counts in [N] the bytes written, the length that is
    compared with the uncompressed length. *)
Record stringWriter : Type := mkStringWriter { W : Buffer; N : Z }.

Definition stringWriter_Write (sw : stringWriter) (p : list byte) : stringWriter :=
  mkStringWriter (W sw ++ map Escaped p) (N sw + len p).

(** The files of the output directory, by name. *)
Abbreviation disk := (gmap string Buffer).

(** [readDirPaths] on the directory [dir] named [dirname]. *)
Definition readDirPaths (dir : vnode) (dirname : string) : list string * option error :=
  match vfsutil.ReadDir dir with
  | (_, Some e) => ([], Some e)
  | (fis, None) => (sort_Strings (map (path.Join dirname) fis), None)
  end.

Section WithCodec.
Context `{gzip.Codec}.

(** [writeCompressedFileInfo(w, file, r)] *)
Definition writeCompressedFileInfo (w : Buffer) (file : fileInfo.t) (r : vnode)
  : Buffer * option error :=
  let w := w ++ [CompressedFileInfo_Before file] in
  let sw := mkStringWriter w 0 in
  match vfsutil.read_all r with
  | (_, Some e) => (W sw, Some e)
  | (data, None) =>
      let sw := stringWriter_Write sw (gzip.compress data) in
      if N sw >=? fileInfo.UncompressedSize file
      then (W sw, Some errCompressedNotSmaller)
      else (W sw ++ [CompressedFileInfo_After], None)
  end.

(** [writeFileInfo(w, file, r)] *)
Definition writeFileInfo (w : Buffer) (file : fileInfo.t) (r : vnode)
  : Buffer * option error :=
  let w := w ++ [FileInfo_Before file] in
  let sw := mkStringWriter w 0 in
  match vfsutil.read_all r with
  | (_, Some e) => (W sw, Some e)
  | (data, None) =>
      let sw := stringWriter_Write sw data in
      (W sw ++ [FileInfo_After], None)
  end.

(** The state that the closure [walkFn] captures by reference. *)
Definition state : Type := Buffer * toc.t.

Definition mtime_of (n : vnode) : Time :=
  match n with
  | VFile _ t _ _ _ _ => t
  | VDir _ t _ _ => t
  | VBroken _ _ => 0
  end.

Definition size_of (n : vnode) : Z :=
  match n with
  | VFile _ _ sz _ _ _ => sz
  | _ => 0
  end.

Definition is_dir (n : vnode) : bool :=
  match n with
  | VDir _ _ _ _ => true
  | _ => false
  end.

(** [walkFn(path, fi, r, err)]; [fi] and [r] are those of [n]. *)
Definition walkFn (path : string) (n : vnode) (err : option error) (st : state)
  : state * option error :=
  let '(buf, tc) := st in
  match err with
  | Some e => (st, Some e)
  | None =>
      if is_dir n then
        match readDirPaths n path with
        | (_, Some e) => (st, Some e)
        | (entries, None) =>
            let dir := dirInfo.mk path (path.Base path) (UTC (mtime_of n)) entries in
            let tc := toc.mk (toc.dirs tc ++ [dir])
                             (toc.HasCompressedFile tc) (toc.HasFile tc) in
            ((buf ++ [DirInfo_ dir], tc), None)
        end
      else
        let file := fileInfo.mk path (path.Base path) (UTC (mtime_of n)) (size_of n) in
        let marker := len buf in
        match writeCompressedFileInfo buf file n with
        | (buf, None) =>
            ((buf, toc.mk (toc.dirs tc) true (toc.HasFile tc)), None)
        | (buf, Some e) =>
            if decide (e = errCompressedNotSmaller) then
              match vfsutil.seek_start n with
              | Some e => ((buf, tc), Some e)
              | None =>
                  let buf := Truncate marker buf in
                  match writeFileInfo buf file n with
                  | (buf, Some e) => ((buf, tc), Some e)
                  | (buf, None) =>
                      ((buf, toc.mk (toc.dirs tc) (toc.HasCompressedFile tc) true), None)
                  end
              end
            else ((buf, tc), Some e)
        end
  end.

(** [vfsutil.WalkFiles]: [walkFn] on the node, then on every entry of
    a directory in the order of its listing; an entry that cannot be
    opened is reported to [walkFn] with its error; the first error
    that [walkFn] returns ends the walk. *)
Fixpoint walkFiles (path : string) (n : vnode) (st : state) {struct n}
  : state * option error :=
  match n with
  | VBroken _ e => walkFn path n (Some (ErrInput e)) st
  | VFile _ _ _ _ _ _ => walkFn path n None st
  | VDir _ _ _ children =>
      match walkFn path n None st with
      | (st, Some e) => (st, Some e)
      | (st, None) =>
          match vfsutil.ReadDir n with
          | (_, Some e) => walkFn path n (Some e) st
          | (_, None) =>
              (fix each (cs : list vnode) (st : state) : state * option error :=
                 match cs with
                 | [] => (st, None)
                 | c :: cs' =>
                     match walkFiles (path.Join path (vname c)) c st with
                     | (st, Some e) => (st, Some e)
                     | (st, None) => each cs' st
                     end
                 end) children st
          end
      end
  end.

(** [findAndWriteFiles(buf, fs, toc)] *)
Definition findAndWriteFiles (buf : Buffer) (fs : vnode) (tc : toc.t)
  : state * option error :=
  walkFiles "/" fs (buf, tc).

Section WithOptions.
(** [Options.fillMissing], declared in another file of the package. *)
Variable fillMissing : Options -> Options.

(** [Generate(input, opt)] *)
Definition Generate (input : vnode) (opt : Options) (d : disk) : disk * option error :=
  let opt := fillMissing opt in
  let buf : Buffer := [Header opt] in
  match findAndWriteFiles buf input toc.zero with
  | (_, Some e) => (d, Some e)
  | ((buf, tc), None) =>
      let buf := buf ++ [DirEntries (toc.dirs tc)] in
      let buf := buf ++ [Trailer tc] in
      (<[Filename opt := buf]> d, None)
  end.
End WithOptions.

End WithCodec.

End vfsgen.


(** ** The table that the generated source denotes *)

(** The output of [Generate] is Go source: a map literal with one
    element per node, followed by the assignments of the [entries] of the
    directories. [load] reads the chunks of that source as the table the
    initialiser builds; [None] stands for a source that the compiler
    refuses (a duplicate key) or whose initialiser panics (a type
    assertion on a key that is absent). *)
Module artifact.

Import vfsgen.

Inductive literal : Type :=
| NoLiteral
| InCompressed (file : fileInfo.t) (bs : list byte)
| InFile (file : fileInfo.t) (bs : list byte).

Definition add (fs : FS.t) (key : string) (n : node) : option FS.t :=
  match fs !! key with
  | Some _ => None
  | None => Some (<[key := n]> fs)
  end.

Definition set_entries (fs : FS.t) (dir : dirInfo.t) : option FS.t :=
  match dirInfo.Entries dir with
  | [] => Some fs
  | es =>
      match fs !! dirInfo.Path dir with
      | Some (NDir d) =>
          if forallb (fun e => bool_decide (is_Some (fs !! e))) es
          then Some (<[dirInfo.Path dir := NDir (DirInfo.mk (DirInfo.name d) (DirInfo.modTime d) es)]> fs)
          else None
      | _ => None
      end
  end.

Definition step (s : option (FS.t * literal)) (c : chunk) : option (FS.t * literal) :=
  match s with
  | None => None
  | Some (fs, lit) =>
      match c, lit with
      | Header _, NoLiteral => Some (fs, NoLiteral)
      | Trailer _, NoLiteral => Some (fs, NoLiteral)
      | CompressedFileInfo_Before file, NoLiteral => Some (fs, InCompressed file [])
      | FileInfo_Before file, NoLiteral => Some (fs, InFile file [])
      | Escaped b, InCompressed file bs => Some (fs, InCompressed file (bs ++ [b]))
      | Escaped b, InFile file bs => Some (fs, InFile file (bs ++ [b]))
      | CompressedFileInfo_After, InCompressed file bs =>
          fs' ← add fs (fileInfo.Path file)
                  (NCompressed (CompressedFileInfo.mk (fileInfo.Name file) (fileInfo.ModTime file)
                                                      bs (fileInfo.UncompressedSize file)));
          Some (fs', NoLiteral)
      | FileInfo_After, InFile file bs =>
          fs' ← add fs (fileInfo.Path file)
                  (NFile (FileInfo.mk (fileInfo.Name file) (fileInfo.ModTime file) bs));
          Some (fs', NoLiteral)
      | DirInfo_ dir, NoLiteral =>
          fs' ← add fs (dirInfo.Path dir)
                  (NDir (DirInfo.mk (dirInfo.Name dir) (dirInfo.ModTime dir) []));
          Some (fs', NoLiteral)
      | DirEntries dirs, NoLiteral =>
          fs' ← foldl (fun acc dir => acc ≫= fun fs => set_entries fs dir) (Some fs) dirs;
          Some (fs', NoLiteral)
      | _, _ => None
      end
  end.

Definition load_from (fs : FS.t) (buf : Buffer) : option (FS.t * literal) :=
  foldl step (Some (fs, NoLiteral)) buf.

Definition load (buf : Buffer) : option FS.t :=
  match load_from ∅ buf with
  | Some (fs, NoLiteral) => Some fs
  | _ => None
  end.

End artifact.

(** ** Callers of the handles *)

(** Reading a compressed-file handle to its end with a buffer of [p]
    bytes, as [ioutil.ReadAll] does: [Read] is called until it returns an
    error, and [io.EOF] is not reported as one. [fuel] bounds the number
    of calls. *)
Fixpoint ReadAll `{gzip.Codec} (fuel : nat) (f : CompressedFile.t) (p : nat) (acc : list byte)
  : option (CompressedFile.t * list byte * option error) :=
  match fuel with
  | O => None
  | S k =>
      match CompressedFile.Read f p with
      | (f', (out, Some e)) =>
          Some (f', acc ++ out, if decide (e = EOF) then None else Some e)
      | (f', (out, None)) => ReadAll k f' p (acc ++ out)
      end
  end.

(** The loop of [dirList]: [Readdir(n)] until it returns an error or no
    entry; the entries seen, in order. *)
Fixpoint ReaddirAll (fuel : nat) (d : Dir.t) (n : Z) (acc : list ptr)
  : option (Dir.t * list ptr) :=
  match fuel with
  | O => None
  | S k =>
      match Dir.Readdir d n with
      | Panic _ => None
      | Ret (d', (_, Some _)) => Some (d', acc)
      | Ret (d', ([], None)) => Some (d', acc)
      | Ret (d', (es, None)) => ReaddirAll k d' n (acc ++ es)
      end
  end.

(** ** Package strings *)

Module strings.

(** [strings.HasPrefix(s, prefix)] *)
Definition HasPrefix (s prefix : string) : bool := Strings.String.prefix prefix s.

(** [strings.Split(s, sep)] for a separator of one byte: the substrings
    between the separators, and one empty substring for the empty
    string. *)
Fixpoint Split (s : string) (sep : ascii) : list string :=
  match s with
  | EmptyString => [EmptyString]
  | String c s' =>
      if Ascii.eqb c sep then EmptyString :: Split s' sep
      else match Split s' sep with
           | h :: t => String c h :: t
           | [] => [String c EmptyString]
           end
  end.

Definition of_bytes (l : list nat) : string := string_of_list_ascii (map ascii_of_nat l).

(** The code points of [unicode.IsSpace], each as the bytes of its
    UTF-8 encoding: U+0009 to U+000D, U+0020, U+0085, U+00A0, U+1680,
    U+2000 to U+200A, U+2028, U+2029, U+202F, U+205F and U+3000. A byte
    sequence that is no valid encoding decodes to the replacement
    character, which is no space. *)
Definition white_space : list string :=
  map of_bytes
    [[9]; [10]; [11]; [12]; [13]; [32]; [194; 133]; [194; 160]; [225; 154; 128];
     [226; 128; 128]; [226; 128; 129]; [226; 128; 130]; [226; 128; 131]; [226; 128; 132];
     [226; 128; 133]; [226; 128; 134]; [226; 128; 135]; [226; 128; 136]; [226; 128; 137];
     [226; 128; 138]; [226; 128; 168]; [226; 128; 169]; [226; 128; 175]; [226; 129; 159];
     [227; 128; 128]]%nat.

(** [s] without its prefix [p]. *)
Fixpoint cut (p s : string) : option string :=
  match p, s with
  | EmptyString, _ => Some s
  | String a p', String b s' => if Ascii.eqb a b then cut p' s' else None
  | String _ _, EmptyString => None
  end.

(** [s] without the space it begins with. *)
Fixpoint cut_space (ws : list string) (s : string) : option string :=
  match ws with
  | [] => None
  | w :: ws' =>
      match cut w s with
      | Some s' => Some s'
      | None => cut_space ws' s
      end
  end.

(** Removing leading spaces, one per step; the string has no more
    spaces than bytes. *)
Fixpoint trim_left (ws : list string) (fuel : nat) (s : string) : string :=
  match fuel with
  | O => s
  | S k =>
      match cut_space ws s with
      | Some s' => trim_left ws k s'
      | None => s
      end
  end.

Definition reverse (s : string) : string :=
  string_of_list_ascii (rev (list_ascii_of_string s)).

(** [strings.TrimSpace(s)]: [s] without leading and trailing white
    space; the trailing spaces are the leading ones of the reversed
    string, read against the reversed encodings. *)
Definition TrimSpace (s : string) : string :=
  let l := trim_left white_space (String.length s) s in
  reverse (trim_left (map reverse white_space) (String.length l) (reverse l)).

End strings.

(** ** Package gzip_file_server *)

Module gzip_file_server.

Definition StatusMovedPermanently : Z := 301.
Definition StatusInternalServerError : Z := 500.

(** What the handler reads of the [*http.Request]. *)
Record Request : Type := mkRequest {
  URL_Path : string;            (* r.URL.Path *)
  URL_RawQuery : string;        (* r.URL.RawQuery *)
  Accept_Encoding : string      (* r.Header.Get("Accept-Encoding") *)
}.

(** The [io.ReadSeeker] handed to [http.ServeContent]. *)
Inductive content : Type :=
| FromBytes (b : list byte)     (* bytes.NewReader(gzipFile.GzipBytes()) *)
| FromFile (f : handle).        (* f *)

(** What the handler does with the [http.ResponseWriter], call by
    call; [http.Error] and [http.ServeContent] are calls into the
    library. *)
Inductive call : Type :=
| Header_Set (key value : string)
| WriteHeader (code : Z)
| http_Error (err : error) (code : Z)
| http_ServeContent (name : string) (modtime : Time) (c : content)
| Fprintf (text : string).

Definition double_quote : string := String "034"%char EmptyString.
Definition newline : string := String "010"%char EmptyString.

(** [isGzipEncodingAccepted(req)] *)
Definition isGzipEncodingAccepted (req : Request) : bool :=
  existsb (fun v => String.eqb (strings.TrimSpace v) "gzip")
    (strings.Split (Accept_Encoding req) ","%char).

(** [localRedirect(w, r, newPath)] *)
Definition localRedirect (r : Request) (newPath : string) : list call :=
  let newPath :=
    if String.eqb (URL_RawQuery r) "" then newPath
    else newPath +:+ "?" +:+ URL_RawQuery r in
  [Header_Set "Location" newPath; WriteHeader StatusMovedPermanently].

(** The last byte of a string, [url[len(url)-1]]. *)
Fixpoint last_byte (s : string) : option ascii :=
  match s with
  | EmptyString => None
  | String c EmptyString => Some c
  | String _ s' => last_byte s'
  end.

Section Handler.
Context `{C : gzip.Codec}.

(** Library functions that the handler calls on its way. *)
Variable url_String : string -> string.         (* url.URL{Path: name}.String() *)
Variable html_EscapeString : string -> string.  (* html.EscapeString(name) *)
Variable url_Query : string -> list string.     (* the keys of r.URL.Query() *)
Variable sort_Sort : (ptr -> ptr -> bool) -> list ptr -> list ptr.
                                                (* sort.Sort, by its Less *)

(** [byName.Less]: the entries of a directory are nodes of the table. *)
Definition entry_Name (fs : FS.t) (e : ptr) : string :=
  match fs !! e with
  | Some n => Name n
  | None => ""
  end.

Definition entry_IsDir (fs : FS.t) (e : ptr) : bool :=
  match fs !! e with
  | Some n => IsDir n
  | None => false
  end.

Definition Less (fs : FS.t) (a b : ptr) : bool :=
  negb (Strings.String.leb (entry_Name fs b) (entry_Name fs a)).

(** The line that [dirList] writes for one entry. *)
Definition entry_line (fs : FS.t) (e : ptr) : call :=
  let name := entry_Name fs e in
  let name := if entry_IsDir fs e then name +:+ "/" else name in
  Fprintf ("<a href=" +:+ double_quote +:+ url_String name +:+ double_quote +:+ ">"
           +:+ html_EscapeString name +:+ "</a>" +:+ newline).

(** The loop of [dirList] on a directory handle. [Readdir] returns a
    slice of the [entries] of the directory, and [sort.Sort] sorts that
    slice in place: the entries of the directory itself are permuted,
    which the handle returned shows. An entry that is no node of the
    table stands for a nil [os.FileInfo], whose [Name()] panics. [fuel]
    bounds the number of [Readdir] calls. *)
Fixpoint dirList_loop (fuel : nat) (fs : FS.t) (d : Dir.t) (acc : list call)
  : option (outcome (Dir.t * list call)) :=
  match fuel with
  | O => None
  | S k =>
      match Dir.Readdir d 100 with
      | Panic msg => Some (Panic msg)
      | Ret (d', (_, Some _)) => Some (Ret (d', acc))
      | Ret (d', ([], None)) => Some (Ret (d', acc))
      | Ret (d', (dirs, None)) =>
          if forallb (fun e => bool_decide (is_Some (fs !! e))) dirs then
            let sorted := sort_Sort (Less fs) dirs in
            let es := DirInfo.entries (Dir.info d) in
            let es' := take (Z.to_nat (Dir.pos d)) es ++ sorted
                       ++ drop (Z.to_nat (Dir.pos d')) es in
            let d'' := Dir.mk (DirInfo.mk (DirInfo.name (Dir.info d))
                                 (DirInfo.modTime (Dir.info d)) es') (Dir.pos d') in
            dirList_loop k fs d'' (acc ++ map (entry_line fs) sorted)
          else Some (Panic "invalid memory address or nil pointer dereference")
      end
  end.

(** [dirList(w, f, name)]; a file handle returns an error from
    [Readdir], which ends the loop at once. *)
Definition dirList (fuel : nat) (fs : FS.t) (f : handle) (name : string)
  : option (outcome (handle * list call)) :=
  let head :=
    [Header_Set "Content-Type" "text/html; charset=utf-8";
     Fprintf ("<pre>" +:+ newline);
     Fprintf ("<a href=" +:+ double_quote +:+ path.Clean (name +:+ "/..") +:+ double_quote
              +:+ ">..</a>" +:+ newline)] in
  let tail := [Fprintf ("</pre>" +:+ newline)] in
  match f with
  | HDir d =>
      match dirList_loop fuel fs d head with
      | None => None
      | Some (Panic msg) => Some (Panic msg)
      | Some (Ret (d', calls)) => Some (Ret (HDir d', calls ++ tail))
      end
  | _ => Some (Ret (f, head ++ tail))
  end.

(** [serveFile(w, r, fs, name)]: the calls on [w], and the table
    afterwards: the directory that was listed is the node under the
    path that was opened. The deferred [f.Close()] does nothing on the
    handles of the table. *)
Definition serveFile (fuel : nat) (r : Request) (fs : FS.t) (name : string)
  : option (outcome (FS.t * list call)) :=
  match FS.Open fs name with
  | Panic msg => Some (Panic msg)
  | Ret (inr err) => Some (Ret (fs, [http_Error err StatusInternalServerError]))
  | Ret (inl f) =>
      match Stat f with
      | (_, Some err) => Some (Ret (fs, [http_Error err StatusInternalServerError]))
      | (d, None) =>
          let url := URL_Path r in
          match last_byte url with
          | None => Some (Panic "index out of range")
          | Some c =>
              if IsDir d && negb (Ascii.eqb c "/") then
                Some (Ret (fs, localRedirect r (path.Base url +:+ "/")))
              else if negb (IsDir d) && Ascii.eqb c "/" then
                Some (Ret (fs, localRedirect r ("../" +:+ path.Base url)))
              else if IsDir d then
                match dirList fuel fs f name with
                | None => None
                | Some (Panic msg) => Some (Panic msg)
                | Some (Ret (f', calls)) =>
                    Some (Ret (<[path.Clean ("/" +:+ name) := opened_node f']> fs, calls))
                end
              else
                let plain :=
                  if bool_decide ("plain" ∈ url_Query (URL_RawQuery r))
                  then [Header_Set "Content-Type" "text/plain"] else [] in
                match GzipBytes f with
                | Some b =>
                    if isGzipEncodingAccepted r then
                      Some (Ret (fs, plain ++ [Header_Set "Content-Encoding" "gzip";
                                               http_ServeContent (Name d) (ModTime d)
                                                 (FromBytes b)]))
                    else
                      Some (Ret (fs, plain ++ [http_ServeContent (Name d) (ModTime d)
                                                 (FromFile f)]))
                | None =>
                    Some (Ret (fs, plain ++ [http_ServeContent (Name d) (ModTime d)
                                               (FromFile f)]))
                end
          end
      end
  end.

(** [ServeHTTP(w, r)] on the server whose [root] is the table. *)
Definition ServeHTTP (fuel : nat) (root : FS.t) (r : Request)
  : option (outcome (FS.t * list call)) :=
  let r :=
    if strings.HasPrefix (URL_Path r) "/" then r
    else mkRequest ("/" +:+ URL_Path r) (URL_RawQuery r) (Accept_Encoding r) in
  serveFile fuel r root (path.Clean (URL_Path r)).

End Handler.

End gzip_file_server.

(** ** A run-length codec

    An instance of the codec interface that computes, for running the
    definitions on concrete files: two magic bytes, then one
    (count, byte) pair per run. *)
Module rle.

Definition byte_of_nat (n : nat) : byte :=
  match Byte.of_nat n with
  | Some b => b
  | None => x00
  end.

Fixpoint runs (l : list byte) : list (nat * byte) :=
  match l with
  | [] => []
  | b :: t =>
      match runs t with
      | (n, b') :: rest =>
          if Byte.eqb b b' && (n <? 255)%nat then (S n, b) :: rest
          else (1%nat, b) :: (n, b') :: rest
      | [] => [(1%nat, b)]
      end
  end.

Definition magic : list byte := [x1f; x8b].

Definition serialize (rs : list (nat * byte)) : list byte :=
  flat_map (fun '(n, b) => [byte_of_nat n; b]) rs.

Definition compress (l : list byte) : list byte := magic ++ serialize (runs l).

Fixpoint parse (l : list byte) : list byte * error :=
  match l with
  | [] => ([], EOF)
  | [_] => ([], ErrUnexpectedEOF)
  | n :: b :: rest =>
      let '(out, e) := parse rest in (repeat b (Byte.to_nat n) ++ out, e)
  end.

Definition decode (l : list byte) : gzip.decoded :=
  match l with
  | [] => gzip.BadHeader EOF
  | [_] => gzip.BadHeader ErrUnexpectedEOF
  | m1 :: m2 :: rest =>
      if Byte.eqb m1 x1f && Byte.eqb m2 x8b
      then let '(out, e) := parse rest in gzip.Stream out e
      else gzip.BadHeader ErrHeader
  end.

End rle.


(** * The vocabulary of the properties *)

Import vfsgen.

(** ** Positions, literals and metadata *)

Definition standard_whence (whence : Z) : bool :=
  (whence =? io.SeekStart) || (whence =? io.SeekCurrent) || (whence =? io.SeekEnd).

(** The position from which [whence] counts. *)
Definition seek_base (f : CompressedFile.t) (whence : Z) : Z :=
  if whence =? io.SeekStart then 0
  else if whence =? io.SeekCurrent then CompressedFile.seekPos f
  else CompressedFileInfo.uncompressedSize (CompressedFile.info f).

(** The element of the map literal written for a compressed file and for
    a stored file. *)
Definition compressed_literal (file : fileInfo.t) (bs : list byte) : Buffer :=
  [CompressedFileInfo_Before file] ++ map Escaped bs ++ [CompressedFileInfo_After].

Definition stored_literal (file : fileInfo.t) (bs : list byte) : Buffer :=
  [FileInfo_Before file] ++ map Escaped bs ++ [FileInfo_After].

(** The uncompressed size of the content that a node stands for. *)
Definition uncompressed_size (n : node) : Z :=
  match n with
  | NCompressed f => CompressedFileInfo.uncompressedSize f
  | NFile f => len (FileInfo.content f)
  | NDir _ => 0
  end.

Definition recorded_name (n : node) : string :=
  match n with
  | NCompressed f => CompressedFileInfo.name f
  | NFile f => FileInfo.name f
  | NDir d => DirInfo.name d
  end.

Definition recorded_modTime (n : node) : Time :=
  match n with
  | NCompressed f => CompressedFileInfo.modTime f
  | NFile f => FileInfo.modTime f
  | NDir d => DirInfo.modTime d
  end.

Definition is_directory (n : node) : bool :=
  match n with
  | NDir _ => true
  | _ => false
  end.

(** The node that a handle was opened on. *)
Definition opened_on (h : handle) : node :=
  match h with
  | HCompressed f => NCompressed (CompressedFile.info f)
  | HFile f => NFile (File.info f)
  | HDir d => NDir (Dir.info d)
  end.

(** The mode in the words of the specification: read-only, and the
    directory bit exactly on directories. *)
Definition mode_as_specified (h : handle) : Prop :=
  mode_read_only (Mode (Stat h).1) = true /\
  mode_IsDir (Mode (Stat h).1) = is_directory (opened_on h).

(** The directory handles a program can hold: the cursor lies within
    the entries. *)
Definition dir_wf (d : Dir.t) : Prop :=
  0 <= Dir.pos d <= len (DirInfo.entries (Dir.info d)) /\
  len (DirInfo.entries (Dir.info d)) <= int64_max.

(** The number of entries that [Readdir(count)] returns when [left]
    entries remain. *)
Definition batch (count left : Z) : Z :=
  if (count <=? 0) || (count >? left) then left else count.

Fixpoint no_slash (s : string) : bool :=
  match s with
  | EmptyString => true
  | String c s' => negb (Ascii.eqb c path.slash) && no_slash s'
  end.

(** An element of a normalised path: not empty, not ["."], not [".."],
    and without a separator inside. *)
Definition plain_elem (e : string) : Prop :=
  e <> "" /\ e <> "." /\ e <> ".." /\ no_slash e = true.

(** Induction on the input tree, with the property available for every
    child of a directory. *)
Definition vnode_induction (P : vnode -> Prop)
    (HF : forall name mt size data re se, P (VFile name mt size data re se))
    (HD : forall name mt re children, Forall P children -> P (VDir name mt re children))
    (HB : forall name e, P (VBroken name e)) : forall n, P n :=
  fix go (n : vnode) : P n :=
    match n with
    | VFile name mt size data re se => HF name mt size data re se
    | VDir name mt re children =>
        HD name mt re children
          ((fix all (cs : list vnode) : Forall P cs :=
              match cs with
              | [] => @List.Forall_nil vnode P
              | c :: cs' => @List.Forall_cons vnode P c cs' (go c) (all cs')
              end) children)
    | VBroken name e => HB name e
    end.

Definition rle_expand (rs : list (nat * byte)) : list byte :=
  flat_map (fun '(n, b) => repeat b n) rs.

(** ** Handles and tables, relative to the codec *)

Section Vocabulary.
Context `{C : gzip.Codec}.

Definition payload (f : CompressedFile.t) : list byte :=
  CompressedFileInfo.compressedContent (CompressedFile.info f).

(** The protocol in the words of the specification. [restarted f f1]:
    the decompressor of [f1] stands at the beginning of the payload and
    [committed] is 0. *)
Definition restarted (f f1 : CompressedFile.t) : Prop :=
  gzip.start (payload f) = (CompressedFile.gr f1, None) /\
  CompressedFile.grPos f1 = 0 /\
  CompressedFile.seekPos f1 = CompressedFile.seekPos f /\
  CompressedFile.info f1 = CompressedFile.info f.

(** [discarded d f1 f2]: exactly [d] bytes were decoded and dropped, and
    [committed] has advanced to [requested]. *)
Definition discarded (d : Z) (f1 f2 : CompressedFile.t) : Prop :=
  (exists skipped : list byte,
      gzip.pending (CompressedFile.gr f1) = skipped ++ gzip.pending (CompressedFile.gr f2) /\
      len skipped = d) /\
  gzip.fin (CompressedFile.gr f2) = gzip.fin (CompressedFile.gr f1) /\
  CompressedFile.grPos f2 = CompressedFile.seekPos f1 /\
  CompressedFile.seekPos f2 = CompressedFile.seekPos f1 /\
  CompressedFile.info f2 = CompressedFile.info f1.

(** [delivered f2 p r]: [r] is the result of decoding into a buffer of
    [p] bytes from [f2]; both positions advance by the number of bytes
    produced. *)
Definition delivered (f2 : CompressedFile.t) (p : nat)
    (r : CompressedFile.t * (list byte * option error)) : Prop :=
  let '(f3, (out, err)) := r in
  gzip.Read (CompressedFile.gr f2) p = (CompressedFile.gr f3, out, err) /\
  CompressedFile.grPos f3 = CompressedFile.grPos f2 + len out /\
  CompressedFile.seekPos f3 = CompressedFile.seekPos f2 + len out /\
  CompressedFile.info f3 = CompressedFile.info f2.

Definition after_rewind (f f1 : CompressedFile.t) : Prop :=
  if CompressedFile.grPos f >? CompressedFile.seekPos f then restarted f f1 else f1 = f.

Definition after_forward (f1 f2 : CompressedFile.t) : Prop :=
  if CompressedFile.grPos f1 <? CompressedFile.seekPos f1
  then discarded (CompressedFile.seekPos f1 - CompressedFile.grPos f1) f1 f2
  else f2 = f1.

Definition lazy_protocol (f : CompressedFile.t) (p : nat) : Prop :=
  exists f1 f2 : CompressedFile.t,
    after_rewind f f1 /\ after_forward f1 f2 /\ delivered f2 p (CompressedFile.Read f p).

(** The handles a program can hold: the fields are 64-bit, [grPos] was
    never negative, the payload has a header that the decompressor
    accepts (else [Open] panics), and what is decoded fits the address
    space. *)
Definition handle_wf (f : CompressedFile.t) : Prop :=
  is_int64 (CompressedFile.seekPos f) /\
  0 <= CompressedFile.grPos f /\
  CompressedFile.grPos f + len (gzip.pending (CompressedFile.gr f)) <= int64_max /\
  exists data e, gzip.decode (payload f) = gzip.Stream data e /\ len data <= int64_max.

(** The decompressed bytes on which the fast-forward of [f] draws, the
    error that ends them, and the committed position it starts from. *)
Definition rewound_pending (f : CompressedFile.t) : list byte :=
  if CompressedFile.grPos f >? CompressedFile.seekPos f
  then gzip.pending (gzip.start (payload f)).1
  else gzip.pending (CompressedFile.gr f).

Definition rewound_fin (f : CompressedFile.t) : error :=
  if CompressedFile.grPos f >? CompressedFile.seekPos f
  then gzip.fin (gzip.start (payload f)).1
  else gzip.fin (CompressedFile.gr f).

Definition rewound_grPos (f : CompressedFile.t) : Z :=
  if CompressedFile.grPos f >? CompressedFile.seekPos f then 0 else CompressedFile.grPos f.

(** The requested position can be served: it is not negative and the
    decompressor has the bytes up to it. *)
Definition reachable (f : CompressedFile.t) : Prop :=
  0 <= CompressedFile.seekPos f /\
  CompressedFile.seekPos f - rewound_grPos f <= len (rewound_pending f).

(** [grPos] is the actual position of the decompressor in [data], the
    content that the payload of the handle decodes to. *)
Definition synced (data : list byte) (f : CompressedFile.t) : Prop :=
  gzip.decode (payload f) = gzip.Stream data EOF /\
  len data <= int64_max /\
  0 <= CompressedFile.grPos f <= len data /\
  CompressedFile.gr f
  = gzip.mkReader (drop (Z.to_nat (CompressedFile.grPos f)) data) EOF.

(** The handle at the end of the content. *)
Definition at_end (data : list byte) (f : CompressedFile.t) : CompressedFile.t :=
  CompressedFile.mk (CompressedFile.info f) (gzip.mkReader [] EOF) (len data) (len data).

(** The tables that the generator produces: every compressed payload is
    the output of the compressor. *)
Definition generated (fs : FS.t) : Prop :=
  forall key f, fs !! key = Some (NCompressed f) ->
                exists data, CompressedFileInfo.compressedContent f = gzip.compress data.

(** A handle as [Open] creates it: positions at 0, the decompressor or
    the reader at the beginning of the content. *)
Definition fresh (h : handle) : Prop :=
  match h with
  | HCompressed f =>
      CompressedFile.grPos f = 0 /\ CompressedFile.seekPos f = 0 /\
      exists data, gzip.decode (payload f) = gzip.Stream data EOF /\
                   CompressedFile.gr f = gzip.mkReader data EOF
  | HFile f => File.Reader f = bytes.NewReader (FileInfo.content (File.info f))
  | HDir d => Dir.pos d = 0
  end.



End Vocabulary.

(** ** Sample files and trees *)

(** A compressed file of ten letters and handles on it, under the
    run-length codec. *)
Definition letters : list byte := list_byte_of_string "ABCDEFGHIJ".

Definition letters_info : CompressedFileInfo.t :=
  CompressedFileInfo.mk "f" 0 (rle.compress letters) 10.

(** As [Open] returns it. *)
Definition letters_fresh : CompressedFile.t :=
  CompressedFile.mk letters_info (gzip.mkReader letters EOF) 0 0.

(** After [Seek(5, io.SeekStart)]. *)
Definition letters_at_5 : CompressedFile.t :=
  CompressedFile.mk letters_info (gzip.mkReader letters EOF) 0 5.

(** After [Seek(100, io.SeekStart)], past the end of the content. *)
Definition letters_past_end : CompressedFile.t :=
  CompressedFile.mk letters_info (gzip.mkReader letters EOF) 0 100.

(** After eight bytes were read and [Seek(-5, io.SeekStart)]. *)
Definition letters_negative : CompressedFile.t :=
  CompressedFile.mk letters_info (gzip.mkReader (list_byte_of_string "IJ") EOF) 8 (-5).

(** A file of ten equal bytes, which the run-length codec shortens to
    four bytes, and a file of two bytes, which it lengthens to six. *)
Definition ten_As : list byte := repeat "A"%byte 10.
Definition two_bytes : list byte := list_byte_of_string "AB".

Definition ten_As_info : CompressedFileInfo.t :=
  CompressedFileInfo.mk "a.txt" 0 (rle.compress ten_As) 10.

Definition ten_As_handle : CompressedFile.t :=
  CompressedFile.mk ten_As_info (gzip.mkReader ten_As EOF) 0 0.

Definition a_directory : handle := HDir (Dir.mk (DirInfo.mk "d" 0 []) 0).

Definition sample_tree : vnode :=
  VDir "/" 7 None
    [VFile "a.txt" 1 10 ten_As None None;
     VDir "sub" 2 None [VFile "b" 3 2 two_bytes None None]].

Definition sample_options : Options := mkOptions "assets_vfsdata.go" "main" "" "assets" "".

Definition sample_table : FS.t :=
  <["/" := NDir (DirInfo.mk "/" 7 ["/a.txt"; "/sub"])]>
    (<["/a.txt" := NCompressed (CompressedFileInfo.mk "a.txt" 1 (rle.compress ten_As) 10)]>
       (<["/sub" := NDir (DirInfo.mk "sub" 2 ["/sub/b"])]>
          (<["/sub/b" := NFile (FileInfo.mk "b" 3 two_bytes)]> ∅))).

(** ** Stored and compressed handles on the same content *)

(** A compressed handle and a stored handle that stand at the same
    position of the same content. *)
Definition same_view `{C : gzip.Codec} (data : list byte)
    (fc : CompressedFile.t) (fs : File.t) : Prop :=
  synced data fc /\
  bytes.s (File.Reader fs) = data /\
  bytes.i (File.Reader fs) = CompressedFile.seekPos fc /\
  0 <= CompressedFile.seekPos fc <= len data.

(** ** Sequences of calls on a handle *)

(** A call on a compressed-file handle, and a sequence of calls made one
    after the other on the handle that the previous call left. *)
Inductive file_call : Type :=
| CallSeek (offset whence : Z)
| CallRead (p : nat).

Fixpoint file_calls `{C : gzip.Codec} (calls : list file_call) (f : CompressedFile.t)
  : outcome CompressedFile.t :=
  match calls with
  | [] => Ret f
  | CallSeek offset whence :: rest =>
      match CompressedFile.Seek f offset whence with
      | Ret (f', _) => file_calls rest f'
      | Panic msg => Panic msg
      end
  | CallRead p :: rest => file_calls rest (CompressedFile.Read f p).1
  end.

Definition standard_call (c : file_call) : Prop :=
  match c with
  | CallSeek _ whence => standard_whence whence = true
  | CallRead _ => True
  end.

Inductive dir_call : Type :=
| CallDirSeek (offset whence : Z)
| CallReaddir (count : Z).

Fixpoint dir_calls (calls : list dir_call) (d : Dir.t) : outcome Dir.t :=
  match calls with
  | [] => Ret d
  | CallDirSeek offset whence :: rest => dir_calls rest (Dir.Seek d offset whence).1
  | CallReaddir count :: rest =>
      match Dir.Readdir d count with
      | Ret (d', _) => dir_calls rest d'
      | Panic msg => Panic msg
      end
  end.

(** ** The walk over the whole input *)

(** The nodes of the input, each with the path under which the walk
    comes to it, in the order of the walk. *)
Fixpoint visited (path : string) (n : vnode) : list (string * vnode) :=
  (path, n) ::
  match n with
  | VDir _ _ _ children => flat_map (fun c => visited (path.Join path (vname c)) c) children
  | _ => []
  end.

(** The same walk on the elements of the paths. *)
Fixpoint velems (es : list string) (n : vnode) : list (list string) :=
  es ::
  match n with
  | VDir _ _ _ children => flat_map (fun c => velems (es ++ [vname c]) c) children
  | _ => []
  end.

(** The entries of every directory have plain names, each name once. *)
Fixpoint well_named (n : vnode) : Prop :=
  match n with
  | VDir _ _ _ children =>
      NoDup (map vname children) /\
      (fix all (cs : list vnode) : Prop :=
         match cs with
         | [] => True
         | c :: cs' => plain_elem (vname c) /\ well_named c /\ all cs'
         end) children
  | _ => True
  end.

Section WalkVocabulary.
Context `{C : gzip.Codec}.









End WalkVocabulary.

(** A normalised absolute path: the separator followed by plain
    elements with one separator between them. *)
Definition normal (p : string) : Prop :=
  exists es, Forall plain_elem es /\ p = "/" +:+ path.join es.

(** ** Requests *)

(** A string made of the encodings [ws] only, one after the other. *)
Inductive made_of (ws : list string) : string -> Prop :=
| made_of_nil : made_of ws ""
| made_of_cons (w s : string) : w ∈ ws -> made_of ws s -> made_of ws (w +:+ s).

(** A string of white space. *)
Definition spaces : string -> Prop := made_of strings.white_space.

(** The path of the request as [serveFile] sees it, with its leading
    separator. *)
Definition served_url (r : gzip_file_server.Request) : string :=
  if strings.HasPrefix (gzip_file_server.URL_Path r) "/" then gzip_file_server.URL_Path r
  else "/" +:+ gzip_file_server.URL_Path r.

Definition ends_with_slash (url : string) : bool :=
  match gzip_file_server.last_byte url with
  | Some c => Ascii.eqb c "/"
  | None => false
  end.

(** What [sort.Sort] guarantees on [byName]: a permutation of the
    slice in which no entry is less than the one before it. *)
Definition sorts (sort_Sort : (ptr -> ptr -> bool) -> list ptr -> list ptr) : Prop :=
  forall (fs : FS.t) (l : list ptr),
    sort_Sort (gzip_file_server.Less fs) l ≡ₚ l /\
    Sorted (fun a b => gzip_file_server.Less fs b a = false)
      (sort_Sort (gzip_file_server.Less fs) l).

(** Entries whose names are in strictly ascending order. *)
Definition names_ascending (fs : FS.t) (l : list ptr) : Prop :=
  StronglySorted (fun a b => gzip_file_server.Less fs a b = true) l.

(** A sorting function, for running the listings on concrete tables. *)
Definition by_merge (less : ptr -> ptr -> bool) (l : list ptr) : list ptr :=
  @merge_sort ptr (fun a b => less b a = false) (fun a b => decide (less b a = false)) l.


(** The tables that the server can serve with [fuel] calls of
    [Readdir] per listing: the compressed payloads are outputs of the
    compressor, and the entries of every directory are nodes of the
    table, fewer than [fuel]. *)
Definition servable `{C : gzip.Codec} (fuel : nat) (fs : FS.t) : Prop :=
  generated fs /\
  forall p di, fs !! p = Some (NDir di) ->
               Forall (fun e => is_Some (fs !! e)) (DirInfo.entries di) /\
               len (DirInfo.entries di) <= int64_max /\
               (length (DirInfo.entries di) < fuel)%nat.

(** Requests served one after the other, each on the table that the
    one before left; the calls on the response writer of each. *)
Fixpoint requests `{C : gzip.Codec} (url_String html_EscapeString : string -> string)
    (url_Query : string -> list string)
    (sort_Sort : (ptr -> ptr -> bool) -> list ptr -> list ptr)
    (fuel : nat) (rs : list gzip_file_server.Request) (fs : FS.t)
  : option (outcome (FS.t * list (list gzip_file_server.call))) :=
  match rs with
  | [] => Some (Ret (fs, []))
  | r :: rs' =>
      match gzip_file_server.ServeHTTP url_String html_EscapeString url_Query sort_Sort
              fuel fs r with
      | Some (Ret (fs', calls)) =>
          match requests url_String html_EscapeString url_Query sort_Sort fuel rs' fs' with
          | Some (Ret (fs'', out)) => Some (Ret (fs'', calls :: out))
          | other => other
          end
      | Some (Panic msg) => Some (Panic msg)
      | None => None
      end
  end.


(** The lines of a listing before and after those of the entries. *)
Definition listing_head (name : string) : list gzip_file_server.call :=
  [gzip_file_server.Header_Set "Content-Type" "text/html; charset=utf-8";
   gzip_file_server.Fprintf ("<pre>" +:+ gzip_file_server.newline);
   gzip_file_server.Fprintf
     ("<a href=" +:+ gzip_file_server.double_quote +:+ path.Clean (name +:+ "/..")
      +:+ gzip_file_server.double_quote +:+ ">..</a>" +:+ gzip_file_server.newline)].

Definition listing_tail : list gzip_file_server.call :=
  [gzip_file_server.Fprintf ("</pre>" +:+ gzip_file_server.newline)].

(** The header written for a request with [plain] in its query. *)
Definition plain_header (url_Query : string -> list string) (r : gzip_file_server.Request)
  : list gzip_file_server.call :=
  if bool_decide ("plain" ∈ url_Query (gzip_file_server.URL_RawQuery r))
  then [gzip_file_server.Header_Set "Content-Type" "text/plain"] else [].

(** The calls that serve the content of a file node through the handle
    [h] opened on it. *)
Definition content_calls (r : gzip_file_server.Request) (n : node) (h : handle)
  : list gzip_file_server.call :=
  match n with
  | NCompressed f =>
      if gzip_file_server.isGzipEncodingAccepted r then
        [gzip_file_server.Header_Set "Content-Encoding" "gzip";
         gzip_file_server.http_ServeContent (recorded_name n) (recorded_modTime n)
           (gzip_file_server.FromBytes (CompressedFileInfo.compressedContent f))]
      else
        [gzip_file_server.http_ServeContent (recorded_name n) (recorded_modTime n)
           (gzip_file_server.FromFile h)]
  | _ =>
      [gzip_file_server.http_ServeContent (recorded_name n) (recorded_modTime n)
         (gzip_file_server.FromFile h)]
  end.

(** * Properties *)

(** ** Integers *)

(** Linear arithmetic with the bounds of the 64-bit range unfolded. *)
Ltac int64_lia := unfold is_int64, int64_min, int64_max in *; lia.

Lemma wrap64_id (z : Z) : is_int64 z -> wrap64 z = z.
Proof.
  unfold is_int64, int64_min, int64_max, wrap64. intros Hz.
  rewrite Z.mod_small; lia.
Qed.

Lemma wrap64_range (z : Z) : is_int64 (wrap64 z).
Proof.
  unfold is_int64, int64_min, int64_max, wrap64.
  pose proof (Z.mod_pos_bound (z + 2 ^ 63) (2 ^ 64)). lia.
Qed.

Lemma len_nonneg {A : Type} (l : list A) : 0 <= len l.
Proof. unfold len. lia. Qed.

Lemma len_app {A : Type} (l k : list A) : len (l ++ k) = len l + len k.
Proof. unfold len. rewrite length_app. lia. Qed.

Lemma len_take_le {A : Type} (n : nat) (l : list A) : len (take n l) <= len l.
Proof. unfold len. rewrite length_take. lia. Qed.

Lemma len_drop {A : Type} (n : nat) (l : list A) :
  len (drop n l) = len l - Z.min (Z.of_nat n) (len l).
Proof. unfold len. rewrite length_drop. lia. Qed.

Lemma drop_past_take {A : Type} (data : list A) (s : Z) (p : nat) :
  0 <= s ->
  drop (Z.to_nat (s + len (take p (drop (Z.to_nat s) data)))) data
  = drop p (drop (Z.to_nat s) data).
Proof.
  intros Hs. pose proof (len_nonneg (take p (drop (Z.to_nat s) data))) as Hnn.
  rewrite Z2Nat.inj_add by lia. rewrite <- drop_drop.
  unfold len. rewrite Nat2Z.id, length_take.
  destruct (Nat.le_gt_cases p (length (drop (Z.to_nat s) data))) as [Hp|Hp].
  - by rewrite Nat.min_l.
  - rewrite Nat.min_r by lia. rewrite !drop_ge; [done | lia | lia].
Qed.

(** ** The run-length codec is a codec *)

Lemma rle_byte_of_nat (n : nat) : (n <= 255)%nat -> Byte.to_nat (rle.byte_of_nat n) = n.
Proof.
  intros Hn. unfold rle.byte_of_nat.
  destruct (Byte.of_nat n) as [b|] eqn:E.
  - by apply Byte.to_of_nat.
  - apply Byte.of_nat_None_iff in E. lia.
Qed.

Lemma rle_runs_bound (l : list byte) : Forall (fun r => (fst r <= 255)%nat) (rle.runs l).
Proof.
  induction l as [|b t IH]; simpl; [constructor|].
  destruct (rle.runs t) as [|[n b'] rest]; [repeat constructor; simpl; lia|].
  inversion IH as [|? ? Hn Hrest]; subst. simpl in Hn.
  destruct (Byte.eqb b b' && (n <? 255)%nat) eqn:E.
  - apply andb_prop in E as [_ E]. apply Nat.ltb_lt in E.
    constructor; [simpl; lia | done].
  - constructor; [simpl; lia|]. by constructor.
Qed.

Lemma rle_expand_runs (l : list byte) : rle_expand (rle.runs l) = l.
Proof.
  induction l as [|b t IH]; simpl; [done|].
  destruct (rle.runs t) as [|[n b'] rest]; simpl in *; [by rewrite <- IH|].
  destruct (Byte.eqb b b' && (n <? 255)%nat) eqn:E; simpl.
  - apply andb_prop in E as [E _]. apply Byte.byte_dec_bl in E. subst b'.
    by rewrite <- IH.
  - by rewrite <- IH.
Qed.

Lemma rle_parse_serialize (rs : list (nat * byte)) :
  Forall (fun r => (fst r <= 255)%nat) rs ->
  rle.parse (rle.serialize rs) = (rle_expand rs, EOF).
Proof.
  induction 1 as [|[n b] rs Hn _ IH]; [done|].
  cbn [rle.serialize flat_map app rle.parse]. fold (rle.serialize rs).
  rewrite IH. simpl in Hn. by rewrite rle_byte_of_nat.
Qed.

Lemma rle_decode_compress (x : list byte) :
  rle.decode (rle.compress x) = gzip.Stream x EOF.
Proof.
  unfold rle.compress, rle.magic. cbn [app rle.decode Byte.eqb andb].
  change (Byte.eqb x1f x1f && Byte.eqb x8b x8b) with true. cbv iota.
  rewrite rle_parse_serialize by apply rle_runs_bound.
  by rewrite rle_expand_runs.
Qed.

Definition rle_codec : gzip.Codec :=
  {| gzip.compress := rle.compress;
     gzip.decode := rle.decode;
     gzip.decode_compress := rle_decode_compress |}.

(** ** The lazy rewind / fast-forward protocol of [CompressedFile.Read] *)

Section LazyReadProofs.
Context `{C : gzip.Codec}.

Lemma gzip_Read_pending (z : gzip.Reader) (p : nat) :
  let '(z', out, _) := gzip.Read z p in
  gzip.pending z = out ++ gzip.pending z' /\ gzip.fin z' = gzip.fin z.
Proof.
  unfold gzip.Read. destruct (gzip.pending z) as [|b l] eqn:E.
  - by rewrite E.
  - cbn [gzip.pending gzip.fin]. by rewrite take_drop.
Qed.

Lemma gzip_Read_len (z : gzip.Reader) (p : nat) :
  len (gzip.Read z p).1.2 = Z.min (Z.of_nat p) (len (gzip.pending z)).
Proof.
  unfold gzip.Read, len. destruct (gzip.pending z) as [|b l] eqn:E; cbn [fst snd].
  - simpl. lia.
  - rewrite length_take. lia.
Qed.

Lemma start_of_decode (src data : list byte) (e : error) :
  gzip.decode src = gzip.Stream data e -> gzip.start src = (gzip.mkReader data e, None).
Proof. intros E. unfold gzip.start. by rewrite E. Qed.

(** The rewind phase on a well-formed handle never fails. *)
Lemma rewind_ok (f : CompressedFile.t) :
  handle_wf f ->
  exists f1,
    CompressedFile.rewind f = (f1, None) /\ after_rewind f f1 /\
    gzip.pending (CompressedFile.gr f1) = rewound_pending f /\
    gzip.fin (CompressedFile.gr f1) = rewound_fin f /\
    CompressedFile.grPos f1 = rewound_grPos f /\
    CompressedFile.seekPos f1 = CompressedFile.seekPos f /\
    CompressedFile.info f1 = CompressedFile.info f /\
    0 <= CompressedFile.grPos f1 /\
    CompressedFile.grPos f1 + len (gzip.pending (CompressedFile.gr f1)) <= int64_max.
Proof.
  intros (Hs & Hg & Hb & data & e & Hd & Hl).
  unfold CompressedFile.rewind, after_rewind, rewound_pending, rewound_fin, rewound_grPos,
    gzip.Reset.
  fold (payload f).
  destruct (CompressedFile.grPos f >? CompressedFile.seekPos f) eqn:E.
  - rewrite (start_of_decode _ _ _ Hd). eexists. split; [reflexivity|].
    cbn. unfold restarted. cbn. rewrite (start_of_decode _ _ _ Hd).
    repeat split; try done; lia.
  - exists f. repeat split; try done.
Qed.

(** The fast-forward phase when the decompressor has the bytes. *)
Lemma forward_ok (f1 : CompressedFile.t) :
  is_int64 (CompressedFile.seekPos f1) ->
  0 <= CompressedFile.grPos f1 ->
  CompressedFile.seekPos f1 - CompressedFile.grPos f1
    <= len (gzip.pending (CompressedFile.gr f1)) ->
  exists f2,
    CompressedFile.forward f1 = (f2, None) /\ after_forward f1 f2 /\
    CompressedFile.seekPos f2 = CompressedFile.seekPos f1 /\
    CompressedFile.info f2 = CompressedFile.info f1 /\
    CompressedFile.grPos f2 = Z.max (CompressedFile.grPos f1) (CompressedFile.seekPos f1) /\
    CompressedFile.grPos f2 + len (gzip.pending (CompressedFile.gr f2))
      = CompressedFile.grPos f1 + len (gzip.pending (CompressedFile.gr f1)).
Proof.
  intros Hs Hg Hd. unfold CompressedFile.forward, after_forward.
  destruct (CompressedFile.grPos f1 <? CompressedFile.seekPos f1) eqn:E.
  - apply Z.ltb_lt in E.
    rewrite wrap64_id by int64_lia.
    unfold io.CopyN_Discard.
    destruct (Z.leb_spec (CompressedFile.seekPos f1 - CompressedFile.grPos f1) 0); [lia|].
    destruct (Z.leb_spec (CompressedFile.seekPos f1 - CompressedFile.grPos f1)
                (len (gzip.pending (CompressedFile.gr f1)))); [|lia].
    eexists. split; [reflexivity|]. cbn. unfold discarded. cbn.
    repeat split; try done.
    + exists (take (Z.to_nat (CompressedFile.seekPos f1 - CompressedFile.grPos f1))
                (gzip.pending (CompressedFile.gr f1))).
      rewrite take_drop. split; [done|]. unfold len in *. rewrite length_take. lia.
    + lia.
    + rewrite len_drop. lia.
  - apply Z.ltb_ge in E. exists f1. repeat split; try done. lia.
Qed.

(** The fast-forward phase when the decompressor ends before the
    requested position: the error of the stream, and no byte. *)
Lemma forward_short (f1 : CompressedFile.t) :
  is_int64 (CompressedFile.seekPos f1) ->
  0 <= CompressedFile.grPos f1 ->
  len (gzip.pending (CompressedFile.gr f1))
    < CompressedFile.seekPos f1 - CompressedFile.grPos f1 ->
  CompressedFile.forward f1
  = (CompressedFile.set_gr (gzip.mkReader [] (gzip.fin (CompressedFile.gr f1))) f1,
     Some (gzip.fin (CompressedFile.gr f1))).
Proof.
  intros Hs Hg Hd. unfold CompressedFile.forward.
  pose proof (len_nonneg (gzip.pending (CompressedFile.gr f1))).
  destruct (Z.ltb_spec (CompressedFile.grPos f1) (CompressedFile.seekPos f1)); [|lia].
  rewrite wrap64_id by int64_lia.
  unfold io.CopyN_Discard.
  destruct (Z.leb_spec (CompressedFile.seekPos f1 - CompressedFile.grPos f1) 0); [lia|].
  destruct (Z.leb_spec (CompressedFile.seekPos f1 - CompressedFile.grPos f1)
              (len (gzip.pending (CompressedFile.gr f1)))); [lia|].
  reflexivity.
Qed.

(** The last phase: what [Read] returns once the stream is aligned. *)
Lemma Read_deliver (f f1 f2 : CompressedFile.t) (p : nat) :
  CompressedFile.rewind f = (f1, None) ->
  CompressedFile.forward f1 = (f2, None) ->
  0 <= CompressedFile.grPos f2 ->
  CompressedFile.grPos f2 + len (gzip.pending (CompressedFile.gr f2)) <= int64_max ->
  let '(g, out, err) := gzip.Read (CompressedFile.gr f2) p in
  CompressedFile.Read f p
  = (CompressedFile.mk (CompressedFile.info f2) g
       (CompressedFile.grPos f2 + len out) (CompressedFile.grPos f2 + len out),
     (out, err)).
Proof.
  intros Hr Hf Hg Hb. unfold CompressedFile.Read. rewrite Hr, Hf.
  pose proof (gzip_Read_len (CompressedFile.gr f2) p) as Hl.
  destruct (gzip.Read (CompressedFile.gr f2) p) as [[g out] err]. cbn [fst snd] in Hl.
  pose proof (len_nonneg out).
  rewrite wrap64_id by int64_lia.
  reflexivity.
Qed.

End LazyReadProofs.

Section LazyReadTheorems.
Context `{C : gzip.Codec}.

(** C1 (as amended). On every handle a program can hold, [Read] follows
    the lazy protocol whenever the requested position can be served (it
    is not negative and the decompressor, restarted if need be, has the
    bytes up to it): if
    [grPos > seekPos] the decompressor is restarted at the beginning of
    the payload and [grPos] is 0; if then [grPos < seekPos], exactly
    [seekPos - grPos] decompressed bytes are decoded and discarded and
    [grPos] is [seekPos]; then bytes are decoded into the buffer, both
    positions advance by their number, and they are returned with the
    error of the decompressor. When the decompressor ends before the
    requested position, [Read] returns no byte and the error on which
    the decompressor ended, and [seekPos] is unchanged. *)
Theorem Read_lazy_protocol (f : CompressedFile.t) (p : nat) :
  handle_wf f ->
  (reachable f -> lazy_protocol f p) /\
  (len (rewound_pending f) < CompressedFile.seekPos f - rewound_grPos f ->
   (CompressedFile.Read f p).2 = ([], Some (rewound_fin f)) /\
   CompressedFile.seekPos (CompressedFile.Read f p).1 = CompressedFile.seekPos f).
Proof.
  intros Hwf. pose proof Hwf as (Hs & _).
  destruct (rewind_ok f Hwf) as (f1 & Hr & Har & Hp1 & Hfin1 & Hg1 & Hs1 & Hi1 & Hg1' & Hb1).
  split.
  - intros [Hnn Hreach]. rewrite <- Hp1, <- Hg1, <- Hs1 in Hreach.
    destruct (forward_ok f1) as (f2 & Hf & Haf & Hs2 & Hi2 & Hg2 & Hb2);
      [by rewrite Hs1 | done | done |].
    exists f1, f2. split; [done|]. split; [done|].
    assert (CompressedFile.grPos f2 = CompressedFile.seekPos f2) as Heq.
    { rewrite Hg2, Hs2, Hs1, Hg1. unfold rewound_grPos.
      destruct (Z.gtb_spec (CompressedFile.grPos f) (CompressedFile.seekPos f)); lia. }
    pose proof (Read_deliver f f1 f2 p Hr Hf) as Hd.
    unfold delivered.
    destruct (gzip.Read (CompressedFile.gr f2) p) as [[g out] err].
    rewrite Hd by lia. cbn. rewrite Heq. done.
  - intros Hshort. rewrite <- Hp1, <- Hg1, <- Hs1 in Hshort. rewrite <- Hfin1.
    unfold CompressedFile.Read. rewrite Hr.
    rewrite forward_short; [| by rewrite Hs1 | done | done ].
    cbn. done.
Qed.

End LazyReadTheorems.

(** C1 at the ten letters with [Seek(5)] pending and a buffer of three
    bytes. *)
Lemma Read_lazy_protocol_witness :
  handle_wf (C := rle_codec) letters_at_5 /\
  reachable (C := rle_codec) letters_at_5 /\
  lazy_protocol (C := rle_codec) letters_at_5 3.
Proof.
  assert (handle_wf (C := rle_codec) letters_at_5) as Hwf.
  { unfold handle_wf.
    split; [vm_compute; split; discriminate|].
    split; [vm_compute; discriminate|].
    split; [vm_compute; discriminate|].
    exists letters, EOF. split; [apply rle_decode_compress | vm_compute; discriminate]. }
  assert (reachable (C := rle_codec) letters_at_5) as Hreach.
  { unfold reachable. vm_compute. split; discriminate. }
  split; [exact Hwf|]. split; [exact Hreach|].
  exact (proj1 (Read_lazy_protocol (C := rle_codec) letters_at_5 3 Hwf) Hreach).
Defined.

Example Read_letters_at_5 :
  CompressedFile.Read (H := rle_codec) letters_at_5 3
  = (CompressedFile.mk letters_info (gzip.mkReader (list_byte_of_string "IJ") EOF) 8 8,
     (list_byte_of_string "FGH", None)).
Proof. reflexivity. Qed.

(** C1 as stated fails past the end of the content: ten bytes are
    decoded and discarded, not the hundred that separate the two
    positions, and [grPos] does not reach [seekPos]. It also fails at a
    negative requested position: the decompressor is restarted, three
    bytes are produced, and [seekPos] moves from -5 to 3. *)
Lemma lazy_protocol_fails_past_end :
  ~ lazy_protocol (C := rle_codec) letters_past_end 3 /\
  ~ lazy_protocol (C := rle_codec) letters_negative 3.
Proof.
  split.
  - intros (f1 & f2 & Hr & Hf & _).
    unfold after_rewind in Hr. cbn in Hr. subst f1.
    unfold after_forward in Hf. cbn in Hf.
    destruct Hf as ((skipped & Hsplit & Hlen) & _).
    cbn in Hsplit. apply (f_equal len) in Hsplit.
    rewrite len_app in Hsplit. pose proof (len_nonneg (gzip.pending (CompressedFile.gr f2))).
    unfold len at 1 in Hsplit. cbn [length] in Hsplit. lia.
  - intros (f1 & f2 & Hr & Hf & Hd).
    unfold after_rewind in Hr. cbn in Hr. destruct Hr as (_ & Hg1 & Hs1 & _).
    unfold after_forward in Hf. rewrite Hg1, Hs1 in Hf. cbn in Hf. subst f2.
    assert (CompressedFile.Read (H := rle_codec) letters_negative 3
            = (CompressedFile.mk letters_info
                 (gzip.mkReader (list_byte_of_string "DEFGHIJ") EOF) 3 3,
               (list_byte_of_string "ABC", None))) as E by reflexivity.
    rewrite E in Hd. destruct Hd as (_ & _ & Hs3 & _).
    rewrite Hs1 in Hs3. vm_compute in Hs3. discriminate.
Qed.

Example Read_letters_past_end :
  CompressedFile.Read (H := rle_codec) letters_past_end 3
  = (CompressedFile.mk letters_info (gzip.mkReader [] EOF) 0 100, ([], Some EOF)).
Proof. reflexivity. Qed.

(** ** [CompressedFile.Seek] *)

Lemma Seek_standard (f : CompressedFile.t) (offset whence : Z) :
  standard_whence whence = true ->
  CompressedFile.Seek f offset whence
  = Ret (CompressedFile.set_seekPos (wrap64 (seek_base f whence + offset)) f,
         (wrap64 (seek_base f whence + offset), None)).
Proof.
  unfold standard_whence, CompressedFile.Seek, seek_base. intros Hw.
  destruct (whence =? io.SeekStart); [done|].
  destruct (whence =? io.SeekCurrent); [done|].
  destruct (whence =? io.SeekEnd); [done|]. discriminate.
Qed.

Lemma Seek_other (f : CompressedFile.t) (offset whence : Z) :
  standard_whence whence = false ->
  CompressedFile.Seek f offset whence = Panic "invalid whence value".
Proof.
  unfold standard_whence, CompressedFile.Seek. intros Hw.
  destruct (whence =? io.SeekStart); [discriminate|].
  destruct (whence =? io.SeekCurrent); [discriminate|].
  destruct (whence =? io.SeekEnd); [discriminate|]. done.
Qed.

(** C4. [Seek] with a standard whence only writes [seekPos]: the new
    position is the offset counted from the start, from the current
    requested position or from the uncompressed size, it is returned with
    no error, and the decompressor [gr], its position [grPos] and the
    static definition with the compressed payload are those of before. *)
Theorem Seek_only_moves_seekPos (f : CompressedFile.t) (offset : Z) :
  CompressedFile.Seek f offset io.SeekStart
  = Ret (CompressedFile.mk (CompressedFile.info f) (CompressedFile.gr f)
           (CompressedFile.grPos f) (wrap64 (0 + offset)),
         (wrap64 (0 + offset), None)) /\
  CompressedFile.Seek f offset io.SeekCurrent
  = Ret (CompressedFile.mk (CompressedFile.info f) (CompressedFile.gr f)
           (CompressedFile.grPos f) (wrap64 (CompressedFile.seekPos f + offset)),
         (wrap64 (CompressedFile.seekPos f + offset), None)) /\
  CompressedFile.Seek f offset io.SeekEnd
  = Ret (CompressedFile.mk (CompressedFile.info f) (CompressedFile.gr f)
           (CompressedFile.grPos f)
           (wrap64 (CompressedFileInfo.uncompressedSize (CompressedFile.info f) + offset)),
         (wrap64 (CompressedFileInfo.uncompressedSize (CompressedFile.info f) + offset), None)) /\
  (forall whence f' r,
      CompressedFile.Seek f offset whence = Ret (f', r) ->
      CompressedFile.gr f' = CompressedFile.gr f /\
      CompressedFile.grPos f' = CompressedFile.grPos f /\
      CompressedFile.info f' = CompressedFile.info f /\
      r = (CompressedFile.seekPos f', None)).
Proof.
  repeat split; try reflexivity;
    destruct (standard_whence whence) eqn:E;
    first [ rewrite (Seek_standard _ _ _ E) in H; injection H as <- <-; reflexivity
          | rewrite (Seek_other _ _ _ E) in H; discriminate ].
Qed.

(** Within the 64-bit range the new position is the exact sum. *)
Lemma Seek_exact (f : CompressedFile.t) (offset whence : Z) :
  standard_whence whence = true ->
  is_int64 (seek_base f whence + offset) ->
  CompressedFile.Seek f offset whence
  = Ret (CompressedFile.set_seekPos (seek_base f whence + offset) f,
         (seek_base f whence + offset, None)).
Proof. intros Hw Hr. rewrite (Seek_standard _ _ _ Hw). by rewrite (wrap64_id _ Hr). Qed.

Example Seek_negative :
  CompressedFile.Seek letters_fresh (-5) io.SeekStart
  = Ret (CompressedFile.mk letters_info (gzip.mkReader letters EOF) 0 (-5), (-5, None)).
Proof. reflexivity. Qed.

Example Seek_past_end :
  CompressedFile.Seek letters_fresh 90 io.SeekEnd = Ret (letters_past_end, (100, None)).
Proof. reflexivity. Qed.

Example Seek_wraps :
  CompressedFile.Seek letters_at_5 int64_max io.SeekCurrent
  = Ret (CompressedFile.mk letters_info (gzip.mkReader letters EOF) 0 (int64_min + 4),
         (int64_min + 4, None)).
Proof. reflexivity. Qed.

Example Seek_whence_3 :
  CompressedFile.Seek letters_fresh 0 3 = Panic "invalid whence value".
Proof. reflexivity. Qed.

(** ** Random access over the decompressed content *)

Section RandomAccess.
Context `{C : gzip.Codec}.

Lemma synced_wf (data : list byte) (f : CompressedFile.t) :
  synced data f -> is_int64 (CompressedFile.seekPos f) -> handle_wf f.
Proof.
  intros (Hd & Hl & Hg & Hr) Hs. unfold handle_wf. rewrite Hr. cbn.
  split; [done|]. split; [lia|]. split; [rewrite len_drop; lia | eauto].
Qed.

Lemma rewind_synced (data : list byte) (f : CompressedFile.t) :
  synced data f ->
  exists f1,
    CompressedFile.rewind f = (f1, None) /\ synced data f1 /\
    CompressedFile.seekPos f1 = CompressedFile.seekPos f /\
    CompressedFile.info f1 = CompressedFile.info f /\
    (0 <= CompressedFile.seekPos f -> CompressedFile.grPos f1 <= CompressedFile.seekPos f) /\
    (CompressedFile.seekPos f < 0 -> CompressedFile.grPos f1 = 0).
Proof.
  intros (Hd & Hl & Hg & Hr). unfold CompressedFile.rewind, gzip.Reset. fold (payload f).
  rewrite (start_of_decode _ _ _ Hd).
  destruct (Z.gtb_spec (CompressedFile.grPos f) (CompressedFile.seekPos f)).
  - eexists. split; [reflexivity|]. unfold synced, payload. cbn.
    pose proof (len_nonneg data). repeat split; try done; lia.
  - exists f. unfold synced. repeat split; try done; lia.
Qed.

Lemma forward_synced (data : list byte) (f1 : CompressedFile.t) :
  synced data f1 ->
  CompressedFile.seekPos f1 <= len data ->
  exists f2,
    CompressedFile.forward f1 = (f2, None) /\ synced data f2 /\
    CompressedFile.seekPos f2 = CompressedFile.seekPos f1 /\
    CompressedFile.info f2 = CompressedFile.info f1 /\
    CompressedFile.grPos f2 = Z.max (CompressedFile.grPos f1) (CompressedFile.seekPos f1).
Proof.
  intros (Hd & Hl & Hg & Hr) Hs. unfold CompressedFile.forward.
  destruct (Z.ltb_spec (CompressedFile.grPos f1) (CompressedFile.seekPos f1)).
  - rewrite wrap64_id by int64_lia.
    unfold io.CopyN_Discard. rewrite Hr. cbn [gzip.pending gzip.fin].
    destruct (Z.leb_spec (CompressedFile.seekPos f1 - CompressedFile.grPos f1) 0); [lia|].
    rewrite len_drop.
    destruct (Z.leb_spec (CompressedFile.seekPos f1 - CompressedFile.grPos f1)
                (len data - Z.min (Z.of_nat (Z.to_nat (CompressedFile.grPos f1))) (len data)));
      [|lia].
    eexists. split; [reflexivity|]. unfold synced, payload. cbn.
    repeat split; try done; try lia.
    rewrite drop_drop. do 2 f_equal. lia.
  - exists f1. unfold synced. repeat split; try done; lia.
Qed.

(** What [Read] returns on a synced handle whose requested position lies
    within the content: the bytes of the content from that position, at
    most as many as the buffer holds; end-of-stream exactly at the end of
    the content. The handle stays synced and both positions have
    advanced by the number of bytes returned. *)
Lemma Read_at (data : list byte) (f : CompressedFile.t) (p : nat) :
  synced data f ->
  0 <= CompressedFile.seekPos f <= len data ->
  let out := take p (drop (Z.to_nat (CompressedFile.seekPos f)) data) in
  let f' := CompressedFile.mk (CompressedFile.info f)
              (gzip.mkReader (drop (Z.to_nat (CompressedFile.seekPos f + len out)) data) EOF)
              (CompressedFile.seekPos f + len out) (CompressedFile.seekPos f + len out) in
  CompressedFile.Read f p
  = (f', (out, if CompressedFile.seekPos f =? len data then Some EOF else None)) /\
  synced data f'.
Proof.
  intros Hsy Hs.
  destruct (rewind_synced data f Hsy) as (f1 & Hr & Hsy1 & Hs1 & Hi1 & Hle & _).
  destruct (forward_synced data f1 Hsy1) as (f2 & Hf & Hsy2 & Hs2 & Hi2 & Hg2); [lia|].
  assert (CompressedFile.grPos f2 = CompressedFile.seekPos f) as Hpos by lia.
  pose proof Hsy2 as (Hd & Hl & Hg & Hgr).
  pose proof (Read_deliver f f1 f2 p Hr Hf) as Hdel.
  rewrite Hgr in Hdel. cbn [gzip.pending] in Hdel. rewrite len_drop in Hdel.
  rewrite Hpos in *. specialize (Hdel ltac:(lia) ltac:(lia)).
  unfold gzip.Read in Hdel. cbn [gzip.pending gzip.fin] in Hdel.
  remember (drop (Z.to_nat (CompressedFile.seekPos f)) data) as rest eqn:Erest.
  assert (len rest = len data - CompressedFile.seekPos f) as Hrest.
  { rewrite Erest, len_drop. lia. }
  assert (drop (Z.to_nat (CompressedFile.seekPos f + len (take p rest))) data
          = drop p rest) as Hdrop.
  { rewrite Erest. apply drop_past_take. lia. }
  destruct Hsy as (Hd0 & _).
  cbv zeta. rewrite Hdrop.
  assert (synced data
            (CompressedFile.mk (CompressedFile.info f) (gzip.mkReader (drop p rest) EOF)
               (CompressedFile.seekPos f + len (take p rest))
               (CompressedFile.seekPos f + len (take p rest)))) as Hsy'.
  { unfold synced, payload. cbn. fold (payload f). rewrite Hdrop.
    pose proof (len_take_le p rest). pose proof (len_nonneg (take p rest)).
    repeat split; try done; lia. }
  split; [|done].
  destruct (Z.eqb_spec (CompressedFile.seekPos f) (len data)) as [Hend|Hmid].
  - assert (rest = []) as ->.
    { destruct rest; [done|]. clear -Hrest Hend. unfold len in *. simpl in Hrest. lia. }
    rewrite Hdel. rewrite drop_nil, take_nil. by rewrite Hi2, Hi1.
  - destruct rest as [|b rest'].
    { clear -Hrest Hmid Hs. unfold len in *. simpl in Hrest. lia. }
    rewrite Hdel. by rewrite Hi2, Hi1.
Qed.

End RandomAccess.

Section ReadToEnd.
Context `{C : gzip.Codec}.

(** Reading on from the requested position with a buffer that is not
    empty returns the rest of the content, within as many calls as bytes
    remain plus one. *)
Lemma ReadAll_from (data : list byte) (p fuel : nat) :
  (0 < p)%nat ->
  forall (f : CompressedFile.t) (acc : list byte),
    synced data f ->
    0 <= CompressedFile.seekPos f <= len data ->
    len data - CompressedFile.seekPos f < Z.of_nat fuel ->
    ReadAll fuel f p acc
    = Some (at_end data f, acc ++ drop (Z.to_nat (CompressedFile.seekPos f)) data, None).
Proof.
  intros Hp. induction fuel as [|fuel IH]; intros f acc Hsy Hs Hfuel; [lia|].
  destruct (Read_at data f p Hsy Hs) as [Hread Hsy'].
  cbv zeta in Hread, Hsy'. cbn [ReadAll]. rewrite Hread.
  set (rest := drop (Z.to_nat (CompressedFile.seekPos f)) data) in *.
  assert (len rest = len data - CompressedFile.seekPos f) as Hrest.
  { unfold rest. rewrite len_drop. lia. }
  destruct (Z.eqb_spec (CompressedFile.seekPos f) (len data)) as [Hend|Hmid].
  - assert (rest = []) as Hnil.
    { apply length_zero_iff_nil. unfold len in *. lia. }
    rewrite Hnil, take_nil. change (len (@nil byte)) with 0.
    rewrite Z.add_0_r. rewrite decide_True by done. fold rest. rewrite Hnil.
    unfold at_end. by rewrite <- Hend.
  - rewrite IH; [| done | |].
    + cbn [CompressedFile.seekPos]. unfold at_end. cbn [CompressedFile.info].
      do 3 f_equal. rewrite <- app_assoc. f_equal.
      unfold rest. rewrite drop_past_take by lia. apply take_drop.
    + cbn [CompressedFile.seekPos].
      pose proof (len_take_le p rest). pose proof (len_nonneg (take p rest)). lia.
    + cbn [CompressedFile.seekPos].
      assert (0 < len (take p rest)); [|lia].
      clear -Hrest Hmid Hs Hp. unfold len in *. rewrite length_take. lia.
Qed.

(** [Open] on a compressed node whose payload decodes. *)
Lemma Open_compressed (fs : FS.t) (name : string) (f : CompressedFileInfo.t)
    (data : list byte) (e : error) :
  fs !! path.Clean ("/" +:+ name) = Some (NCompressed f) ->
  gzip.decode (CompressedFileInfo.compressedContent f) = gzip.Stream data e ->
  FS.Open fs name = Ret (inl (HCompressed (CompressedFile.mk f (gzip.mkReader data e) 0 0))).
Proof.
  intros Hl Hd. unfold FS.Open. rewrite Hl. unfold gzip.NewReader.
  by rewrite (start_of_decode _ _ _ Hd).
Qed.

Lemma fresh_synced (f : CompressedFileInfo.t) (data : list byte) :
  gzip.decode (CompressedFileInfo.compressedContent f) = gzip.Stream data EOF ->
  len data <= int64_max ->
  synced data (CompressedFile.mk f (gzip.mkReader data EOF) 0 0).
Proof.
  intros Hd Hl. unfold synced, payload. cbn. pose proof (len_nonneg data).
  repeat split; try done; lia.
Qed.

End ReadToEnd.

(** ** The packer: which representation [walkFn] writes for a file *)

Lemma Truncate_marker (buf rest : Buffer) : Truncate (len buf) (buf ++ rest) = buf.
Proof.
  unfold Truncate, len. rewrite Nat2Z.id. by rewrite take_app_length.
Qed.

Section Packer.
Context `{C : gzip.Codec}.

Lemma writeCompressedFileInfo_readable (w : Buffer) (file : fileInfo.t)
    (name : string) (mt : Time) (size : Z) (data : list byte) (serr : option string) :
  writeCompressedFileInfo w file (VFile name mt size data None serr)
  = if len (gzip.compress data) >=? fileInfo.UncompressedSize file
    then (w ++ [CompressedFileInfo_Before file] ++ map Escaped (gzip.compress data),
          Some errCompressedNotSmaller)
    else (w ++ compressed_literal file (gzip.compress data), None).
Proof.
  unfold writeCompressedFileInfo, compressed_literal. cbn.
  rewrite Z.add_0_l.
  destruct (len (gzip.compress data) >=? fileInfo.UncompressedSize file);
    by rewrite <- ?app_assoc.
Qed.

Lemma writeFileInfo_readable (w : Buffer) (file : fileInfo.t)
    (name : string) (mt : Time) (size : Z) (data : list byte) (serr : option string) :
  writeFileInfo w file (VFile name mt size data None serr)
  = (w ++ stored_literal file data, None).
Proof.
  unfold writeFileInfo, stored_literal. cbn. by rewrite <- !app_assoc.
Qed.

(** The compressed payload is strictly shorter than the recorded size:
    the compressed literal is written. *)
Lemma walkFn_file_smaller (path name : string) (mt : Time) (size : Z) (data : list byte)
    (serr : option string) (buf : Buffer) (tc : toc.t) :
  len (gzip.compress data) < size ->
  walkFn path (VFile name mt size data None serr) None (buf, tc)
  = ((buf ++ compressed_literal (fileInfo.mk path (path.Base path) mt size) (gzip.compress data),
      toc.mk (toc.dirs tc) true (toc.HasFile tc)), None).
Proof.
  intros Hlt. unfold walkFn. cbn [is_dir mtime_of size_of UTC].
  rewrite writeCompressedFileInfo_readable. cbn [fileInfo.UncompressedSize].
  destruct (Z.geb_spec (len (gzip.compress data)) size); [lia|]. done.
Qed.

(** The compressed payload is not shorter: what was written is cut off
    at the marker and the stored literal is written with the content. *)
Lemma walkFn_file_not_smaller (path name : string) (mt : Time) (size : Z) (data : list byte)
    (buf : Buffer) (tc : toc.t) :
  size <= len (gzip.compress data) ->
  walkFn path (VFile name mt size data None None) None (buf, tc)
  = ((buf ++ stored_literal (fileInfo.mk path (path.Base path) mt size) data,
      toc.mk (toc.dirs tc) (toc.HasCompressedFile tc) true), None).
Proof.
  intros Hge. unfold walkFn. cbn [is_dir mtime_of size_of UTC].
  rewrite writeCompressedFileInfo_readable. cbn [fileInfo.UncompressedSize].
  destruct (Z.geb_spec (len (gzip.compress data)) size); [|lia].
  rewrite decide_True by done. cbn [vfsutil.seek_start].
  rewrite Truncate_marker. by rewrite writeFileInfo_readable.
Qed.

End Packer.

(** ** Loading the literals *)

Lemma load_escaped_compressed (fs : FS.t) (file : fileInfo.t) (bs more : list byte) :
  foldl artifact.step (Some (fs, artifact.InCompressed file bs)) (map Escaped more)
  = Some (fs, artifact.InCompressed file (bs ++ more)).
Proof.
  revert bs. induction more as [|b more IH]; intros bs; cbn.
  - by rewrite app_nil_r.
  - rewrite IH. by rewrite <- app_assoc.
Qed.

Lemma load_escaped_stored (fs : FS.t) (file : fileInfo.t) (bs more : list byte) :
  foldl artifact.step (Some (fs, artifact.InFile file bs)) (map Escaped more)
  = Some (fs, artifact.InFile file (bs ++ more)).
Proof.
  revert bs. induction more as [|b more IH]; intros bs; cbn.
  - by rewrite app_nil_r.
  - rewrite IH. by rewrite <- app_assoc.
Qed.

Lemma load_compressed_literal (fs : FS.t) (file : fileInfo.t) (bs : list byte) :
  fs !! fileInfo.Path file = None ->
  artifact.load_from fs (compressed_literal file bs)
  = Some (<[fileInfo.Path file :=
              NCompressed (CompressedFileInfo.mk (fileInfo.Name file) (fileInfo.ModTime file)
                             bs (fileInfo.UncompressedSize file))]> fs,
          artifact.NoLiteral).
Proof.
  intros Hfree. unfold artifact.load_from, compressed_literal.
  rewrite !foldl_app. cbn [foldl artifact.step app].
  rewrite load_escaped_compressed. cbn. unfold artifact.add. by rewrite Hfree.
Qed.

Lemma load_stored_literal (fs : FS.t) (file : fileInfo.t) (bs : list byte) :
  fs !! fileInfo.Path file = None ->
  artifact.load_from fs (stored_literal file bs)
  = Some (<[fileInfo.Path file :=
              NFile (FileInfo.mk (fileInfo.Name file) (fileInfo.ModTime file) bs)]> fs,
          artifact.NoLiteral).
Proof.
  intros Hfree. unfold artifact.load_from, stored_literal.
  rewrite !foldl_app. cbn [foldl artifact.step app].
  rewrite load_escaped_stored. cbn. unfold artifact.add. by rewrite Hfree.
Qed.

(** ** Seek, then read *)

Section SeekThenRead.
Context `{C : gzip.Codec}.


(** A requested position past the end of the content: the next [Read]
    returns no byte and end-of-stream. *)
Lemma Read_past_end (data : list byte) (f : CompressedFile.t) (p : nat) :
  synced data f ->
  is_int64 (CompressedFile.seekPos f) ->
  len data < CompressedFile.seekPos f ->
  (CompressedFile.Read f p).2 = ([], Some EOF).
Proof.
  intros Hsy Hs Hpast. pose proof Hsy as (Hd & Hl & Hg & Hgr).
  unfold CompressedFile.Read, CompressedFile.rewind.
  destruct (Z.gtb_spec (CompressedFile.grPos f) (CompressedFile.seekPos f)); [lia|].
  rewrite forward_short; [by rewrite Hgr | done | lia |].
  rewrite Hgr. cbn [gzip.pending]. rewrite len_drop. lia.
Qed.

(** The round trip on the ten letters: [Seek(5, start)], [Read] into
    three bytes, [Seek(2, start)], [Read] into two bytes. *)
Lemma letters_round_trip (f : CompressedFileInfo.t) :
  CompressedFileInfo.compressedContent f = gzip.compress letters ->
  let h0 := CompressedFile.mk f (gzip.mkReader letters EOF) 0 0 in
  exists h1 h2 h3 h4,
    CompressedFile.Seek h0 5 io.SeekStart = Ret (h1, (5, None)) /\
    CompressedFile.Read h1 3 = (h2, (list_byte_of_string "FGH", None)) /\
    CompressedFile.Seek h2 2 io.SeekStart = Ret (h3, (2, None)) /\
    CompressedFile.Read h3 2 = (h4, (list_byte_of_string "CD", None)).
Proof.
  intros Hc h0.
  assert (synced letters h0) as Hsy0.
  { apply fresh_synced; [rewrite Hc; apply gzip.decode_compress | vm_compute; discriminate]. }
  eexists _, _, _, _. split; [reflexivity|].
  destruct (Read_at letters (CompressedFile.set_seekPos 5 h0) 3) as [Hr1 Hsy1];
    [done | vm_compute; split; discriminate |].
  cbv zeta in Hr1, Hsy1. split; [exact Hr1|]. split; [reflexivity|].
  match type of Hsy1 with synced _ ?h =>
    destruct (Read_at letters (CompressedFile.set_seekPos 2 h) 2) as [Hr2 _];
      [done | vm_compute; split; discriminate |]
  end.
  exact Hr2.
Qed.

End SeekThenRead.

Section FileTheorems.
Context `{C : gzip.Codec}.

(** C2. A file that the generator stores compressed: the literal
    written for it holds exactly the gzip compression of its content; the
    node loaded from it, opened, returns that payload from [GzipBytes()];
    reading the handle from offset 0 to the end returns the content; and
    on a compressed node of the ten letters ["ABCDEFGHIJ"],
    [Seek(5, start)] then [Read] into three bytes yields ["FGH"], and
    [Seek(2, start)] then [Read] into two bytes yields ["CD"]. *)
Theorem compressed_file_round_trip
    (path name : string) (mt : Time) (size : Z) (data : list byte) (serr : option string)
    (buf : Buffer) (tc : toc.t) (fs : FS.t) (req : string) (p fuel : nat) :
  len (gzip.compress data) < size ->
  len data <= int64_max ->
  fs !! path = None ->
  path.Clean ("/" +:+ req) = path ->
  (0 < p)%nat ->
  len data < Z.of_nat fuel ->
  let file := fileInfo.mk path (path.Base path) mt size in
  let lit := compressed_literal file (gzip.compress data) in
  let cfi := CompressedFileInfo.mk (path.Base path) mt (gzip.compress data) size in
  let fs' := <[path := NCompressed cfi]> fs in
  let h := CompressedFile.mk cfi (gzip.mkReader data EOF) 0 0 in
  (walkFn path (VFile name mt size data None serr) None (buf, tc)).1.1 = buf ++ lit /\
  artifact.load_from fs lit = Some (fs', artifact.NoLiteral) /\
  FS.Open fs' req = Ret (inl (HCompressed h)) /\
  GzipBytes (HCompressed h) = Some (gzip.compress data) /\
  ReadAll fuel h p [] = Some (at_end data h, data, None) /\
  forall f : CompressedFileInfo.t,
    CompressedFileInfo.compressedContent f = gzip.compress letters ->
    let h0 := CompressedFile.mk f (gzip.mkReader letters EOF) 0 0 in
    exists h1 h2 h3 h4,
      CompressedFile.Seek h0 5 io.SeekStart = Ret (h1, (5, None)) /\
      CompressedFile.Read h1 3 = (h2, (list_byte_of_string "FGH", None)) /\
      CompressedFile.Seek h2 2 io.SeekStart = Ret (h3, (2, None)) /\
      CompressedFile.Read h3 2 = (h4, (list_byte_of_string "CD", None)).
Proof.
  intros Hlt Hl Hfree Hreq Hp Hfuel file lit cfi fs' h.
  split. { by rewrite walkFn_file_smaller. }
  split. { by apply (load_compressed_literal fs file). }
  split.
  { apply Open_compressed with (f := cfi).
    - rewrite Hreq. apply lookup_insert_eq.
    - apply gzip.decode_compress. }
  split; [done|].
  split.
  { rewrite (ReadAll_from data p fuel Hp h []); [done | | |].
    - apply fresh_synced; [apply gzip.decode_compress | done].
    - cbn. pose proof (len_nonneg data). lia.
    - cbn. lia. }
  apply letters_round_trip.
Qed.

(** C3. For a file that the input lets the generator read, the
    compressed literal is written exactly when the gzip-compressed length
    is strictly smaller than the uncompressed length that [Stat]
    reported. In that case the table holds a compressed node with the
    payload; otherwise the output is cut back to the marker and the
    stored literal holds the content verbatim, the table holds a stored
    node, and the handle that [Open] returns for it has no [GzipBytes]. *)
Theorem packer_choice
    (path name : string) (mt : Time) (size : Z) (data : list byte)
    (buf : Buffer) (tc : toc.t) (fs : FS.t) (req : string) :
  fs !! path = None ->
  path.Clean ("/" +:+ req) = path ->
  let n := VFile name mt size data None None in
  let file := fileInfo.mk path (path.Base path) mt size in
  let stored := FileInfo.mk (path.Base path) mt data in
  (len (gzip.compress data) < size <->
   (walkFn path n None (buf, tc)).1.1 = buf ++ compressed_literal file (gzip.compress data)) /\
  (len (gzip.compress data) < size ->
   walkFn path n None (buf, tc)
   = ((buf ++ compressed_literal file (gzip.compress data),
       toc.mk (toc.dirs tc) true (toc.HasFile tc)), None) /\
   artifact.load_from fs (compressed_literal file (gzip.compress data))
   = Some (<[path := NCompressed (CompressedFileInfo.mk (path.Base path) mt
                                    (gzip.compress data) size)]> fs,
           artifact.NoLiteral)) /\
  (size <= len (gzip.compress data) ->
   walkFn path n None (buf, tc)
   = ((buf ++ stored_literal file data,
       toc.mk (toc.dirs tc) (toc.HasCompressedFile tc) true), None) /\
   artifact.load_from fs (stored_literal file data)
   = Some (<[path := NFile stored]> fs, artifact.NoLiteral) /\
   FS.Open (<[path := NFile stored]> fs) req
   = Ret (inl (HFile (File.mk stored (bytes.NewReader data)))) /\
   GzipBytes (HFile (File.mk stored (bytes.NewReader data))) = None).
Proof.
  intros Hfree Hreq n file stored. split; [split|split].
  - intros Hlt. unfold n. by rewrite walkFn_file_smaller.
  - intros Hw. destruct (Z.lt_ge_cases (len (gzip.compress data)) size) as [|Hge]; [done|].
    unfold n in Hw. rewrite walkFn_file_not_smaller in Hw by done.
    cbn [fst] in Hw. apply app_inv_head in Hw. discriminate.
  - intros Hlt. split; [by apply walkFn_file_smaller|].
    by apply (load_compressed_literal fs file).
  - intros Hge. split; [by apply walkFn_file_not_smaller|].
    split; [by apply (load_stored_literal fs file)|].
    split; [|done].
    unfold FS.Open. rewrite Hreq. by rewrite lookup_insert_eq.
Qed.

(** C10. [Seek] with one of the three standard whence values returns
    the computed position with no error, whatever that position is, and
    the panic is reached exactly for the other whence values. A position
    past the end of the content shows at the next [Read], which returns
    end-of-stream. *)
Theorem Seek_succeeds_on_standard_whence (f : CompressedFile.t) (offset whence : Z) :
  match CompressedFile.Seek f offset whence with
  | Ret (f', (pos, err)) =>
      standard_whence whence = true /\ err = None /\
      pos = wrap64 (seek_base f whence + offset) /\ CompressedFile.seekPos f' = pos
  | Panic _ => standard_whence whence = false
  end /\
  (standard_whence whence = true ->
   forall (data : list byte) (p : nat),
     synced data f ->
     len data < wrap64 (seek_base f whence + offset) ->
     exists f',
       CompressedFile.Seek f offset whence
       = Ret (f', (wrap64 (seek_base f whence + offset), None)) /\
       (CompressedFile.Read f' p).2 = ([], Some EOF)).
Proof.
  split.
  - destruct (standard_whence whence) eqn:E.
    + by rewrite (Seek_standard _ _ _ E).
    + by rewrite (Seek_other _ _ _ E).
  - intros E data p Hsy Hpast. rewrite (Seek_standard _ _ _ E).
    eexists. split; [reflexivity|].
    apply (Read_past_end data); [done | apply wrap64_range | done].
Qed.

End FileTheorems.

(** C2 at the file of ten equal bytes, read with a buffer of four
    bytes. *)
Lemma compressed_file_round_trip_witness :
  (len (rle.compress ten_As) < 10 /\ len ten_As <= int64_max /\
   (∅ : FS.t) !! "/a.txt" = None /\ path.Clean ("/" +:+ "a.txt") = "/a.txt" /\
   (0 < 4)%nat /\ len ten_As < Z.of_nat 11) /\
  (walkFn (H := rle_codec) "/a.txt" (VFile "a.txt" 0 10 ten_As None None) None
     ([], toc.zero)).1.1
  = compressed_literal (fileInfo.mk "/a.txt" "a.txt" 0 10) (rle.compress ten_As) /\
  FS.Open (H := rle_codec) (<["/a.txt" := NCompressed ten_As_info]> ∅) "a.txt"
  = Ret (inl (HCompressed ten_As_handle)) /\
  GzipBytes (HCompressed ten_As_handle) = Some (rle.compress ten_As) /\
  ReadAll (H := rle_codec) 11 ten_As_handle 4 []
  = Some (at_end ten_As ten_As_handle, ten_As, None).
Proof.
  assert (len (rle.compress ten_As) < 10) as H1 by (vm_compute; reflexivity).
  assert (len ten_As <= int64_max) as H2 by (vm_compute; discriminate).
  assert ((∅ : FS.t) !! "/a.txt" = None) as H3 by apply lookup_empty.
  assert (path.Clean ("/" +:+ "a.txt") = "/a.txt") as H4 by reflexivity.
  assert (0 < 4)%nat as H5 by lia.
  assert (len ten_As < Z.of_nat 11) as H6 by (vm_compute; reflexivity).
  split; [done|].
  destruct (compressed_file_round_trip (C := rle_codec)
              "/a.txt" "a.txt" 0 10 ten_As None [] toc.zero ∅ "a.txt" 4 11
              H1 H2 H3 H4 H5 H6) as (Hw & _ & Ho & Hg & Hr & _).
  exact (conj Hw (conj Ho (conj Hg Hr))).
Defined.

(** C3 at the file of two bytes: it is stored, and its handle has no
    [GzipBytes]. *)
Lemma packer_choice_witness :
  ((∅ : FS.t) !! "/b" = None /\ path.Clean ("/" +:+ "b") = "/b") /\
  ~ len (rle.compress two_bytes) < 2 /\
  walkFn (H := rle_codec) "/b" (VFile "b" 0 2 two_bytes None None) None ([], toc.zero)
  = ((stored_literal (fileInfo.mk "/b" "b" 0 2) two_bytes, toc.mk [] false true), None) /\
  FS.Open (H := rle_codec) (<["/b" := NFile (FileInfo.mk "b" 0 two_bytes)]> ∅) "b"
  = Ret (inl (HFile (File.mk (FileInfo.mk "b" 0 two_bytes) (bytes.NewReader two_bytes)))) /\
  GzipBytes (HFile (File.mk (FileInfo.mk "b" 0 two_bytes) (bytes.NewReader two_bytes))) = None.
Proof.
  assert ((∅ : FS.t) !! "/b" = None) as H1 by apply lookup_empty.
  assert (path.Clean ("/" +:+ "b") = "/b") as H2 by reflexivity.
  split; [done|].
  destruct (packer_choice (C := rle_codec) "/b" "b" 0 2 two_bytes [] toc.zero ∅ "b" H1 H2)
    as (_ & _ & Hstored).
  assert (2 <= len (rle.compress two_bytes)) as Hge by (vm_compute; discriminate).
  destruct (Hstored Hge) as (Hw & _ & Ho & Hg).
  split; [lia|]. exact (conj Hw (conj Ho Hg)).
Defined.

(** ** [Stat] *)

(** C6 as stated fails on a directory handle: its mode is
    [0755 | os.ModeDir], with the write bit of the owner. *)
Lemma Stat_directory_mode_not_read_only : ~ mode_as_specified a_directory.
Proof. intros [Hro _]. vm_compute in Hro. discriminate. Qed.

(** C6 (as amended). [Stat] on a handle returns, with no error, the
    static definition the handle was opened on: its name, its
    modification time, the uncompressed size for a stored and for a
    compressed file (0 for a directory), and a mode whose directory bit
    is set exactly for a directory; the mode of a file is [0444], which
    is read-only, and the mode of a directory is [0755 | os.ModeDir]. *)
Theorem Stat_reports_node (h : handle) :
  let n := (Stat h).1 in
  (Stat h).2 = None /\
  n = opened_on h /\
  Name n = recorded_name (opened_on h) /\
  ModTime n = recorded_modTime (opened_on h) /\
  Size n = uncompressed_size (opened_on h) /\
  IsDir n = is_directory (opened_on h) /\
  mode_IsDir (Mode n) = is_directory (opened_on h) /\
  (is_directory (opened_on h) = false -> Mode n = 292 /\ mode_read_only (Mode n) = true) /\
  (is_directory (opened_on h) = true -> Mode n = Z.lor 493 ModeDir /\ Z.land (Mode n) ModePerm = 493).
Proof.
  destruct h as [f|f|d]; cbn; repeat split; try done; try discriminate.
Qed.

Example Stat_letters :
  let n := (Stat (HCompressed letters_fresh)).1 in
  (Name n, Size n, Mode n, IsDir n) = ("f", 10, 292, false).
Proof. reflexivity. Qed.

(** ** Directory handles: [Read] and [Seek] *)

(** C7. [Read] on a directory handle returns no byte and the error
    "cannot Read from directory"; [Seek] with offset 0 from the start
    sets the listing cursor to 0 and returns 0 with no error; every other
    pair of offset and whence returns the error "unsupported Seek in
    directory" and leaves the handle as it was. *)
Theorem Dir_Read_and_Seek (d : Dir.t) (p : nat) (offset whence : Z) :
  DirInfo.Read (Dir.info d) p
  = ([], Some (Errorf ("cannot Read from directory " +:+ DirInfo.name (Dir.info d)))) /\
  Dir.Seek d 0 io.SeekStart = (Dir.mk (Dir.info d) 0, (0, None)) /\
  (~ (offset = 0 /\ whence = io.SeekStart) ->
   Dir.Seek d offset whence
   = (d, (0, Some (Errorf ("unsupported Seek in directory " +:+ DirInfo.name (Dir.info d)))))) /\
  ((Dir.Seek d offset whence).2.2 = None -> offset = 0 /\ whence = io.SeekStart).
Proof.
  split; [done|]. split; [done|]. unfold Dir.Seek.
  destruct (Z.eqb_spec offset 0) as [->|Ho];
    destruct (Z.eqb_spec whence io.SeekStart) as [->|Hw]; cbn; split;
    try (intros Hn; exfalso; by apply Hn); try done.
Qed.

Example Dir_Seek_current :
  Dir.Seek (Dir.mk (DirInfo.mk "d" 0 ["/d/a"; "/d/b"]) 1) 0 io.SeekCurrent
  = (Dir.mk (DirInfo.mk "d" 0 ["/d/a"; "/d/b"]) 1,
     (0, Some (Errorf "unsupported Seek in directory d"))).
Proof. reflexivity. Qed.

Example Dir_Seek_rewind :
  Dir.Seek (Dir.mk (DirInfo.mk "d" 0 ["/d/a"; "/d/b"]) 2) 0 io.SeekStart
  = (Dir.mk (DirInfo.mk "d" 0 ["/d/a"; "/d/b"]) 0, (0, None)).
Proof. reflexivity. Qed.

(** ** Directory listings *)

#[global] Instance str_le_total : Total str_le.
Proof. intros a b. apply Strings.String.leb_total. Qed.

Lemma Readdir_spec (d : Dir.t) (count : Z) :
  dir_wf d ->
  let es := DirInfo.entries (Dir.info d) in
  Dir.Readdir d count
  = if (Dir.pos d >=? len es) && (count >? 0) then Ret (d, ([], Some EOF))
    else
      let k := batch count (len es - Dir.pos d) in
      Ret (Dir.mk (Dir.info d) (Dir.pos d + k),
           (take (Z.to_nat k) (drop (Z.to_nat (Dir.pos d)) es), None)).
Proof.
  intros [Hp Hl]. cbv zeta. unfold Dir.Readdir.
  set (es := DirInfo.entries (Dir.info d)) in *.
  destruct ((Dir.pos d >=? len es) && (count >? 0)); [done|].
  rewrite !(wrap64_id (len es - Dir.pos d))
    by int64_lia.
  fold (batch count (len es - Dir.pos d)).
  assert (0 <= batch count (len es - Dir.pos d) <= len es - Dir.pos d) as Hk.
  { unfold batch.
    destruct (Z.leb_spec count 0); cbn; [lia|].
    destruct (Z.gtb_spec count (len es - Dir.pos d)); lia. }
  rewrite wrap64_id by int64_lia.
  unfold Dir.slice.
  destruct (Z.leb_spec 0 (Dir.pos d)); [|lia].
  destruct (Z.leb_spec (Dir.pos d) (Dir.pos d + batch count (len es - Dir.pos d))); [|lia].
  destruct (Z.leb_spec (Dir.pos d + batch count (len es - Dir.pos d)) (len es)); [|lia].
  cbn. do 4 f_equal. lia.
Qed.

(** Calling [Readdir(n)] until it reports the end collects the entries
    from the cursor on, in their stored order, whatever [n] is. *)
Lemma ReaddirAll_from (n : Z) (fuel : nat) :
  forall (d : Dir.t) (acc : list ptr),
    dir_wf d ->
    len (DirInfo.entries (Dir.info d)) - Dir.pos d + 1 < Z.of_nat fuel ->
    ReaddirAll fuel d n acc
    = Some (Dir.mk (Dir.info d) (len (DirInfo.entries (Dir.info d))),
            acc ++ drop (Z.to_nat (Dir.pos d)) (DirInfo.entries (Dir.info d))).
Proof.
  induction fuel as [|fuel IH]; intros d acc Hwf Hfuel; [destruct Hwf; lia|].
  pose proof Hwf as [Hp Hl].
  cbn [ReaddirAll]. rewrite (Readdir_spec d n Hwf). cbv zeta.
  set (es := DirInfo.entries (Dir.info d)) in *.
  set (rest := drop (Z.to_nat (Dir.pos d)) es).
  assert (len rest = len es - Dir.pos d) as Hrest.
  { unfold rest. rewrite len_drop. lia. }
  destruct ((Dir.pos d >=? len es) && (n >? 0)) eqn:Eend.
  - apply andb_prop in Eend as [Ege _]. apply Z.geb_le in Ege.
    assert (rest = []) as ->.
    { apply length_zero_iff_nil. unfold len in *. lia. }
    rewrite app_nil_r. do 2 f_equal. destruct d as [i q]. cbn in *. f_equal. lia.
  - assert (0 <= batch n (len es - Dir.pos d) <= len es - Dir.pos d) as Hk.
    { unfold batch. destruct (Z.leb_spec n 0); cbn; [lia|].
      destruct (Z.gtb_spec n (len es - Dir.pos d)); lia. }
    destruct (decide (len es - Dir.pos d = 0)) as [Hz|Hnz].
    + assert (rest = []) as ->.
      { apply length_zero_iff_nil. unfold len in *. lia. }
      rewrite take_nil, app_nil_r. do 3 f_equal. lia.
    + assert (0 < batch n (len es - Dir.pos d)) as Hpos.
      { unfold batch. destruct (Z.leb_spec n 0); cbn; [lia|].
        destruct (Z.gtb_spec n (len es - Dir.pos d)); lia. }
      destruct (take (Z.to_nat (batch n (len es - Dir.pos d))) rest) as [|e out] eqn:Eout.
      { apply (f_equal length) in Eout. rewrite length_take in Eout.
        unfold len in *. cbn in Eout. lia. }
      rewrite IH.
      * cbn [Dir.info Dir.pos]. fold es. do 2 f_equal.
        rewrite <- app_assoc. f_equal. rewrite <- Eout.
        rewrite Z2Nat.inj_add by lia. rewrite <- drop_drop. fold rest.
        apply take_drop.
      * unfold dir_wf. cbn [Dir.info Dir.pos]. fold es. lia.
      * cbn [Dir.info Dir.pos]. fold es. lia.
Qed.

Lemma sort_Strings_Sorted (l : list string) : Sorted str_le (sort_Strings l).
Proof. apply Sorted_merge_sort. apply _. Qed.

Lemma sort_Strings_Permutation (l : list string) : sort_Strings l ≡ₚ l.
Proof. apply merge_sort_Permutation. Qed.

Lemma readDirPaths_listed (name : string) (mt : Time) (children : list vnode)
    (dirname : string) :
  readDirPaths (VDir name mt None children) dirname
  = (sort_Strings (map (path.Join dirname) (map vname children)), None).
Proof. reflexivity. Qed.

Example readDirPaths_sorts :
  readDirPaths (VDir "d" 0 None [VFile "b" 0 0 [] None None; VDir "a" 0 None [];
                                 VFile "B" 0 0 [] None None]) "/d"
  = (["/d/B"; "/d/a"; "/d/b"], None).
Proof. reflexivity. Qed.

Example Readdir_batches :
  let d := Dir.mk (DirInfo.mk "d" 0 ["/d/B"; "/d/a"; "/d/b"]) 0 in
  Dir.Readdir d 2 = Ret (Dir.mk (Dir.info d) 2, (["/d/B"; "/d/a"], None)) /\
  Dir.Readdir (Dir.mk (Dir.info d) 2) 2 = Ret (Dir.mk (Dir.info d) 3, (["/d/b"], None)) /\
  Dir.Readdir (Dir.mk (Dir.info d) 3) 2 = Ret (Dir.mk (Dir.info d) 3, ([], Some EOF)) /\
  Dir.Readdir (Dir.mk (Dir.info d) 3) 0 = Ret (Dir.mk (Dir.info d) 3, ([], None)) /\
  Dir.Readdir d (-1) = Ret (Dir.mk (Dir.info d) 3, (["/d/B"; "/d/a"; "/d/b"], None)).
Proof. repeat split. Qed.

Lemma set_entries_loaded (fs : FS.t) (dir : dirInfo.t) (nm : string) (t : Time) :
  fs !! dirInfo.Path dir = Some (NDir (DirInfo.mk nm t [])) ->
  Forall (fun e => is_Some (fs !! e)) (dirInfo.Entries dir) ->
  artifact.set_entries fs dir
  = Some (<[dirInfo.Path dir := NDir (DirInfo.mk nm t (dirInfo.Entries dir))]> fs).
Proof.
  intros Hd Hall. unfold artifact.set_entries.
  destruct (dirInfo.Entries dir) as [|e es] eqn:E.
  - by rewrite insert_id.
  - rewrite Hd. cbn [DirInfo.name DirInfo.modTime].
    assert (forallb (fun e0 => bool_decide (is_Some (fs !! e0))) (e :: es) = true) as ->; [|done].
    apply forallb_forall. intros x Hx. apply bool_decide_eq_true.
    rewrite Forall_forall in Hall. apply Hall. by apply list_elem_of_In.
Qed.

(** C5. The entries recorded for a directory are the full paths of its
    children, sorted in ascending lexicographic order, each child once
    (a permutation of the listing); the table holds them in that order;
    [Readdir(count)] on a handle returns end-of-listing when
    [count > 0] and the cursor is at the end, and otherwise the next
    [count] entries (all remaining ones when [count <= 0] or fewer
    remain) in the stored order, moving the cursor past them; and the
    results of successive calls on a fresh handle, put together, are
    exactly the recorded entries. *)
Theorem Readdir_lists_children
    (name : string) (mt : Time) (children : list vnode) (path req nm : string) (t : Time)
    (fs : FS.t) (n count : Z) (fuel : nat) (h : Dir.t) :
  let paths := sort_Strings (map (path.Join path) (map vname children)) in
  let d := DirInfo.mk nm t paths in
  fs !! path = Some (NDir (DirInfo.mk nm t [])) ->
  Forall (fun e => is_Some (fs !! e)) paths ->
  path.Clean ("/" +:+ req) = path ->
  len paths <= int64_max ->
  len paths + 1 < Z.of_nat fuel ->
  dir_wf h ->
  (readDirPaths (VDir name mt None children) path = (paths, None) /\
   Sorted str_le paths /\
   paths ≡ₚ map (path.Join path) (map vname children) /\
   (NoDup (map (path.Join path) (map vname children)) -> NoDup paths)) /\
  (artifact.set_entries fs (dirInfo.mk path (path.Base path) mt paths)
   = Some (<[path := NDir d]> fs) /\
   forall C : gzip.Codec,
     FS.Open (H := C) (<[path := NDir d]> fs) req = Ret (inl (HDir (Dir.mk d 0)))) /\
  ReaddirAll fuel (Dir.mk d 0) n [] = Some (Dir.mk d (len paths), paths) /\
  Dir.Readdir h count
  = (let es := DirInfo.entries (Dir.info h) in
     if (Dir.pos h >=? len es) && (count >? 0) then Ret (h, ([], Some EOF))
     else
       let k := batch count (len es - Dir.pos h) in
       Ret (Dir.mk (Dir.info h) (Dir.pos h + k),
            (take (Z.to_nat k) (drop (Z.to_nat (Dir.pos h)) es), None))).
Proof.
  intros paths d Hdir Hall Hreq Hlen Hfuel Hwf.
  split; [|split; [|split]].
  - split; [reflexivity|]. split; [apply sort_Strings_Sorted|].
    split; [apply sort_Strings_Permutation|].
    intros Hnd. unfold paths. by rewrite sort_Strings_Permutation.
  - split.
    + by apply (set_entries_loaded fs (dirInfo.mk path (path.Base path) mt paths) nm t).
    + intros C. unfold FS.Open. rewrite Hreq. by rewrite lookup_insert_eq.
  - rewrite (ReaddirAll_from n fuel (Dir.mk d 0) []).
    + done.
    + unfold dir_wf. cbn [Dir.info Dir.pos DirInfo.entries d].
      pose proof (len_nonneg paths) as Hnn. clearbody d paths. lia.
    + cbn [Dir.info Dir.pos DirInfo.entries d]. clearbody d paths. lia.
  - by apply Readdir_spec.
Qed.

(** C5 at a directory with three children. *)
Lemma Readdir_lists_children_witness :
  readDirPaths (VDir "d" 0 None [VFile "b" 0 0 [] None None; VDir "a" 0 None [];
                                 VFile "B" 0 0 [] None None]) "/d"
  = (["/d/B"; "/d/a"; "/d/b"], None) /\
  ReaddirAll 5 (Dir.mk (DirInfo.mk "d" 0 ["/d/B"; "/d/a"; "/d/b"]) 0) 2 []
  = Some (Dir.mk (DirInfo.mk "d" 0 ["/d/B"; "/d/a"; "/d/b"]) 3, ["/d/B"; "/d/a"; "/d/b"]) /\
  Dir.Readdir (Dir.mk (DirInfo.mk "d" 0 ["/d/B"; "/d/a"; "/d/b"]) 3) 2
  = Ret (Dir.mk (DirInfo.mk "d" 0 ["/d/B"; "/d/a"; "/d/b"]) 3, ([], Some EOF)).
Proof.
  set (kids := [VFile "b" 0 0 [] None None; VDir "a" 0 None []; VFile "B" 0 0 [] None None]).
  set (fs := (<["/d" := NDir (DirInfo.mk "d" 0 [])]>
               (<["/d/B" := NFile (FileInfo.mk "B" 0 [])]>
                 (<["/d/a" := NDir (DirInfo.mk "a" 0 [])]>
                   (<["/d/b" := NFile (FileInfo.mk "b" 0 [])]> ∅))) : FS.t)).
  set (h := Dir.mk (DirInfo.mk "d" 0 ["/d/B"; "/d/a"; "/d/b"]) 3).
  assert (fs !! "/d" = Some (NDir (DirInfo.mk "d" 0 []))) as H1 by reflexivity.
  assert (Forall (fun e => is_Some (fs !! e))
            (sort_Strings (map (path.Join "/d") (map vname kids)))) as H2.
  { repeat constructor; eexists; reflexivity. }
  assert (path.Clean ("/" +:+ "d") = "/d") as H3 by reflexivity.
  assert (len (sort_Strings (map (path.Join "/d") (map vname kids))) <= int64_max) as H4
    by (vm_compute; discriminate).
  assert (len (sort_Strings (map (path.Join "/d") (map vname kids))) + 1 < Z.of_nat 5) as H5
    by (vm_compute; reflexivity).
  assert (dir_wf h) as H6 by (unfold dir_wf; vm_compute; repeat split; discriminate).
  destruct (Readdir_lists_children "d" 0 kids "/d" "d" "d" 0 fs 2 2 5 h H1 H2 H3 H4 H5 H6)
    as ((Hr & _) & _ & Hall & Hone).
  exact (conj Hr (conj Hall Hone)).
Defined.

(** ** [Open]: normalisation and lookup *)

Lemma split_no_slash (s : string) : Forall (fun e => no_slash e = true) (path.split s).
Proof.
  induction s as [|c s IH]; cbn; [by repeat constructor|].
  destruct (Ascii.eqb c path.slash) eqn:E; [by constructor|].
  destruct (path.split s) as [|h t].
  - repeat constructor. cbn. by rewrite E.
  - inversion IH; subst. constructor; [|done]. cbn. by rewrite E.
Qed.

Lemma clean_step_rooted_plain (out : list string) (e : string) :
  Forall plain_elem out -> no_slash e = true ->
  Forall plain_elem (path.clean_step true out e).
Proof.
  intros Hout He. unfold path.clean_step.
  destruct (String.eqb_spec e ""); [done|].
  destruct (String.eqb_spec e "."); [done|].
  destruct (String.eqb_spec e "..").
  - destruct out as [|top rest]; [done|].
    inversion Hout as [|? ? Htop Hrest]; subst.
    destruct (String.eqb_spec top ".."); [|done].
    by destruct Htop as (_ & _ & ? & _).
  - constructor; [|done]. by repeat split.
Qed.

Lemma fold_clean_step_rooted_plain (es out : list string) :
  Forall plain_elem out -> Forall (fun e => no_slash e = true) es ->
  Forall plain_elem (fold_left (path.clean_step true) es out).
Proof.
  revert out. induction es as [|e es IH]; intros out Hout Hes; [done|].
  inversion Hes; subst. cbn. apply IH; [|done]. by apply clean_step_rooted_plain.
Qed.

Lemma Clean_rooted (req : string) :
  path.Clean ("/" +:+ req) = "/" +:+ path.join (path.clean_elems true (path.split req)).
Proof. reflexivity. Qed.

Lemma Clean_rooted_plain (req : string) :
  Forall plain_elem (path.clean_elems true (path.split req)).
Proof.
  unfold path.clean_elems. apply Forall_rev.
  apply fold_clean_step_rooted_plain; [constructor | apply split_no_slash].
Qed.

Lemma split_plain (x : string) : no_slash x = true -> path.split x = [x].
Proof.
  induction x as [|c x IH]; cbn; [done|].
  intros H. apply andb_prop in H as [Hc Hx]. apply negb_true_iff in Hc.
  rewrite Hc. by rewrite (IH Hx).
Qed.

Lemma split_app_slash (x s : string) :
  no_slash x = true -> path.split (x +:+ "/" +:+ s) = x :: path.split s.
Proof.
  induction x as [|c x IH]; [done|].
  intros H. cbn in H. apply andb_prop in H as [Hc Hx]. apply negb_true_iff in Hc.
  change (String c x +:+ "/" +:+ s) with (String c (x +:+ "/" +:+ s)).
  cbn [path.split]. rewrite Hc. by rewrite (IH Hx).
Qed.

Lemma split_join (elems : list string) :
  Forall (fun e => no_slash e = true) elems -> elems <> [] ->
  path.split (path.join elems) = elems.
Proof.
  induction 1 as [|x t Hx Ht IH]; [done|]. intros _.
  destruct t as [|y t]; [by apply split_plain|].
  change (path.join (x :: y :: t)) with (x +:+ "/" +:+ path.join (y :: t)).
  rewrite split_app_slash by done. by rewrite IH.
Qed.

Lemma fold_clean_step_plain (isroot : bool) (es out : list string) :
  Forall plain_elem es ->
  fold_left (path.clean_step isroot) es out = rev es ++ out.
Proof.
  revert out. induction es as [|e es IH]; intros out Hes; [done|].
  inversion Hes as [|? ? (He1 & He2 & He3 & _) Hrest]; subst. cbn.
  rewrite IH by done. rewrite <- app_assoc. f_equal.
  unfold path.clean_step.
  destruct (String.eqb_spec e ""); [done|].
  destruct (String.eqb_spec e "."); [done|].
  destruct (String.eqb_spec e ".."); done.
Qed.


Section OpenTheorems.
Context `{C : gzip.Codec}.


End OpenTheorems.

(** The tables built from the literals that [walkFn] writes are
    generated tables. *)
Lemma generated_empty `{C : gzip.Codec} : generated ∅.
Proof. intros key f Hl. by rewrite lookup_empty in Hl. Qed.

Lemma generated_insert_compressed `{C : gzip.Codec} (fs : FS.t) (key nm : string)
    (mt : Time) (data : list byte) (size : Z) :
  generated fs ->
  generated (<[key := NCompressed (CompressedFileInfo.mk nm mt (gzip.compress data) size)]> fs).
Proof.
  intros Hg k f Hl. rewrite lookup_insert in Hl. case_decide.
  - injection Hl as <-. by exists data.
  - by apply (Hg k).
Qed.

Lemma generated_insert_other `{C : gzip.Codec} (fs : FS.t) (key : string) (n : node) :
  is_directory n = true \/ (exists f, n = NFile f) ->
  generated fs -> generated (<[key := n]> fs).
Proof.
  intros Hn Hg k f Hl. rewrite lookup_insert in Hl. case_decide.
  - injection Hl as ->. destruct Hn as [Hn | [f' Hn]]; discriminate.
  - by apply (Hg k).
Qed.

Example Open_missing :
  FS.Open (H := rle_codec) (<["/a.txt" := NCompressed ten_As_info]> ∅) "/missing"
  = Ret (inr (PathError "open" "/missing" ErrNotExist)).
Proof. reflexivity. Qed.

Example Open_unclean :
  FS.Open (H := rle_codec) (<["/a.txt" := NCompressed ten_As_info]> ∅) "x/.././/a.txt/"
  = Ret (inl (HCompressed ten_As_handle)).
Proof. reflexivity. Qed.

(** A table that is not generated: the header of the payload is refused
    and [Open] panics. *)
Example Open_bad_payload :
  FS.Open (H := rle_codec)
    (<["/bad" := NCompressed (CompressedFileInfo.mk "bad" 0 [x00; x00] 5)]> ∅) "bad"
  = Panic "unexpected error reading own gzip compressed bytes".
Proof. reflexivity. Qed.

(** ** [Generate]: failures of the input *)

Section GenerateTheorems.
Context `{C : gzip.Codec}.
Variable fillMissing : Options -> Options.




(** *** What a successful generation loads to *)











End GenerateTheorems.

(** ** The handles a program can hold *)

Section Reachability.
Context `{C : gzip.Codec}.

(** [Open] returns well-formed handles, and [Seek] and [Read] keep them
    well-formed. *)
Lemma handle_wf_fresh (f : CompressedFileInfo.t) (data : list byte) (e : error) :
  gzip.decode (CompressedFileInfo.compressedContent f) = gzip.Stream data e ->
  len data <= int64_max ->
  handle_wf (CompressedFile.mk f (gzip.mkReader data e) 0 0).
Proof.
  intros Hd Hl. unfold handle_wf, payload, is_int64, int64_min, int64_max in *. cbn.
  repeat split; try lia. eauto.
Qed.

Lemma handle_wf_Seek (f f' : CompressedFile.t) (offset whence : Z) (r : Z * option error) :
  handle_wf f -> CompressedFile.Seek f offset whence = Ret (f', r) -> handle_wf f'.
Proof.
  intros (Hs & Hg & Hb & Hd) Hseek.
  destruct (standard_whence whence) eqn:E.
  - rewrite (Seek_standard _ _ _ E) in Hseek. injection Hseek as <- _.
    split; [apply wrap64_range | by repeat split].
  - by rewrite (Seek_other _ _ _ E) in Hseek.
Qed.

Lemma handle_wf_Read (f : CompressedFile.t) (p : nat) :
  handle_wf f -> handle_wf (CompressedFile.Read f p).1.
Proof.
  intros Hwf. pose proof Hwf as (Hs & Hg & Hb & Hd).
  destruct (rewind_ok f Hwf) as (f1 & Hr & _ & _ & _ & _ & Hs1 & Hi1 & Hg1 & Hb1).
  assert (payload f1 = payload f) as Hp1 by (unfold payload; by rewrite Hi1).
  destruct (Z_le_gt_dec (CompressedFile.seekPos f1 - CompressedFile.grPos f1)
              (len (gzip.pending (CompressedFile.gr f1)))) as [Hle|Hgt].
  - destruct (forward_ok f1) as (f2 & Hf & _ & Hs2 & Hi2 & Hg2 & Hb2);
      [by rewrite Hs1 | done | done |].
    pose proof (Read_deliver f f1 f2 p Hr Hf) as Hd'.
    pose proof (gzip_Read_pending (CompressedFile.gr f2) p) as Hsplit.
    destruct (gzip.Read (CompressedFile.gr f2) p) as [[g out] err].
    destruct Hsplit as [Hsplit _]. apply (f_equal len) in Hsplit. rewrite len_app in Hsplit.
    rewrite Hd' by lia. cbn [fst].
    pose proof (len_nonneg out). pose proof (len_nonneg (gzip.pending g)).
    unfold handle_wf, payload, is_int64, int64_min, int64_max in *. cbn.
    rewrite Hi2, Hi1. repeat split; try lia. done.
  - unfold CompressedFile.Read. rewrite Hr.
    rewrite forward_short; [| by rewrite Hs1 | done | lia]. cbn [fst].
    unfold handle_wf, payload in *. cbn. rewrite Hi1, Hs1.
    pose proof (len_nonneg (gzip.pending (CompressedFile.gr f1))).
    change (len (@nil byte)) with 0.
    split; [done|]. split; [done|]. split; [lia | done].
Qed.

End Reachability.

(** After a fast-forward that ran out of content, [grPos] is no longer
    the position of the decompressor: the decompressor is at the end,
    [grPos] is where it was. A request for the first bytes that follows
    finds the two positions equal and reads end-of-stream. *)
Example Read_after_failed_forward :
  let f1 := (CompressedFile.Read (H := rle_codec) letters_past_end 3).1 in
  CompressedFile.grPos f1 = 0 /\
  gzip.pending (CompressedFile.gr f1) = [] /\
  CompressedFile.Seek f1 0 io.SeekStart
  = Ret (CompressedFile.set_seekPos 0 f1, (0, None)) /\
  (CompressedFile.Read (H := rle_codec) (CompressedFile.set_seekPos 0 f1) 3).2
  = ([], Some EOF).
Proof. repeat split. Qed.

(** A negative requested position restarts the decompressor and reads
    from the beginning of the content. *)
Example Read_at_negative_position :
  CompressedFile.Read (H := rle_codec) letters_negative 3
  = (CompressedFile.mk letters_info (gzip.mkReader (list_byte_of_string "DEFGHIJ") EOF) 3 3,
     (list_byte_of_string "ABC", None)).
Proof. reflexivity. Qed.

(** ** A generation from end to end *)

Example Generate_sample :
  exists buf,
    Generate (H := rle_codec) (fun o => o) sample_tree sample_options ∅
    = (<["assets_vfsdata.go" := buf]> ∅, None) /\
    artifact.load buf = Some sample_table.
Proof.
  eexists. split; [vm_compute; reflexivity|].
  vm_compute. reflexivity.
Qed.

(** A file that cannot be read in the subdirectory: nothing is written. *)
Example Generate_unreadable :
  Generate (H := rle_codec) (fun o => o)
    (VDir "/" 7 None
       [VFile "a.txt" 1 10 ten_As None None;
        VDir "sub" 2 None [VFile "b" 3 2 two_bytes (Some "read: input/output error") None];
        VBroken "z" "open: permission denied"])
    sample_options ∅
  = (∅, Some (ErrInput "read: input/output error")).
Proof. reflexivity. Qed.

(** A file that cannot be rewound, but whose compressed form is
    smaller, is never rewound. *)
Example Generate_no_rewind_needed :
  (Generate (H := rle_codec) (fun o => o)
     (VDir "/" 7 None [VFile "a.txt" 1 10 ten_As None (Some "seek: illegal seek")])
     sample_options ∅).2 = None.
Proof. reflexivity. Qed.

(** ** Package path: the cases of its tables *)

Example Clean_table :
  map path.Clean
    [""; "abc"; "abc/def"; "a/b/c"; "."; ".."; "../.."; "../../abc"; "/abc"; "/";
     "abc/"; "abc/def/"; "a/b/c/"; "./"; "../"; "../../"; "/abc/";
     "abc//def//ghi"; "//abc"; "///abc"; "//abc//"; "abc//";
     "abc/./def"; "/./abc/def"; "abc/.";
     "abc/def/ghi/../jkl"; "abc/def/../ghi/../jkl"; "abc/def/.."; "abc/def/../..";
     "/abc/def/../.."; "abc/def/../../.."; "/abc/def/../../..";
     "abc/def/../../../ghi/jkl/../../../mno";
     "abc/./../def"; "abc//./../def"; "abc/../../././../def"]
  = ["."; "abc"; "abc/def"; "a/b/c"; "."; ".."; "../.."; "../../abc"; "/abc"; "/";
     "abc"; "abc/def"; "a/b/c"; "."; ".."; "../.."; "/abc";
     "abc/def/ghi"; "/abc"; "/abc"; "/abc"; "abc";
     "abc/def"; "/abc/def"; "abc";
     "abc/def/jkl"; "abc/jkl"; "abc"; ".";
     "/"; ".."; "/";
     "../../mno";
     "def"; "def"; "../../def"].
Proof. reflexivity. Qed.

Example Base_table :
  map path.Base [""; "."; "/."; "/"; "////"; "x/"; "abc"; "abc/def"; "a/b/.x"; "a/b/c."; "a/b/c.x"]
  = ["."; "."; "."; "/"; "/"; "x"; "abc"; "def"; ".x"; "c."; "c.x"].
Proof. reflexivity. Qed.

Example Join_table :
  map (fun '(a, b) => path.Join a b)
    [("a", "b"); ("a", ""); ("", "b"); ("/", "a"); ("/", ""); ("a/", "b"); ("a/", ""); ("", "")]
  = ["a/b"; "a"; "b"; "/a"; "/"; "a/b"; "a"; ""].
Proof. reflexivity. Qed.

(** * Further properties of the runtime *)

(** ** Reading at a position *)

Section PositionedReads.
Context `{C : gzip.Codec}.




End PositionedReads.



(** ** Seeks before a read *)

Lemma wrap64_wrap64_add (x b : Z) : wrap64 (wrap64 x + b) = wrap64 (x + b).
Proof.
  unfold wrap64. f_equal.
  replace ((x + 2 ^ 63) mod 2 ^ 64 - 2 ^ 63 + b + 2 ^ 63)
    with ((x + 2 ^ 63) mod 2 ^ 64 + b) by lia.
  rewrite Zplus_mod_idemp_l. f_equal. lia.
Qed.

(** X3. Several seeks before a read leave a handle that depends on the
    seeks only through the last position: after any standard [Seek], a
    [Seek] from the start or from the end gives what it gives on the
    handle before, and a [Seek] relative to the current position adds
    its offset to the position reached (modulo 2^64); the decompressor
    and [grPos] are those of the handle before all of them. *)
Theorem Seek_after_Seek (f : CompressedFile.t) (a w b : Z) :
  standard_whence w = true ->
  exists f1,
    CompressedFile.Seek f a w = Ret (f1, (CompressedFile.seekPos f1, None)) /\
    CompressedFile.Seek f1 b io.SeekStart = CompressedFile.Seek f b io.SeekStart /\
    CompressedFile.Seek f1 b io.SeekEnd = CompressedFile.Seek f b io.SeekEnd /\
    CompressedFile.Seek f1 b io.SeekCurrent
    = Ret (CompressedFile.mk (CompressedFile.info f) (CompressedFile.gr f)
             (CompressedFile.grPos f) (wrap64 (seek_base f w + a + b)),
           (wrap64 (seek_base f w + a + b), None)).
Proof.
  intros Hw. rewrite (Seek_standard _ _ _ Hw).
  exists (CompressedFile.set_seekPos (wrap64 (seek_base f w + a)) f).
  split; [reflexivity|]. split; [reflexivity|]. split; [reflexivity|].
  unfold CompressedFile.Seek. cbn. by rewrite wrap64_wrap64_add.
Qed.

Lemma Seek_after_Seek_witness :
  CompressedFile.Seek letters_at_5 (-3) io.SeekCurrent
  = Ret (CompressedFile.mk letters_info (gzip.mkReader letters EOF) 0 2, (2, None)).
Proof.
  destruct (Seek_after_Seek letters_fresh 5 io.SeekStart (-3) eq_refl)
    as (f1 & H1 & _ & _ & H3).
  injection H1 as <-. exact H3.
Defined.

(** X4. The size probe of a caller, [Seek(0, io.SeekEnd)] followed by
    [Seek(0, io.SeekStart)]: the first returns the size that [Stat]
    reports, the second returns 0, neither touches the decompressor, and
    a handle that stood at position 0 is afterwards what it was. *)
Theorem size_probe_leaves_handle (f : CompressedFile.t) :
  is_int64 (CompressedFileInfo.uncompressedSize (CompressedFile.info f)) ->
  exists f1,
    CompressedFile.Seek f 0 io.SeekEnd
    = Ret (f1, (Size (Stat (HCompressed f)).1, None)) /\
    CompressedFile.Seek f1 0 io.SeekStart = Ret (CompressedFile.set_seekPos 0 f, (0, None)) /\
    CompressedFile.gr f1 = CompressedFile.gr f /\
    CompressedFile.grPos f1 = CompressedFile.grPos f /\
    (CompressedFile.seekPos f = 0 -> CompressedFile.set_seekPos 0 f = f).
Proof.
  intros Hsz. eexists. split.
  { unfold CompressedFile.Seek. cbn. rewrite Z.add_0_r, (wrap64_id _ Hsz). reflexivity. }
  split; [reflexivity|]. split; [reflexivity|]. split; [reflexivity|].
  intros H0. destruct f as [i g gp sp]. cbn in H0. by subst sp.
Qed.

Lemma size_probe_leaves_handle_witness :
  exists f1,
    CompressedFile.Seek letters_fresh 0 io.SeekEnd = Ret (f1, (10, None)) /\
    CompressedFile.Seek f1 0 io.SeekStart = Ret (letters_fresh, (0, None)).
Proof.
  assert (is_int64 (CompressedFileInfo.uncompressedSize (CompressedFile.info letters_fresh)))
    as Hsz by (vm_compute; split; discriminate).
  destruct (size_probe_leaves_handle letters_fresh Hsz) as (f1 & H1 & H2 & _).
  exists f1. split; [exact H1 | exact H2].
Defined.

(** ** A negative position *)

Section NegativePosition.
Context `{C : gzip.Codec}.


End NegativePosition.


(** ** Compression is not visible through [Read] and [Seek] *)

Section Transparency.
Context `{C : gzip.Codec}.

Lemma same_view_fresh (cf : CompressedFileInfo.t) (sf : FileInfo.t) (data : list byte) :
  gzip.decode (CompressedFileInfo.compressedContent cf) = gzip.Stream data EOF ->
  FileInfo.content sf = data ->
  len data <= int64_max ->
  same_view data (CompressedFile.mk cf (gzip.mkReader data EOF) 0 0)
    (File.mk sf (bytes.NewReader (FileInfo.content sf))).
Proof.
  intros Hd Hc Hl. unfold same_view. cbn. pose proof (len_nonneg data).
  split; [by apply fresh_synced|]. repeat split; try done; lia.
Qed.


End Transparency.


(** ** Sequences of calls *)

Section CallSequences.
Context `{C : gzip.Codec}.

Lemma Read_keeps_info (f : CompressedFile.t) (p : nat) :
  handle_wf f -> CompressedFile.info (CompressedFile.Read f p).1 = CompressedFile.info f.
Proof.
  intros Hwf. pose proof Hwf as (Hs & Hg & Hb & Hd).
  destruct (rewind_ok f Hwf) as (f1 & Hr & _ & _ & _ & _ & Hs1 & Hi1 & Hg1 & Hb1).
  destruct (Z_le_gt_dec (CompressedFile.seekPos f1 - CompressedFile.grPos f1)
              (len (gzip.pending (CompressedFile.gr f1)))) as [Hle|Hgt].
  - destruct (forward_ok f1) as (f2 & Hf & _ & Hs2 & Hi2 & Hg2 & Hb2);
      [by rewrite Hs1 | done | done |].
    pose proof (Read_deliver f f1 f2 p Hr Hf) as Hd'.
    destruct (gzip.Read (CompressedFile.gr f2) p) as [[g out] err].
    rewrite Hd' by lia. cbn. by rewrite Hi2.
  - unfold CompressedFile.Read. rewrite Hr.
    rewrite forward_short; [| by rewrite Hs1 | done | lia]. done.
Qed.

(** X7. Whatever sequence of [Read] calls and of [Seek] calls with a
    standard whence is made on a handle that [Open] returned, no call
    panics, the handle keeps the static definition it was opened on,
    [grPos] is never negative, [seekPos] stays a 64-bit value and the
    decompressor never holds more than the 64-bit range can count. *)
Theorem file_calls_keep_handle_well_formed (calls : list file_call) :
  Forall standard_call calls ->
  forall f : CompressedFile.t,
    handle_wf f ->
    exists f', file_calls calls f = Ret f' /\ handle_wf f' /\
               CompressedFile.info f' = CompressedFile.info f.
Proof.
  induction 1 as [|c calls Hc _ IH]; intros f Hwf.
  - by exists f.
  - destruct c as [offset whence | p]; cbn [file_calls].
    + cbn in Hc. rewrite (Seek_standard _ _ _ Hc).
      destruct (IH (CompressedFile.set_seekPos (wrap64 (seek_base f whence + offset)) f))
        as (f' & Hrun & Hwf' & Hi).
      { eapply handle_wf_Seek; [exact Hwf | apply (Seek_standard _ _ _ Hc)]. }
      exists f'. split; [done|]. split; [done | exact Hi].
    + destruct (IH (CompressedFile.Read f p).1) as (f' & Hrun & Hwf' & Hi).
      { by apply handle_wf_Read. }
      exists f'. split; [done|]. split; [done|]. rewrite Hi. by apply Read_keeps_info.
Qed.

End CallSequences.

Lemma file_calls_keep_handle_well_formed_witness :
  exists f',
    file_calls (C := rle_codec)
      [CallSeek 100 io.SeekStart; CallRead 3; CallSeek (-2) io.SeekEnd; CallRead 5]
      letters_fresh = Ret f' /\
    handle_wf (C := rle_codec) f'.
Proof.
  assert (Forall standard_call
            [CallSeek 100 io.SeekStart; CallRead 3; CallSeek (-2) io.SeekEnd; CallRead 5])
    as Hc by (repeat constructor).
  assert (handle_wf (C := rle_codec) letters_fresh) as Hwf.
  { apply (handle_wf_fresh (C := rle_codec) letters_info letters EOF);
      [apply rle_decode_compress | vm_compute; discriminate]. }
  destruct (file_calls_keep_handle_well_formed (C := rle_codec) _ Hc letters_fresh Hwf)
    as (f' & Hrun & Hwf' & _).
  exists f'. split; [exact Hrun | exact Hwf'].
Defined.

Lemma Readdir_keeps_dir_wf (d : Dir.t) (count : Z) :
  dir_wf d ->
  exists d' es err,
    Dir.Readdir d count = Ret (d', (es, err)) /\ dir_wf d' /\
    Dir.info d' = Dir.info d /\
    Dir.pos d' = Dir.pos d + len es /\
    (0 < count -> len es <= count).
Proof.
  intros Hwf. pose proof Hwf as [Hp Hl].
  rewrite (Readdir_spec d count Hwf). cbv zeta.
  set (es := DirInfo.entries (Dir.info d)) in *.
  destruct ((Dir.pos d >=? len es) && (count >? 0)) eqn:E.
  - exists d, [], (Some EOF). change (len (@nil string)) with 0.
    split; [done|]. split; [done|]. split; [done|]. split; lia.
  - assert (0 <= batch count (len es - Dir.pos d) <= len es - Dir.pos d /\
            (0 < count -> batch count (len es - Dir.pos d) <= count)) as [Hk Hkc].
    { unfold batch. destruct (Z.leb_spec count 0); cbn; [lia|].
      destruct (Z.gtb_spec count (len es - Dir.pos d)); lia. }
    eexists _, _, _. split; [reflexivity|].
    assert (len (take (Z.to_nat (batch count (len es - Dir.pos d)))
                   (drop (Z.to_nat (Dir.pos d)) es))
            = batch count (len es - Dir.pos d)) as Hlen.
    { unfold len in *. rewrite length_take, length_drop. lia. }
    rewrite Hlen. unfold dir_wf. cbn [Dir.info Dir.pos]. fold es.
    split; [lia|]. split; [done|]. split; [lia | exact Hkc].
Qed.

(** X8. Whatever sequence of [Readdir] and [Seek] calls is made on a
    directory handle that [Open] returned, the slice expression of
    [Readdir] never panics, the cursor stays within the entries, and a
    rewind to the start followed by [Readdir] calls until the end lists
    all the entries of the directory again, in their stored order. *)
Theorem dir_calls_keep_cursor_in_range (calls : list dir_call) (n : Z) (fuel : nat) :
  forall d : Dir.t,
    dir_wf d ->
    len (DirInfo.entries (Dir.info d)) + 1 < Z.of_nat fuel ->
    exists d',
      dir_calls calls d = Ret d' /\ dir_wf d' /\ Dir.info d' = Dir.info d /\
      ReaddirAll fuel (Dir.Seek d' 0 io.SeekStart).1 n []
      = Some (Dir.mk (Dir.info d) (len (DirInfo.entries (Dir.info d))),
              DirInfo.entries (Dir.info d)).
Proof.
  induction calls as [|c calls IH]; intros d Hwf Hfuel.
  - exists d. split; [done|]. split; [done|]. split; [done|].
    destruct Hwf as [Hp Hl].
    change (Dir.Seek d 0 io.SeekStart).1 with (Dir.mk (Dir.info d) 0).
    rewrite (ReaddirAll_from n fuel (Dir.mk (Dir.info d) 0) []); [done | |].
    + unfold dir_wf. cbn [Dir.info Dir.pos]. lia.
    + cbn [Dir.info Dir.pos]. lia.
  - destruct c as [offset whence | count]; cbn [dir_calls].
    + assert (dir_wf (Dir.Seek d offset whence).1 /\
              Dir.info (Dir.Seek d offset whence).1 = Dir.info d) as [Hwf' Hi].
      { unfold Dir.Seek. destruct ((offset =? 0) && (whence =? io.SeekStart)); [|done].
        destruct Hwf as [Hp Hl]. unfold dir_wf. cbn. split; [|done]. lia. }
      destruct (IH _ Hwf') as (d' & Hrun & Hwf'' & Hi' & Hall); [by rewrite Hi|].
      exists d'. rewrite Hi in Hi', Hall.
      split; [done|]. split; [done|]. split; [exact Hi' | exact Hall].
    + destruct (Readdir_keeps_dir_wf d count Hwf) as (d1 & es & err & Hr & Hwf' & Hi & _).
      rewrite Hr.
      destruct (IH _ Hwf') as (d' & Hrun & Hwf'' & Hi' & Hall); [by rewrite Hi|].
      exists d'. rewrite Hi in Hi', Hall.
      split; [done|]. split; [done|]. split; [exact Hi' | exact Hall].
Qed.

Lemma dir_calls_keep_cursor_in_range_witness :
  exists d',
    dir_calls [CallReaddir 2; CallDirSeek 7 io.SeekCurrent; CallReaddir 0; CallReaddir 1]
      (Dir.mk (DirInfo.mk "d" 0 ["/d/B"; "/d/a"; "/d/b"]) 0) = Ret d' /\
    ReaddirAll 5 (Dir.Seek d' 0 io.SeekStart).1 2 []
    = Some (Dir.mk (DirInfo.mk "d" 0 ["/d/B"; "/d/a"; "/d/b"]) 3, ["/d/B"; "/d/a"; "/d/b"]).
Proof.
  assert (dir_wf (Dir.mk (DirInfo.mk "d" 0 ["/d/B"; "/d/a"; "/d/b"]) 0)) as Hwf.
  { unfold dir_wf. vm_compute. repeat split; discriminate. }
  assert (len (DirInfo.entries (Dir.info (Dir.mk (DirInfo.mk "d" 0 ["/d/B"; "/d/a"; "/d/b"]) 0)))
          + 1 < Z.of_nat 5) as Hfuel by (vm_compute; reflexivity).
  destruct (dir_calls_keep_cursor_in_range
              [CallReaddir 2; CallDirSeek 7 io.SeekCurrent; CallReaddir 0; CallReaddir 1]
              2 5 _ Hwf Hfuel) as (d' & Hrun & _ & _ & Hall).
  exists d'. split; [exact Hrun | exact Hall].
Defined.

(** ** The spelling of a request *)

Lemma split_nonempty (s : string) : path.split s <> [].
Proof.
  induction s as [|c s IH]; cbn; [done|].
  destruct (Ascii.eqb c path.slash); [done|]. by destruct (path.split s).
Qed.

Lemma split_app (a b : string) :
  path.split (a +:+ "/" +:+ b) = path.split a ++ path.split b.
Proof.
  induction a as [|c a IH]; [reflexivity|].
  change (String c a +:+ "/" +:+ b) with (String c (a +:+ "/" +:+ b)).
  cbn [path.split]. rewrite IH.
  destruct (Ascii.eqb c path.slash); [reflexivity|].
  pose proof (split_nonempty a). by destruct (path.split a).
Qed.

Lemma clean_elems_app (isroot : bool) (es1 es2 : list string) :
  path.clean_elems isroot (es1 ++ es2)
  = rev (fold_left (path.clean_step isroot) es2 (fold_left (path.clean_step isroot) es1 [])).
Proof. unfold path.clean_elems. by rewrite fold_left_app. Qed.

Lemma clean_step_plain_dotdot (isroot : bool) (out : list string) (x : string) :
  plain_elem x ->
  path.clean_step isroot (path.clean_step isroot out x) ".." = out.
Proof.
  intros (H1 & H2 & H3 & _). unfold path.clean_step at 2.
  apply String.eqb_neq in H1, H2, H3. rewrite H1, H2, H3.
  unfold path.clean_step. cbn. by rewrite H3.
Qed.

Lemma clean_elems_rooted_join (es : list string) :
  Forall plain_elem es ->
  path.clean_elems true (path.split ("/" +:+ path.join es)) = es.
Proof.
  intros Hes. destruct (decide (es = [])) as [->|Hne]; [reflexivity|].
  change (path.split ("/" +:+ path.join es)) with ("" :: path.split (path.join es)).
  rewrite split_join; [|eapply Forall_impl; [exact Hes|]; by intros e (_ & _ & _ & ?) | done].
  unfold path.clean_elems. cbn [fold_left].
  change (path.clean_step true [] "") with (@nil string).
  by rewrite fold_clean_step_plain, app_nil_r, rev_involutive.
Qed.

Section Spelling.
Context `{C : gzip.Codec}.

Lemma Open_same_elems (fs : FS.t) (a b : string) :
  path.clean_elems true (path.split a) = path.clean_elems true (path.split b) ->
  FS.Open fs a = FS.Open fs b.
Proof. intros Heq. unfold FS.Open. by rewrite !Clean_rooted, Heq. Qed.

(** X9. [Open] does not tell spellings of a request apart: a leading
    separator, a leading [".."] (the root cannot be left), a trailing
    separator, a doubled separator, a ["."] element and an element
    followed by [".."] change nothing in what it returns, on any table;
    neither does normalising the request beforehand. *)
Theorem Open_ignores_spelling (fs : FS.t) (a b x : string) :
  plain_elem x ->
  FS.Open fs ("/" +:+ b) = FS.Open fs b /\
  FS.Open fs ("../" +:+ b) = FS.Open fs b /\
  FS.Open fs (a +:+ "/") = FS.Open fs a /\
  FS.Open fs (a +:+ "//" +:+ b) = FS.Open fs (a +:+ "/" +:+ b) /\
  FS.Open fs (a +:+ "/./" +:+ b) = FS.Open fs (a +:+ "/" +:+ b) /\
  FS.Open fs (a +:+ "/" +:+ x +:+ "/../" +:+ b) = FS.Open fs (a +:+ "/" +:+ b) /\
  FS.Open fs (path.Clean ("/" +:+ a)) = FS.Open fs a.
Proof.
  intros Hx.
  split; [reflexivity|]. split; [reflexivity|].
  split; [|split; [|split; [|split]]]; apply Open_same_elems.
  - change (a +:+ "/") with (a +:+ "/" +:+ ""). rewrite split_app, clean_elems_app. reflexivity.
  - change (a +:+ "//" +:+ b) with (a +:+ "/" +:+ ("" +:+ "/" +:+ b)).
    by rewrite !split_app, !clean_elems_app, fold_left_app.
  - change (a +:+ "/./" +:+ b) with (a +:+ "/" +:+ ("." +:+ "/" +:+ b)).
    by rewrite !split_app, !clean_elems_app, fold_left_app.
  - change (a +:+ "/" +:+ x +:+ "/../" +:+ b)
      with (a +:+ "/" +:+ (x +:+ "/" +:+ (".." +:+ "/" +:+ b))).
    rewrite !split_app, !clean_elems_app, !fold_left_app.
    rewrite (split_plain x) by apply Hx.
    change (path.split "..") with [".."]. cbn [fold_left].
    by rewrite clean_step_plain_dotdot.
  - rewrite Clean_rooted. apply clean_elems_rooted_join, Clean_rooted_plain.
Qed.

End Spelling.

Lemma Open_ignores_spelling_witness :
  FS.Open (H := rle_codec) sample_table "sub/x/../b"
  = FS.Open (H := rle_codec) sample_table "sub/b" /\
  FS.Open (H := rle_codec) sample_table "../sub/b"
  = Ret (inl (HFile (File.mk (FileInfo.mk "b" 3 two_bytes) (bytes.NewReader two_bytes)))).
Proof.
  assert (plain_elem "x") as Hx by (repeat split; discriminate).
  destruct (Open_ignores_spelling (C := rle_codec) sample_table "sub" "b" "x" Hx)
    as (_ & H2 & _ & _ & _ & H6 & _).
  split; [exact H6|].
  destruct (Open_ignores_spelling (C := rle_codec) sample_table "" "sub/b" "x" Hx)
    as (_ & H2' & _).
  transitivity (FS.Open (H := rle_codec) sample_table "sub/b"); [exact H2' | reflexivity].
Defined.

(** ** The walk over the whole input *)

Section WholeTree.
Context `{C : gzip.Codec}.
Variable fillMissing : Options -> Options.



(** *** The nodes that the walk visits *)

Lemma elem_of_flat_map {A B : Type} (f : A -> list B) (l : list A) (y : B) :
  y ∈ flat_map f l <-> exists x, x ∈ l /\ y ∈ f x.
Proof.
  rewrite list_elem_of_In, in_flat_map. split.
  - intros (x & Hx & Hy). exists x. by rewrite !list_elem_of_In.
  - intros (x & Hx & Hy). exists x. by rewrite <- !list_elem_of_In.
Qed.





Lemma Join_normal (root name : string) : normal root -> normal (path.Join root name).
Proof.
  intros (es & Hes & ->). unfold path.Join.
  change (("/" +:+ path.join es) +:+ "/" +:+ name)
    with ("/" +:+ (path.join es +:+ "/" +:+ name)).
  cbn [String.eqb append]. rewrite Clean_rooted.
  eexists. split; [apply Clean_rooted_plain | reflexivity].
Qed.

Lemma visited_normal (n0 : vnode) :
  forall (root : string) (v : string * vnode),
    normal root -> v ∈ visited root n0 -> normal v.1.
Proof.
  induction n0 as [name mt size data re se | name mt re children IH | name e]
    using vnode_induction; intros root v Hr Hv.
  - by apply list_elem_of_singleton in Hv as ->.
  - cbn [visited] in Hv. apply elem_of_cons in Hv as [-> | Hv]; [exact Hr|].
    apply elem_of_flat_map in Hv as (c & Hc & Hv).
    rewrite Forall_forall in IH. apply (IH c Hc _ v (Join_normal _ _ Hr) Hv).
  - by apply list_elem_of_singleton in Hv as ->.
Qed.

Lemma normal_root : normal "/".
Proof. exists []. by split. Qed.

Lemma normal_Clean (p : string) : normal p -> path.Clean ("/" +:+ p) = p.
Proof.
  intros (es & Hes & ->). rewrite Clean_rooted. by rewrite clean_elems_rooted_join.
Qed.

(** *** Loading what the walk wrote *)











End WholeTree.



(** ** The paths of the walk *)

Lemma well_named_children (name : string) (mt : Time) (re : option string)
    (children : list vnode) :
  well_named (VDir name mt re children) ->
  NoDup (map vname children) /\
  Forall (fun c => plain_elem (vname c) /\ well_named c) children.
Proof.
  cbn [well_named]. intros [Hnd Hall]. split; [exact Hnd|]. clear Hnd.
  induction children as [|c cs IH]; [constructor|].
  destruct Hall as (Hp & Hc & Hcs). constructor; [done | by apply IH].
Qed.

Lemma clean_elems_snoc (es : list string) (nm : string) :
  Forall plain_elem es -> plain_elem nm ->
  path.clean_elems true (path.split (path.join es +:+ "/" +:+ nm)) = es ++ [nm].
Proof.
  intros Hes Hnm. rewrite split_app, (split_plain nm) by apply Hnm.
  assert (Forall plain_elem (es ++ [nm])) as Hall by (apply Forall_app; split; [done | by constructor]).
  destruct (decide (es = [])) as [->|Hne].
  - unfold path.clean_elems. cbn [path.join path.split app fold_left].
    change (path.clean_step true [] "") with (@nil string).
    change (path.clean_step true [] nm) with (fold_left (path.clean_step true) [nm] []).
    by rewrite fold_clean_step_plain.
  - rewrite split_join; [|eapply Forall_impl; [exact Hes|]; by intros e (_ & _ & _ & ?) | done].
    unfold path.clean_elems.
    by rewrite fold_clean_step_plain, app_nil_r, rev_involutive.
Qed.

Lemma Join_plain (es : list string) (nm : string) :
  Forall plain_elem es -> plain_elem nm ->
  path.Join ("/" +:+ path.join es) nm = "/" +:+ path.join (es ++ [nm]).
Proof.
  intros Hes Hnm. unfold path.Join.
  change (("/" +:+ path.join es) +:+ "/" +:+ nm)
    with ("/" +:+ (path.join es +:+ "/" +:+ nm)).
  cbn [String.eqb append]. by rewrite Clean_rooted, clean_elems_snoc.
Qed.

Lemma rooted_join_inj (a b : list string) :
  Forall plain_elem a -> Forall plain_elem b ->
  "/" +:+ path.join a = "/" +:+ path.join b -> a = b.
Proof.
  intros Ha Hb Heq.
  by rewrite <- (clean_elems_rooted_join a Ha), <- (clean_elems_rooted_join b Hb), Heq.
Qed.

Lemma velems_prefix (n : vnode) :
  forall (es l : list string), l ∈ velems es n -> es `prefix_of` l.
Proof.
  induction n as [name mt size data re se | name mt re children IH | name e]
    using vnode_induction; intros es l Hl.
  - by apply list_elem_of_singleton in Hl as ->.
  - cbn [velems] in Hl. apply elem_of_cons in Hl as [-> | Hl]; [done|].
    apply elem_of_flat_map in Hl as (c & Hc & Hl).
    rewrite Forall_forall in IH. eapply prefix_app_l, (IH c Hc), Hl.
  - by apply list_elem_of_singleton in Hl as ->.
Qed.

Lemma velems_plain (n : vnode) :
  forall (es l : list string),
    Forall plain_elem es -> well_named n -> l ∈ velems es n -> Forall plain_elem l.
Proof.
  induction n as [name mt size data re se | name mt re children IH | name e]
    using vnode_induction; intros es l Hes Hwn Hl.
  - by apply list_elem_of_singleton in Hl as ->.
  - cbn [velems] in Hl. apply elem_of_cons in Hl as [-> | Hl]; [done|].
    apply elem_of_flat_map in Hl as (c & Hc & Hl).
    apply well_named_children in Hwn as [_ Hall].
    rewrite Forall_forall in IH, Hall. destruct (Hall c Hc) as [Hpc Hwc].
    apply (IH c Hc (es ++ [vname c]) l); [|done..].
    apply Forall_app. split; [done | by constructor].
  - by apply list_elem_of_singleton in Hl as ->.
Qed.

Lemma velems_NoDup (n : vnode) :
  forall es : list string, well_named n -> NoDup (velems es n).
Proof.
  induction n as [name mt size data re se | name mt re children IH | name e]
    using vnode_induction; intros es Hwn.
  - apply NoDup_singleton.
  - cbn [velems]. apply NoDup_cons. split.
    + intros (c & Hc & Hl)%elem_of_flat_map.
      apply velems_prefix in Hl. by apply prefix_snoc_not in Hl.
    + apply well_named_children in Hwn as [Hnd Hall].
      induction IH as [|c cs Hc _ IHcs]; [constructor|].
      cbn [map] in Hnd. apply NoDup_cons in Hnd as [Hnc Hnd].
      apply Forall_cons in Hall as [[_ Hwc] Hall].
      cbn [flat_map]. apply NoDup_app. split; [by apply Hc|]. split; [|by apply IHcs].
      intros l Hl (c' & Hc' & Hl')%elem_of_flat_map.
      apply velems_prefix in Hl as [k1 ->]. apply velems_prefix in Hl' as [k2 Heq].
      rewrite <- !app_assoc in Heq. apply app_inv_head in Heq. injection Heq as Heq _.
      apply Hnc. rewrite Heq. apply list_elem_of_In, in_map. by apply list_elem_of_In.
  - apply NoDup_singleton.
Qed.

Lemma visited_velems (n : vnode) :
  forall es : list string,
    Forall plain_elem es -> well_named n ->
    (visited ("/" +:+ path.join es) n).*1
    = (fun l => "/" +:+ path.join l) <$> velems es n.
Proof.
  induction n as [name mt size data re se | name mt re children IH | name e]
    using vnode_induction; intros es Hes Hwn.
  - reflexivity.
  - cbn [visited velems]. rewrite !fmap_cons. cbn [fst]. f_equal.
    apply well_named_children in Hwn as [_ Hall].
    induction IH as [|c cs Hc _ IHcs]; [reflexivity|].
    apply Forall_cons in Hall as [[Hpc Hwc] Hall].
    cbn [flat_map]. rewrite !fmap_app, (IHcs Hall). f_equal.
    rewrite Join_plain by done. apply Hc; [|done].
    apply Forall_app. split; [done | by constructor].
  - reflexivity.
Qed.

Lemma visited_well_named (n0 : vnode) :
  forall (root : string) (v : string * vnode),
    well_named n0 -> v ∈ visited root n0 -> well_named v.2.
Proof.
  induction n0 as [name mt size data re se | name mt re children IH | name e]
    using vnode_induction; intros root v Hwn Hv.
  - by apply list_elem_of_singleton in Hv as ->.
  - cbn [visited] in Hv. apply elem_of_cons in Hv as [-> | Hv]; [exact Hwn|].
    apply elem_of_flat_map in Hv as (c & Hc & Hv).
    apply well_named_children in Hwn as [_ Hall].
    rewrite Forall_forall in IH, Hall. destruct (Hall c Hc) as [_ Hwc].
    exact (IH c Hc _ v Hwc Hv).
  - by apply list_elem_of_singleton in Hv as ->.
Qed.

Lemma well_named_NoDup (input : vnode) :
  well_named input -> NoDup (visited "/" input).*1.
Proof.
  intros Hwn.
  change "/" with ("/" +:+ path.join []). rewrite visited_velems by done.
  apply NoDup_fmap_2_strong; [|by apply velems_NoDup].
  intros a b Ha Hb. apply rooted_join_inj.
  - by apply (velems_plain input [] a).
  - by apply (velems_plain input [] b).
Qed.

(** X12. When the entries of every directory of the input have plain
    names (not empty, not ["."], not [".."], no separator inside) and no
    two entries of a directory have the same name, no two nodes are
    visited under the same path, so that no key is written twice into
    the map literal; and the path under which a child is visited, which
    is also the entry recorded for it, is the elements of the path of
    its directory followed by its name. *)
Theorem well_named_input_has_distinct_paths (input : vnode) :
  well_named input ->
  NoDup (visited "/" input).*1 /\
  forall (p name : string) (mt : Time) (re : option string) (children : list vnode)
         (c : vnode),
    (p, VDir name mt re children) ∈ visited "/" input -> c ∈ children ->
    exists es, Forall plain_elem es /\ p = "/" +:+ path.join es /\
               path.Join p (vname c) = "/" +:+ path.join (es ++ [vname c]).
Proof.
  intros Hwn. split.
  - by apply well_named_NoDup.
  - intros p name mt re children c Hv Hc.
    destruct (visited_normal input "/" _ normal_root Hv) as (es & Hes & Hp).
    cbn [fst] in Hp. exists es. split; [exact Hes|]. split; [exact Hp|].
    apply (visited_well_named input "/" _ Hwn), well_named_children in Hv as [_ Hall].
    rewrite Forall_forall in Hall. destruct (Hall c Hc) as [Hpc _].
    rewrite Hp. by apply Join_plain.
Qed.

Lemma well_named_input_has_distinct_paths_witness :
  NoDup (visited "/" sample_tree).*1 /\
  path.Join "/sub" "b" = "/sub/b".
Proof.
  assert (well_named sample_tree) as Hwn.
  { cbn. repeat split; try discriminate; apply (bool_decide_unpack _); vm_compute; reflexivity. }
  destruct (well_named_input_has_distinct_paths sample_tree Hwn) as [Hnd Hjoin].
  split; [exact Hnd|].
  destruct (Hjoin "/sub" "sub" 2 None [VFile "b" 3 2 two_bytes None None]
              (VFile "b" 3 2 two_bytes None None)) as (es & Hes & Hp & Hj).
  - apply list_elem_of_In. right. right. left. reflexivity.
  - apply list_elem_of_here.
  - reflexivity.
Defined.

(** * The file server *)

(** ** Strings *)

Lemma append_assoc (a b c : string) : (a +:+ b) +:+ c = a +:+ b +:+ c.
Proof.
  induction a as [|x a IH]; [done|].
  change (String x ((a +:+ b) +:+ c) = String x (a +:+ b +:+ c)). by rewrite IH.
Qed.

Lemma append_nil_r (a : string) : a +:+ "" = a.
Proof.
  induction a as [|x a IH]; [done|]. change (String x (a +:+ "") = String x a). by rewrite IH.
Qed.

Lemma length_append (a b : string) :
  String.length (a +:+ b) = (String.length a + String.length b)%nat.
Proof.
  induction a as [|x a IH]; [done|].
  change (S (String.length (a +:+ b)) = S (String.length a + String.length b)).
  by rewrite IH.
Qed.

Lemma list_ascii_of_string_app (a b : string) :
  list_ascii_of_string (a +:+ b) = list_ascii_of_string a ++ list_ascii_of_string b.
Proof.
  induction a as [|x a IH]; [done|].
  change (x :: list_ascii_of_string (a +:+ b)
          = x :: list_ascii_of_string a ++ list_ascii_of_string b).
  by rewrite IH.
Qed.

Lemma string_of_list_ascii_app (a b : list ascii) :
  string_of_list_ascii (a ++ b) = string_of_list_ascii a +:+ string_of_list_ascii b.
Proof.
  induction a as [|x a IH]; [done|].
  change (String x (string_of_list_ascii (a ++ b))
          = String x (string_of_list_ascii a +:+ string_of_list_ascii b)).
  by rewrite IH.
Qed.

Lemma reverse_app (a b : string) :
  strings.reverse (a +:+ b) = strings.reverse b +:+ strings.reverse a.
Proof.
  unfold strings.reverse. by rewrite list_ascii_of_string_app, rev_app_distr,
    string_of_list_ascii_app.
Qed.

Lemma reverse_involutive (a : string) : strings.reverse (strings.reverse a) = a.
Proof.
  unfold strings.reverse.
  by rewrite list_ascii_of_string_of_list_ascii, rev_involutive, string_of_list_ascii_of_string.
Qed.

Lemma length_reverse (a : string) : String.length (strings.reverse a) = String.length a.
Proof.
  unfold strings.reverse. rewrite <- (string_of_list_ascii_of_string a) at 2.
  generalize (list_ascii_of_string a). intros l.
  assert (forall l, String.length (string_of_list_ascii l) = length l) as Hl.
  { clear. induction l as [|x l IH]; cbn; [done | by f_equal]. }
  by rewrite !Hl, length_rev.
Qed.

Lemma Split_nonempty (s : string) (sep : ascii) : strings.Split s sep <> [].
Proof.
  induction s as [|c s IH]; cbn; [done|].
  destruct (Ascii.eqb c sep); [done|]. by destruct (strings.Split s sep).
Qed.

Lemma Split_app (a b : string) (sep : ascii) :
  strings.Split (a +:+ String sep b) sep = strings.Split a sep ++ strings.Split b sep.
Proof.
  induction a as [|c a IH].
  - change ("" +:+ String sep b) with (String sep b). cbn. by rewrite Ascii.eqb_refl.
  - change (String c a +:+ String sep b) with (String c (a +:+ String sep b)).
    cbn [strings.Split]. rewrite IH.
    destruct (Ascii.eqb c sep); [reflexivity|].
    pose proof (Split_nonempty a sep). by destruct (strings.Split a sep).
Qed.

Lemma cut_Some (p s s' : string) : strings.cut p s = Some s' -> s = p +:+ s'.
Proof.
  revert s. induction p as [|a p IH]; intros s.
  - cbn. intros [= ->]. reflexivity.
  - destruct s as [|b s]; cbn; [done|].
    destruct (Ascii.eqb_spec a b) as [->|]; [|done]. intros H.
    change (String b s = String b (p +:+ s')). by rewrite (IH _ H).
Qed.

Lemma cut_app (p s : string) : strings.cut p (p +:+ s) = Some s.
Proof.
  induction p as [|a p IH]; [done|].
  change (String a p +:+ s) with (String a (p +:+ s)). cbn. by rewrite Ascii.eqb_refl.
Qed.

Lemma cut_space_Some (ws : list string) (s s' : string) :
  strings.cut_space ws s = Some s' -> exists w, w ∈ ws /\ s = w +:+ s'.
Proof.
  induction ws as [|w ws IH]; [done|]. cbn.
  destruct (strings.cut w s) as [t|] eqn:E.
  - intros [= ->]. exists w. split; [left | by apply cut_Some].
  - intros (w' & Hw' & ->)%IH. exists w'. split; [by right | done].
Qed.

(** What [trim_left] removes is made of spaces. *)
Lemma trim_left_made_of (ws : list string) (fuel : nat) :
  forall s, exists l, made_of ws l /\ s = l +:+ strings.trim_left ws fuel s.
Proof.
  induction fuel as [|fuel IH]; intros s.
  - exists "". split; [constructor | done].
  - cbn. destruct (strings.cut_space ws s) as [s'|] eqn:E.
    + apply cut_space_Some in E as (w & Hw & ->).
      destruct (IH s') as (l & Hl & Heq). exists (w +:+ l).
      split; [by constructor|]. by rewrite append_assoc, <- Heq.
    + exists "". split; [constructor | done].
Qed.

(** [trim_left] removes the spaces in front of a string that begins
    with none; the length of the string is fuel enough. *)
Lemma trim_left_spaces (ws : list string) (t : string) :
  (forall w x, w ∈ ws -> strings.cut_space ws (w +:+ x) = Some x) ->
  (forall w, w ∈ ws -> (1 <= String.length w)%nat) ->
  strings.cut_space ws t = None ->
  forall l, made_of ws l ->
            forall fuel, (String.length l <= fuel)%nat ->
                         strings.trim_left ws fuel (l +:+ t) = t.
Proof.
  intros Hcut Hlen Ht l Hl.
  induction Hl as [|w l Hw Hl IH]; intros fuel Hfuel.
  - change ("" +:+ t) with t. destruct fuel; cbn; [done|]. by rewrite Ht.
  - rewrite length_append in Hfuel. pose proof (Hlen w Hw).
    destruct fuel as [|fuel]; [lia|].
    cbn [strings.trim_left]. rewrite append_assoc, Hcut by done. apply IH. lia.
Qed.

Lemma made_of_app (ws : list string) (a b : string) :
  made_of ws a -> made_of ws b -> made_of ws (a +:+ b).
Proof.
  induction 1 as [|w a Hw Ha IH]; [done|]. intros Hb.
  rewrite append_assoc. constructor; [done | by apply IH].
Qed.

Lemma made_of_reverse (ws : list string) (s : string) :
  made_of ws s -> made_of (map strings.reverse ws) (strings.reverse s).
Proof.
  induction 1 as [|w s Hw Hs IH]; [constructor|].
  rewrite reverse_app. apply made_of_app; [done|].
  rewrite <- (append_nil_r (strings.reverse w)). constructor; [|constructor].
  apply list_elem_of_In, in_map. by apply list_elem_of_In.
Qed.

Lemma made_of_unreverse (ws : list string) (s : string) :
  made_of (map strings.reverse ws) s -> made_of ws (strings.reverse s).
Proof.
  induction 1 as [|w s Hw Hs IH]; [constructor|].
  rewrite reverse_app. apply made_of_app; [done|].
  apply list_elem_of_In, in_map_iff in Hw as (w0 & <- & Hw0).
  rewrite reverse_involutive, <- (append_nil_r w0).
  constructor; [by apply list_elem_of_In | constructor].
Qed.

Lemma white_space_cut (w x : string) :
  w ∈ strings.white_space -> strings.cut_space strings.white_space (w +:+ x) = Some x.
Proof.
  intros Hw. apply list_elem_of_In in Hw. cbv [strings.white_space map] in Hw.
  repeat (destruct Hw as [<- | Hw]; [reflexivity|]). destruct Hw.
Qed.

Lemma white_space_reverse_cut (w x : string) :
  w ∈ map strings.reverse strings.white_space ->
  strings.cut_space (map strings.reverse strings.white_space) (w +:+ x) = Some x.
Proof.
  intros Hw. apply list_elem_of_In in Hw. cbv [strings.white_space map] in Hw.
  repeat (destruct Hw as [<- | Hw]; [reflexivity|]). destruct Hw.
Qed.

Lemma white_space_length (w : string) :
  w ∈ strings.white_space -> (1 <= String.length w)%nat.
Proof.
  intros Hw. apply list_elem_of_In in Hw. cbv [strings.white_space map] in Hw.
  repeat (destruct Hw as [<- | Hw]; [cbn; lia|]). destruct Hw.
Qed.

Lemma white_space_reverse_length (w : string) :
  w ∈ map strings.reverse strings.white_space -> (1 <= String.length w)%nat.
Proof.
  intros (w0 & <- & Hw0)%list_elem_of_In%in_map_iff.
  rewrite length_reverse. by apply white_space_length, list_elem_of_In.
Qed.

(** [TrimSpace] removes white space only, at both ends. *)
Lemma TrimSpace_made_of (v : string) :
  exists l r, spaces l /\ spaces r /\ v = l +:+ strings.TrimSpace v +:+ r.
Proof.
  unfold strings.TrimSpace. cbv zeta.
  destruct (trim_left_made_of strings.white_space (String.length v) v) as (l & Hl & Hv).
  set (t := strings.trim_left strings.white_space (String.length v) v) in *.
  destruct (trim_left_made_of (map strings.reverse strings.white_space)
              (String.length t) (strings.reverse t)) as (r & Hr & Ht).
  set (u := strings.trim_left _ (String.length t) (strings.reverse t)) in *.
  exists l, (strings.reverse r). split; [exact Hl|]. split; [by apply made_of_unreverse|].
  rewrite <- reverse_app, <- Ht, reverse_involutive. exact Hv.
Qed.

(** A word between spaces is what [TrimSpace] leaves, when the word
    neither begins nor ends with a space. *)
Lemma TrimSpace_word (l r word : string) :
  spaces l -> spaces r ->
  (forall x, strings.cut_space strings.white_space (word +:+ x) = None) ->
  (forall x, strings.cut_space (map strings.reverse strings.white_space)
               (strings.reverse word +:+ x) = None) ->
  strings.TrimSpace (l +:+ word +:+ r) = word.
Proof.
  intros Hl Hr Hw Hw'. unfold strings.TrimSpace. cbv zeta.
  rewrite (trim_left_spaces strings.white_space (word +:+ r));
    [|apply white_space_cut | apply white_space_length | apply Hw | exact Hl
     | rewrite length_append; lia].
  rewrite reverse_app.
  rewrite (trim_left_spaces (map strings.reverse strings.white_space) (strings.reverse word));
    [apply reverse_involutive | apply white_space_reverse_cut | apply white_space_reverse_length
     | | by apply made_of_reverse | rewrite length_append, length_reverse; lia].
  rewrite <- (append_nil_r (strings.reverse word)). apply Hw'.
Qed.

(** ** The encodings that a request accepts *)

(** X13. [isGzipEncodingAccepted] holds exactly when one of the
    elements of the [Accept-Encoding] header between commas is the word
    [gzip] with nothing but white space before and after it: the word
    in another case, or with a parameter such as a quality value, is no
    match. The answer for a header is the disjunction of the answers
    for its parts on either side of a comma. *)
Theorem isGzipEncodingAccepted_tokens (p q h a b : string) :
  (gzip_file_server.isGzipEncodingAccepted (gzip_file_server.mkRequest p q h) = true <->
   exists v l r, v ∈ strings.Split h ","%char /\ spaces l /\ spaces r /\
                 v = l +:+ "gzip" +:+ r) /\
  gzip_file_server.isGzipEncodingAccepted (gzip_file_server.mkRequest p q (a +:+ "," +:+ b))
  = gzip_file_server.isGzipEncodingAccepted (gzip_file_server.mkRequest p q a)
    || gzip_file_server.isGzipEncodingAccepted (gzip_file_server.mkRequest p q b).
Proof.
  unfold gzip_file_server.isGzipEncodingAccepted. cbn [gzip_file_server.Accept_Encoding].
  split.
  - rewrite existsb_exists. split.
    + intros (v & Hv & Heq). apply String.eqb_eq in Heq.
      destruct (TrimSpace_made_of v) as (l & r & Hl & Hr & Hdec).
      exists v, l, r. rewrite Heq in Hdec. by rewrite list_elem_of_In.
    + intros (v & l & r & Hv & Hl & Hr & ->).
      exists (l +:+ "gzip" +:+ r). split; [by apply list_elem_of_In|].
      apply String.eqb_eq. by apply TrimSpace_word.
  - change (a +:+ "," +:+ b) with (a +:+ String ","%char b).
    by rewrite Split_app, existsb_app.
Qed.

(** ** Requests on a table *)

Lemma served_url_rooted (r : gzip_file_server.Request) :
  exists u, served_url r = "/" +:+ u.
Proof.
  unfold served_url, strings.HasPrefix.
  destruct (gzip_file_server.URL_Path r) as [|c u]; [by exists ""|].
  change (String.prefix "/" (String c u))
    with (if ascii_dec "/" c then String.prefix "" u else false).
  destruct (ascii_dec "/" c) as [<-|]; [|by eexists].
  exists u. by destruct u.
Qed.

Lemma last_byte_rooted (u : string) : gzip_file_server.last_byte ("/" +:+ u) <> None.
Proof.
  change ("/" +:+ u) with (String "/" u). generalize "/"%char.
  induction u as [|c u IH]; intros a; [done|]. cbn. apply IH.
Qed.

Lemma Clean_normal (u : string) : normal (path.Clean ("/" +:+ u)).
Proof. rewrite Clean_rooted. eexists. split; [apply Clean_rooted_plain | done]. Qed.

Section Requests.
Context `{C : gzip.Codec}.
Variable url_String : string -> string.
Variable html_EscapeString : string -> string.
Variable url_Query : string -> list string.
Variable sort_Sort : (ptr -> ptr -> bool) -> list ptr -> list ptr.

Local Abbreviation ServeHTTP :=
  (gzip_file_server.ServeHTTP url_String html_EscapeString url_Query sort_Sort).

(** X14. What [ServeHTTP] answers on a table whose compressed payloads
    the compressor wrote. The node is looked up under the normalised
    path of the request. A path without a node is answered with the
    error of [Open] and status 500. A directory requested without a
    trailing separator, and a file requested with one, are redirected
    (status 301) to the last element with the separator and to the
    last element in the directory above. A file is served through
    [http.ServeContent] under its recorded name and modification time:
    the stored payload with [Content-Encoding: gzip] exactly when the
    node is compressed and the request accepts gzip, the handle
    otherwise. In all these cases nothing panics, no fuel is needed and
    the table is left as it was. *)
Theorem ServeHTTP_answers (fuel : nat) (root : FS.t) (r : gzip_file_server.Request) :
  generated root ->
  let url := served_url r in
  let p := path.Clean url in
  match root !! p with
  | None =>
      ServeHTTP fuel root r
      = Some (Ret (root, [gzip_file_server.http_Error (PathError "open" p ErrNotExist)
                            gzip_file_server.StatusInternalServerError]))
  | Some n =>
      match is_directory n, ends_with_slash url with
      | true, false =>
          ServeHTTP fuel root r
          = Some (Ret (root, gzip_file_server.localRedirect r (path.Base url +:+ "/")))
      | false, true =>
          ServeHTTP fuel root r
          = Some (Ret (root, gzip_file_server.localRedirect r ("../" +:+ path.Base url)))
      | false, false =>
          exists h, FS.Open root p = Ret (inl h) /\ opened_on h = n /\ fresh h /\
                    ServeHTTP fuel root r
                    = Some (Ret (root, plain_header url_Query r ++ content_calls r n h))
      | true, true =>
          exists d, FS.Open root p = Ret (inl (HDir d)) /\ opened_on (HDir d) = n /\
                    Dir.pos d = 0
      end
  end.
Proof.
  intros Hgen url p.
  destruct (served_url_rooted r) as [u Hu].
  assert (normal p) as Hp by (unfold p, url; rewrite Hu; apply Clean_normal).
  assert (exists c, gzip_file_server.last_byte url = Some c) as [c Hc].
  { unfold url. rewrite Hu. pose proof (last_byte_rooted u).
    destruct (gzip_file_server.last_byte ("/" +:+ u)); [by eexists | done]. }
  assert (ServeHTTP fuel root r
          = gzip_file_server.serveFile url_String html_EscapeString url_Query sort_Sort fuel
              (gzip_file_server.mkRequest url (gzip_file_server.URL_RawQuery r)
                 (gzip_file_server.Accept_Encoding r)) root p) as ->.
  { unfold gzip_file_server.ServeHTTP, p, url, served_url.
    destruct (strings.HasPrefix _ _); [by destruct r | done]. }
  unfold gzip_file_server.serveFile, FS.Open. rewrite (normal_Clean p Hp).
  cbn [gzip_file_server.URL_Path]. rewrite Hc. unfold ends_with_slash. rewrite Hc.
  destruct (root !! p) as [[f|f|d]|] eqn:Hlook; cbn [is_directory].
  - destruct (Hgen p f Hlook) as [data Hdata].
    unfold gzip.NewReader, gzip.start. rewrite Hdata, gzip.decode_compress.
    cbn [Stat IsDir CompressedFile.info CompressedFileInfo.IsDir andb negb].
    destruct (Ascii.eqb c "/"); [done|].
    eexists. split; [reflexivity|]. split; [done|]. split.
    + cbn. unfold payload. cbn. rewrite Hdata. repeat split; try done.
      exists data. split; [apply gzip.decode_compress | done].
    + unfold content_calls, plain_header. cbn [GzipBytes CompressedFile.info].
      change (gzip_file_server.isGzipEncodingAccepted (gzip_file_server.mkRequest _ _ _))
        with (gzip_file_server.isGzipEncodingAccepted r).
      by destruct (gzip_file_server.isGzipEncodingAccepted r).
  - cbn [Stat IsDir File.info FileInfo.IsDir andb negb].
    destruct (Ascii.eqb c "/"); [done|].
    eexists. split; [reflexivity|]. by repeat split.
  - cbn [Stat IsDir Dir.info DirInfo.IsDir andb negb].
    destruct (Ascii.eqb c "/"); [|done]. by eexists.
  - done.
Qed.

End Requests.

Lemma generated_sample_table : generated (C := rle_codec) sample_table.
Proof.
  unfold sample_table.
  apply generated_insert_other; [by left|].
  apply (generated_insert_compressed (C := rle_codec) _ "/a.txt" "a.txt" 1 ten_As 10).
  apply generated_insert_other; [by left|].
  apply generated_insert_other; [right; by eexists|].
  apply generated_empty.
Qed.

Lemma ServeHTTP_answers_witness :
  gzip_file_server.ServeHTTP (C := rle_codec) id id (fun _ => []) (fun _ l => l) 0 sample_table
    (gzip_file_server.mkRequest "a.txt" "" "deflate, gzip")
  = Some (Ret (sample_table,
               [gzip_file_server.Header_Set "Content-Encoding" "gzip";
                gzip_file_server.http_ServeContent "a.txt" 1
                  (gzip_file_server.FromBytes (rle.compress ten_As))])).
Proof.
  pose proof (ServeHTTP_answers (C := rle_codec) id id (fun _ => []) (fun _ l => l) 0
                sample_table (gzip_file_server.mkRequest "a.txt" "" "deflate, gzip")
                generated_sample_table) as H.
  cbv zeta in H.
  assert (sample_table
            !! path.Clean (served_url (gzip_file_server.mkRequest "a.txt" "" "deflate, gzip"))
          = Some (NCompressed (CompressedFileInfo.mk "a.txt" 1 (rle.compress ten_As) 10)))
    as Hl by (vm_compute; reflexivity).
  rewrite Hl in H. cbn [is_directory] in H.
  change (ends_with_slash (served_url (gzip_file_server.mkRequest "a.txt" "" "deflate, gzip")))
    with false in H.
  destruct H as (h & _ & _ & _ & H). rewrite H. reflexivity.
Defined.

(** ** From the input to the response *)

Section ServedFiles.
Context `{C : gzip.Codec}.
Variable url_String : string -> string.
Variable html_EscapeString : string -> string.
Variable url_Query : string -> list string.
Variable sort_Sort : (ptr -> ptr -> bool) -> list ptr -> list ptr.
Variable fillMissing : Options -> Options.

Local Abbreviation ServeHTTP :=
  (gzip_file_server.ServeHTTP url_String html_EscapeString url_Query sort_Sort).

Lemma ServeHTTP_file (fuel : nat) (root : FS.t) (r : gzip_file_server.Request) (n : node) :
  generated root ->
  root !! path.Clean (served_url r) = Some n ->
  is_directory n = false ->
  ends_with_slash (served_url r) = false ->
  exists h, FS.Open root (path.Clean (served_url r)) = Ret (inl h) /\
            ServeHTTP fuel root r
            = Some (Ret (root, plain_header url_Query r ++ content_calls r n h)).
Proof.
  intros Hgen Hlook Hdir Hslash.
  set (url := served_url r) in *. set (p := path.Clean url) in *.
  destruct (served_url_rooted r) as [u Hu]. fold url in Hu.
  assert (normal p) as Hp by (unfold p; rewrite Hu; apply Clean_normal).
  assert (exists c, gzip_file_server.last_byte url = Some c) as [c Hc].
  { rewrite Hu. pose proof (last_byte_rooted u).
    destruct (gzip_file_server.last_byte ("/" +:+ u)); [by eexists | done]. }
  assert (ServeHTTP fuel root r
          = gzip_file_server.serveFile url_String html_EscapeString url_Query sort_Sort fuel
              (gzip_file_server.mkRequest url (gzip_file_server.URL_RawQuery r)
                 (gzip_file_server.Accept_Encoding r)) root p) as ->.
  { unfold gzip_file_server.ServeHTTP, p, url, served_url.
    destruct (strings.HasPrefix _ _); [by destruct r | done]. }
  unfold ends_with_slash in Hslash. rewrite Hc in Hslash.
  unfold gzip_file_server.serveFile, FS.Open. rewrite (normal_Clean p Hp), Hlook.
  cbn [gzip_file_server.URL_Path]. rewrite Hc, Hslash.
  destruct n as [f|f|d]; [| |discriminate].
  - destruct (Hgen p f Hlook) as [data Hdata].
    unfold gzip.NewReader, gzip.start. rewrite Hdata, gzip.decode_compress.
    cbn [Stat IsDir CompressedFile.info CompressedFileInfo.IsDir andb negb].
    eexists. split; [reflexivity|].
    unfold content_calls, plain_header. cbn [GzipBytes CompressedFile.info].
    change (gzip_file_server.isGzipEncodingAccepted (gzip_file_server.mkRequest _ _ _))
      with (gzip_file_server.isGzipEncodingAccepted r).
    by destruct (gzip_file_server.isGzipEncodingAccepted r).
  - cbn [Stat IsDir File.info FileInfo.IsDir andb negb].
    eexists. split; reflexivity.
Qed.


End ServedFiles.


(** ** Directory listings of the server *)

Lemma leb_trans (a b c : string) :
  Strings.String.leb a b = true -> Strings.String.leb b c = true ->
  Strings.String.leb a c = true.
Proof.
  unfold Strings.String.leb. revert b c.
  induction a as [|x a IH]; intros [|y b] [|z c]; cbn; try done.
  unfold Ascii.compare.
  destruct (N.compare_spec (N_of_ascii x) (N_of_ascii y)) as [Hxy|Hxy|Hxy]; try done;
    destruct (N.compare_spec (N_of_ascii y) (N_of_ascii z)) as [Hyz|Hyz|Hyz]; try done.
  - rewrite Hxy, Hyz, N.compare_refl. apply IH.
  - intros _ _. rewrite Hxy. by rewrite (proj2 (N.compare_lt_iff _ _) Hyz).
  - intros _ _. rewrite <- Hyz. by rewrite (proj2 (N.compare_lt_iff _ _) Hxy).
  - intros _ _. rewrite (proj2 (N.compare_lt_iff _ _)); [done | lia].
Qed.

#[global] Instance str_le_trans : Transitive str_le.
Proof. intros a b c. apply leb_trans. Qed.

#[global] Instance str_le_antisym : AntiSymm (=) str_le.
Proof. intros a b. apply Strings.String.leb_antisym. Qed.

Lemma leb_refl (a : string) : Strings.String.leb a a = true.
Proof. by destruct (Strings.String.leb_total a a). Qed.

Lemma fmap_inj_Permutation {A B : Type} (f : A -> B) (l : list A) :
  NoDup (f <$> l) -> forall l', l' ≡ₚ l -> f <$> l' = f <$> l -> l' = l.
Proof.
  induction l as [|x l IH]; intros Hnd l' Hp Heq.
  - by apply Permutation_nil_r in Hp.
  - destruct l' as [|x' l']; [discriminate|]. cbn in Heq. injection Heq as Hx Hl.
    rewrite fmap_cons in Hnd. apply NoDup_cons in Hnd as [Hnx Hnd].
    assert (x' = x) as ->.
    { assert (x' ∈ x :: l) as Hin by (rewrite <- Hp; left).
      apply elem_of_cons in Hin as [-> | Hin]; [done|].
      exfalso. apply Hnx. rewrite <- Hx. by apply list_elem_of_fmap_2. }
    f_equal. apply IH; [done | by apply Permutation_cons_inv in Hp | done].
Qed.

Lemma Less_false (fs : FS.t) (a b : ptr) :
  gzip_file_server.Less fs b a = false <->
  str_le (gzip_file_server.entry_Name fs a) (gzip_file_server.entry_Name fs b).
Proof. unfold gzip_file_server.Less, str_le. by rewrite negb_false_iff. Qed.

Lemma names_ascending_NoDup (fs : FS.t) (l : list ptr) :
  names_ascending fs l -> NoDup (gzip_file_server.entry_Name fs <$> l).
Proof.
  induction 1 as [|x l Hl IH Hx]; [constructor|].
  rewrite fmap_cons. apply NoDup_cons. split; [|done].
  intros (y & Heq & Hy)%list_elem_of_fmap.
  rewrite Forall_forall in Hx. specialize (Hx y Hy).
  unfold gzip_file_server.Less in Hx. rewrite Heq, leb_refl in Hx. discriminate.
Qed.

Lemma names_ascending_Sorted (fs : FS.t) (l : list ptr) :
  names_ascending fs l -> Sorted str_le (gzip_file_server.entry_Name fs <$> l).
Proof.
  intros Hl.
  apply (Sorted_fmap _ (fun a b => gzip_file_server.Less fs a b = true));
    [|by apply StronglySorted_Sorted].
  intros a b Hab.
  unfold gzip_file_server.Less in Hab. apply negb_true_iff in Hab.
  destruct (Strings.String.leb_total (gzip_file_server.entry_Name fs a)
              (gzip_file_server.entry_Name fs b)); [done | congruence].
Qed.

Lemma take_drop_length {A : Type} (n : nat) (l : list A) :
  take n l ++ drop (length (take n l)) l = l.
Proof.
  rewrite length_take.
  destruct (Nat.min_spec n (length l)) as [[_ ->] | [Hle ->]]; [apply take_drop|].
  by rewrite take_ge, drop_all, app_nil_r.
Qed.

Section Listing.
Context `{C : gzip.Codec}.
Variable url_String : string -> string.
Variable html_EscapeString : string -> string.
Variable url_Query : string -> list string.
Variable sort_Sort : (ptr -> ptr -> bool) -> list ptr -> list ptr.
Hypothesis sort_ok : sorts sort_Sort.

Local Abbreviation line := (gzip_file_server.entry_line url_String html_EscapeString).

(** Sorting entries whose names are already in strictly ascending
    order changes nothing. *)
Lemma sort_ascending (fs : FS.t) (l : list ptr) :
  names_ascending fs l -> sort_Sort (gzip_file_server.Less fs) l = l.
Proof.
  intros Hl. destruct (sort_ok fs l) as [Hp Hs].
  apply (fmap_inj_Permutation (gzip_file_server.entry_Name fs)); [|done|].
  - by apply names_ascending_NoDup.
  - apply (Sorted_unique str_le).
    + apply (Sorted_fmap _ (fun a b => gzip_file_server.Less fs b a = false)); [|exact Hs].
      intros a b. apply Less_false.
    + by apply names_ascending_Sorted.
    + by rewrite Hp.
Qed.

Lemma Readdir_100 (d : Dir.t) :
  dir_wf d ->
  let es := DirInfo.entries (Dir.info d) in
  let p := Z.to_nat (Dir.pos d) in
  Dir.Readdir d 100
  = if decide (length es <= p)%nat then Ret (d, ([], Some EOF))
    else Ret (Dir.mk (Dir.info d) (Dir.pos d + len (take 100 (drop p es))),
              (take 100 (drop p es), None)).
Proof.
  intros Hwf. pose proof Hwf as [Hp Hl]. rewrite (Readdir_spec d 100 Hwf). cbv zeta.
  set (es := DirInfo.entries (Dir.info d)) in *. unfold len in *.
  destruct (decide (length es <= Z.to_nat (Dir.pos d))%nat) as [Hend|Hmore].
  - destruct (Z.geb_spec (Dir.pos d) (Z.of_nat (length es))); [done | lia].
  - destruct (Z.geb_spec (Dir.pos d) (Z.of_nat (length es))); [lia|]. cbn [andb].
    assert (Z.to_nat (batch 100 (Z.of_nat (length es) - Dir.pos d))
            = Nat.min 100 (length (drop (Z.to_nat (Dir.pos d)) es))) as Hk.
    { rewrite length_drop. unfold batch. change (100 <=? 0) with false. cbn [orb].
      destruct (Z.gtb_spec 100 (Z.of_nat (length es) - Dir.pos d)); lia. }
    assert (take (Z.to_nat (batch 100 (Z.of_nat (length es) - Dir.pos d)))
              (drop (Z.to_nat (Dir.pos d)) es)
            = take 100 (drop (Z.to_nat (Dir.pos d)) es)) as ->.
    { rewrite Hk. destruct (Nat.min_spec 100 (length (drop (Z.to_nat (Dir.pos d)) es)))
        as [[_ ->] | [Hle ->]]; [done|].
      by rewrite firstn_all, take_ge. }
    do 3 f_equal. rewrite length_take, <- Hk.
    unfold batch. change (100 <=? 0) with false. cbn [orb].
    destruct (Z.gtb_spec 100 (Z.of_nat (length es) - Dir.pos d)); lia.
Qed.

(** The loop of [dirList] from a cursor within the entries: it ends
    without a panic, with one line per entry from the cursor on; the
    entries of the directory are permuted from the cursor on. *)
Lemma dirList_loop_spec (fs : FS.t) (fuel : nat) :
  forall (d : Dir.t) (acc : list gzip_file_server.call),
    dir_wf d ->
    Forall (fun e => is_Some (fs !! e)) (DirInfo.entries (Dir.info d)) ->
    (length (DirInfo.entries (Dir.info d)) - Z.to_nat (Dir.pos d) < fuel)%nat ->
    let es := DirInfo.entries (Dir.info d) in
    let p := Z.to_nat (Dir.pos d) in
    exists es',
      gzip_file_server.dirList_loop url_String html_EscapeString sort_Sort fuel fs d acc
      = Some (Ret (Dir.mk (DirInfo.mk (DirInfo.name (Dir.info d))
                             (DirInfo.modTime (Dir.info d)) es') (len es),
                   acc ++ map (line fs) (drop p es'))) /\
      es' ≡ₚ es /\
      take p es' = take p es /\
      (names_ascending fs (drop p es) -> es' = es) /\
      ((length es - p <= 100)%nat ->
       drop p es' = sort_Sort (gzip_file_server.Less fs) (drop p es)).
Proof.
  induction fuel as [|fuel IH]; intros d acc Hwf Hres Hfuel; [lia|]. cbv zeta.
  pose proof Hwf as [Hp Hl].
  cbn [gzip_file_server.dirList_loop]. rewrite (Readdir_100 d Hwf). cbv zeta.
  destruct d as [[nm mt es] pos]. cbn [Dir.info Dir.pos DirInfo.entries DirInfo.name
                                        DirInfo.modTime] in *.
  unfold len in *. set (p := Z.to_nat pos) in *.
  destruct (decide (length es <= p)%nat) as [Hend|Hmore].
  - exists es. rewrite (drop_ge es p) by done. cbn [map]. rewrite app_nil_r.
    split; [do 4 f_equal; lia|]. split; [done|]. split; [done|]. split; [done|].
    intros _. destruct (sort_ok fs []) as [Hperm _]. symmetry. by apply Permutation_nil_r.
  - set (dirs := take 100 (drop p es)).
    assert (length dirs = Nat.min 100 (length es - p)) as Hlen
        by (unfold dirs; rewrite length_take, length_drop; lia).
    assert (drop p es = dirs ++ drop (p + length dirs) es) as Hsplit.
    { rewrite <- drop_drop. symmetry. apply take_drop_length. }
    assert (Forall (fun e => is_Some (fs !! e)) dirs) as Hrd
        by (unfold dirs; by apply Forall_take, Forall_drop).
    clearbody dirs.
    assert (forall A B : option (outcome (Dir.t * list gzip_file_server.call)),
               match dirs with [] => A | _ :: _ => B end = B) as Hm
        by (intros A B; destruct dirs; [|done];
            change (length (@nil ptr)) with 0%nat in Hlen; lia).
    rewrite Hm. clear Hm.
    assert (forallb (fun e => bool_decide (is_Some (fs !! e))) dirs = true) as ->.
    { apply forallb_forall. intros x Hx. apply bool_decide_eq_true.
      rewrite Forall_forall in Hrd. by apply Hrd, list_elem_of_In. }
    cbn [Dir.pos].
    assert (Z.to_nat (pos + Z.of_nat (length dirs)) = (p + length dirs)%nat) as -> by lia.
    destruct (sort_ok fs dirs) as [Hperm _].
    set (sorted := sort_Sort (gzip_file_server.Less fs) dirs) in *.
    assert (length sorted = length dirs) as Hls by (by rewrite Hperm).
    set (es1 := take p es ++ sorted ++ drop (p + length dirs) es).
    assert (es1 ≡ₚ es) as Hp1.
    { unfold es1. rewrite Hperm, <- Hsplit. by rewrite take_drop. }
    assert (length es1 = length es) as Hl1 by (by rewrite Hp1).
    assert (length (take p es ++ sorted) = (p + length dirs)%nat) as Hpre
        by (rewrite length_app, length_take; lia).
    assert (take (p + length dirs) es1 = take p es ++ sorted) as Htake1.
    { unfold es1. rewrite app_assoc, <- Hpre. apply take_app_length. }
    assert (drop (p + length dirs) es1 = drop (p + length dirs) es) as Hdrop1.
    { unfold es1. rewrite app_assoc, <- Hpre. apply drop_app_length. }
    destruct (IH (Dir.mk (DirInfo.mk nm mt es1) (pos + Z.of_nat (length dirs)))
                (acc ++ map (line fs) sorted))
      as (es' & Hloop & Hpe & Htk & Hasc & Hsrt).
    { unfold dir_wf, len. cbn [Dir.info Dir.pos DirInfo.entries]. rewrite Hl1. lia. }
    { cbn [Dir.info DirInfo.entries]. by rewrite Hp1. }
    { cbn [Dir.info Dir.pos DirInfo.entries]. rewrite Hl1. lia. }
    cbv zeta in Hloop, Htk, Hasc, Hsrt.
    cbn [Dir.info Dir.pos DirInfo.entries DirInfo.name DirInfo.modTime] in Hloop, Hpe, Htk,
      Hasc, Hsrt.
    assert (Z.to_nat (pos + Z.of_nat (length dirs)) = (p + length dirs)%nat) as Hq by lia.
    rewrite Hq in Hloop, Htk, Hasc, Hsrt. rewrite Htake1 in Htk. rewrite Hdrop1 in Hasc, Hsrt.
    assert (es' = (take p es ++ sorted) ++ drop (p + length dirs) es') as Hdec
        by (by rewrite <- Htk, take_drop).
    assert (length (take p es) = p) as Htp by (rewrite length_take; lia).
    assert (drop p es' = sorted ++ drop (p + length dirs) es') as Hdp.
    { rewrite Hdec at 1. rewrite <- app_assoc. rewrite <- Htp at 1. apply drop_app_length. }
    exists es'. split; [|split; [|split; [|split]]].
    + rewrite Hloop, Hdp, map_app, app_assoc. unfold len. by rewrite Hl1.
    + by rewrite Hpe.
    + rewrite Hdec, <- app_assoc. rewrite <- Htp at 1. apply take_app_length.
    + intros Hasc0. rewrite Hsplit in Hasc0.
      pose proof (sort_ascending fs dirs (StronglySorted_app_1_l _ _ _ Hasc0)) as Hsd.
      fold sorted in Hsd.
      assert (es1 = es) as Hes1.
      { unfold es1. rewrite Hsd, <- Hsplit. apply take_drop. }
      transitivity es1; [|exact Hes1]. apply Hasc. by apply StronglySorted_app_1_r in Hasc0.
    + intros H100.
      assert (length es' = length es) as Hl' by (by rewrite Hpe, Hp1).
      rewrite Hdp, (drop_ge es') by lia.
      rewrite Hsplit, (drop_ge es) by lia. by rewrite !app_nil_r.
Qed.

Local Abbreviation ServeHTTP :=
  (gzip_file_server.ServeHTTP url_String html_EscapeString url_Query sort_Sort).

Lemma ServeHTTP_directory (fuel : nat) (root : FS.t) (r : gzip_file_server.Request)
    (di : DirInfo.t) :
  let p := path.Clean (served_url r) in
  let es := DirInfo.entries di in
  root !! p = Some (NDir di) ->
  ends_with_slash (served_url r) = true ->
  Forall (fun e => is_Some (root !! e)) es ->
  len es <= int64_max ->
  (length es < fuel)%nat ->
  exists es',
    ServeHTTP fuel root r
    = Some (Ret (<[p := NDir (DirInfo.mk (DirInfo.name di) (DirInfo.modTime di) es')]> root,
                 listing_head p ++ map (line root) es' ++ listing_tail)) /\
    es' ≡ₚ es /\
    ((length es <= 100)%nat -> es' = sort_Sort (gzip_file_server.Less root) es) /\
    (names_ascending root es -> es' = es).
Proof.
  intros p es Hlook Hslash Hres Hlen Hfuel. subst es.
  set (url := served_url r) in *.
  destruct (served_url_rooted r) as [u Hu]. fold url in Hu.
  assert (normal p) as Hp by (unfold p; rewrite Hu; apply Clean_normal).
  assert (exists c, gzip_file_server.last_byte url = Some c) as [c Hc].
  { rewrite Hu. pose proof (last_byte_rooted u).
    destruct (gzip_file_server.last_byte ("/" +:+ u)); [by eexists | done]. }
  assert (ServeHTTP fuel root r
          = gzip_file_server.serveFile url_String html_EscapeString url_Query sort_Sort fuel
              (gzip_file_server.mkRequest url (gzip_file_server.URL_RawQuery r)
                 (gzip_file_server.Accept_Encoding r)) root p) as ->.
  { unfold gzip_file_server.ServeHTTP, p, url, served_url.
    destruct (strings.HasPrefix _ _); [by destruct r | done]. }
  unfold ends_with_slash in Hslash. rewrite Hc in Hslash.
  unfold gzip_file_server.serveFile, FS.Open. rewrite (normal_Clean p Hp), Hlook.
  cbn [gzip_file_server.URL_Path Stat IsDir Dir.info DirInfo.IsDir andb negb].
  rewrite Hc, Hslash. cbn [negb andb].
  unfold gzip_file_server.dirList.
  destruct (dirList_loop_spec root fuel (Dir.mk di 0) (listing_head p))
    as (es' & Hloop & Hperm & _ & Hasc & Hsort).
  { unfold dir_wf. cbn [Dir.info Dir.pos]. pose proof (len_nonneg (DirInfo.entries di)). lia. }
  { exact Hres. }
  { cbn [Dir.info Dir.pos]. lia. }
  cbv zeta in Hloop. cbn [Dir.info Dir.pos] in Hloop, Hperm, Hasc, Hsort.
  change (Z.to_nat 0) with 0%nat in Hloop, Hasc, Hsort. rewrite !drop_0 in *.
  unfold listing_head in Hloop. rewrite Hloop.
  exists es'. split; [|split; [exact Hperm | split]].
  - unfold opened_node. cbn [Stat fst Dir.info]. by rewrite <- app_assoc.
  - intros H100. apply Hsort. lia.
  - exact Hasc.
Qed.

(** X16. A request for a directory of the table, with a trailing
    separator, is answered with a listing: the content type, the opening
    line, the link to the directory above, one line per entry and the
    closing line; nothing panics and the loop ends, whatever the number
    of entries. [Readdir] hands out a slice of the entries of the
    directory and the listing sorts it in place, batch by batch: the
    entries of the directory in the table are a permutation of what they
    were, sorted by name when there are at most 100 of them, and
    exactly what they were, the table being left untouched, when the
    names were already in strictly ascending order. *)
Theorem ServeHTTP_lists_directory (fuel : nat) (root : FS.t) (r : gzip_file_server.Request)
    (di : DirInfo.t) :
  let p := path.Clean (served_url r) in
  let es := DirInfo.entries di in
  root !! p = Some (NDir di) ->
  ends_with_slash (served_url r) = true ->
  Forall (fun e => is_Some (root !! e)) es ->
  len es <= int64_max ->
  (length es < fuel)%nat ->
  exists es' root',
    ServeHTTP fuel root r
    = Some (Ret (root', listing_head p ++ map (line root) es' ++ listing_tail)) /\
    root' = <[p := NDir (DirInfo.mk (DirInfo.name di) (DirInfo.modTime di) es')]> root /\
    es' ≡ₚ es /\
    ((length es <= 100)%nat ->
     Sorted (fun a b => str_le (gzip_file_server.entry_Name root a)
                          (gzip_file_server.entry_Name root b)) es') /\
    (names_ascending root es -> es' = es /\ root' = root).
Proof.
  intros p es Hlook Hslash Hres Hlen Hfuel.
  destruct (ServeHTTP_directory fuel root r di Hlook Hslash Hres Hlen Hfuel)
    as (es' & Hserve & Hperm & Hsort & Hasc).
  exists es', (<[p := NDir (DirInfo.mk (DirInfo.name di) (DirInfo.modTime di) es')]> root).
  split; [exact Hserve|]. split; [reflexivity|]. split; [exact Hperm|]. split.
  - intros H100. rewrite (Hsort H100). destruct (sort_ok root es) as [_ Hs].
    rewrite <- (list_fmap_id (sort_Sort _ es)).
    apply (Sorted_fmap _ (fun a b => gzip_file_server.Less root b a = false)); [|exact Hs].
    intros a b. apply Less_false.
  - intros Ha. specialize (Hasc Ha). split; [exact Hasc|]. rewrite Hasc.
    apply insert_id. fold es. rewrite Hlook. by destruct di.
Qed.

End Listing.

Lemma by_merge_sorts : sorts by_merge.
Proof.
  intros fs l. unfold by_merge. split; [apply merge_sort_Permutation|].
  apply Sorted_merge_sort. intros a b.
  destruct (Strings.String.leb_total (gzip_file_server.entry_Name fs a)
              (gzip_file_server.entry_Name fs b)) as [H|H]; [left | right];
    by apply Less_false.
Qed.

Lemma ServeHTTP_lists_directory_witness :
  gzip_file_server.ServeHTTP (C := rle_codec) id id (fun _ => []) by_merge 3 sample_table
    (gzip_file_server.mkRequest "/" "" "")
  = Some (Ret (sample_table,
               listing_head "/"
               ++ map (gzip_file_server.entry_line id id sample_table) ["/a.txt"; "/sub"]
               ++ listing_tail)).
Proof.
  destruct (ServeHTTP_lists_directory (C := rle_codec) id id (fun _ => []) by_merge
              by_merge_sorts 3 sample_table (gzip_file_server.mkRequest "/" "" "")
              (DirInfo.mk "/" 7 ["/a.txt"; "/sub"]))
    as (es' & root' & Hserve & _ & _ & _ & Hasc).
  - vm_compute. reflexivity.
  - reflexivity.
  - repeat constructor; vm_compute; by eexists.
  - vm_compute. discriminate.
  - cbn. lia.
  - destruct Hasc as [-> ->]; [|exact Hserve].
    repeat constructor; vm_compute; reflexivity.
Defined.

(** ** Listings of a generated table *)






Section GeneratedListings.
Context `{C : gzip.Codec}.
Variable url_String : string -> string.
Variable html_EscapeString : string -> string.
Variable url_Query : string -> list string.
Variable sort_Sort : (ptr -> ptr -> bool) -> list ptr -> list ptr.
Variable fillMissing : Options -> Options.
Hypothesis sort_ok : sorts sort_Sort.

Local Abbreviation ServeHTTP :=
  (gzip_file_server.ServeHTTP url_String html_EscapeString url_Query sort_Sort).
Local Abbreviation line := (gzip_file_server.entry_line url_String html_EscapeString).



End GeneratedListings.


(** ** The server on a sequence of requests *)

Section Safety.
Context `{C : gzip.Codec}.
Variable url_String : string -> string.
Variable html_EscapeString : string -> string.
Variable url_Query : string -> list string.
Variable sort_Sort : (ptr -> ptr -> bool) -> list ptr -> list ptr.
Variable fillMissing : Options -> Options.
Hypothesis sort_ok : sorts sort_Sort.

Local Abbreviation ServeHTTP :=
  (gzip_file_server.ServeHTTP url_String html_EscapeString url_Query sort_Sort).

Lemma ServeHTTP_unfold (fuel : nat) (root : FS.t) (r : gzip_file_server.Request) :
  let url := served_url r in
  let p := path.Clean url in
  ServeHTTP fuel root r
  = gzip_file_server.serveFile url_String html_EscapeString url_Query sort_Sort fuel
      (gzip_file_server.mkRequest url (gzip_file_server.URL_RawQuery r)
         (gzip_file_server.Accept_Encoding r)) root p /\
  path.Clean ("/" +:+ p) = p /\
  exists c, gzip_file_server.last_byte url = Some c.
Proof.
  intros url p. destruct (served_url_rooted r) as [u Hu]. fold url in Hu.
  split; [|split].
  - unfold gzip_file_server.ServeHTTP, p, url, served_url.
    destruct (strings.HasPrefix _ _); [by destruct r | done].
  - apply normal_Clean. unfold p. rewrite Hu. apply Clean_normal.
  - rewrite Hu. pose proof (last_byte_rooted u).
    destruct (gzip_file_server.last_byte ("/" +:+ u)); [by eexists | done].
Qed.

(** One request on a servable table: an answer, and the table as it
    was or with the entries of one directory permuted. *)
Lemma ServeHTTP_returns (fuel : nat) (fs : FS.t) (r : gzip_file_server.Request) :
  servable fuel fs ->
  exists fs' calls,
    ServeHTTP fuel fs r = Some (Ret (fs', calls)) /\
    (fs' = fs \/
     exists p di es',
       fs !! p = Some (NDir di) /\ es' ≡ₚ DirInfo.entries di /\
       fs' = <[p := NDir (DirInfo.mk (DirInfo.name di) (DirInfo.modTime di) es')]> fs).
Proof.
  intros [Hgen Hdirs].
  destruct (ServeHTTP_unfold fuel fs r) as (Hun & Hclean & c & Hc). cbv zeta in Hun, Hclean.
  set (url := served_url r) in *. set (p := path.Clean url) in *.
  destruct (fs !! p) as [n|] eqn:Hlook.
  - destruct (is_directory n) eqn:Hdir, (ends_with_slash url) eqn:Hslash.
    + destruct n as [f|f|di]; [discriminate..|].
      destruct (Hdirs p di Hlook) as (Hres & Hlen & Hfuel).
      destruct (ServeHTTP_directory url_String html_EscapeString url_Query sort_Sort sort_ok
                  fuel fs r di Hlook Hslash Hres Hlen Hfuel)
        as (es' & Hserve & Hperm & _).
      eexists _, _. split; [exact Hserve|]. right. by exists p, di, es'.
    + destruct n as [f|f|di]; [discriminate..|].
      rewrite Hun. unfold gzip_file_server.serveFile, FS.Open. rewrite Hclean, Hlook.
      cbn [gzip_file_server.URL_Path Stat IsDir Dir.info DirInfo.IsDir]. rewrite Hc.
      unfold ends_with_slash in Hslash. rewrite Hc in Hslash. rewrite Hslash. cbn [negb andb].
      eexists _, _. split; [reflexivity | by left].
    + unfold ends_with_slash in Hslash. rewrite Hc in Hslash.
      rewrite Hun. unfold gzip_file_server.serveFile, FS.Open. rewrite Hclean, Hlook.
      destruct n as [f|f|di]; [| |discriminate].
      * destruct (Hgen p f Hlook) as [data Hdata].
        unfold gzip.NewReader, gzip.start. rewrite Hdata, gzip.decode_compress.
        cbn [gzip_file_server.URL_Path Stat IsDir CompressedFile.info
               CompressedFileInfo.IsDir].
        rewrite Hc, Hslash. cbn [negb andb].
        eexists _, _. split; [reflexivity | by left].
      * cbn [gzip_file_server.URL_Path Stat IsDir File.info FileInfo.IsDir].
        rewrite Hc, Hslash. cbn [negb andb].
        eexists _, _. split; [reflexivity | by left].
    + destruct (ServeHTTP_file url_String html_EscapeString url_Query sort_Sort
                  fuel fs r n Hgen Hlook Hdir Hslash) as (h & _ & Hserve).
      eexists _, _. split; [exact Hserve | by left].
  - rewrite Hun. unfold gzip_file_server.serveFile, FS.Open. rewrite Hclean, Hlook.
    eexists _, _. split; [reflexivity | by left].
Qed.

Lemma servable_permuted (fuel : nat) (fs : FS.t) (p : string) (di : DirInfo.t)
    (es' : list ptr) :
  servable fuel fs -> fs !! p = Some (NDir di) -> es' ≡ₚ DirInfo.entries di ->
  servable fuel (<[p := NDir (DirInfo.mk (DirInfo.name di) (DirInfo.modTime di) es')]> fs).
Proof.
  intros [Hgen Hdirs] Hlook Hperm. split.
  - apply generated_insert_other; [by left | done].
  - assert (forall k, is_Some (fs !! k) ->
                      is_Some (<[p := NDir (DirInfo.mk (DirInfo.name di)
                                              (DirInfo.modTime di) es')]> fs !! k)) as Hsome.
    { intros k Hk. apply lookup_insert_is_Some. destruct (decide (p = k)); auto. }
    intros q dq Hq. destruct (decide (p = q)) as [<-|Hne].
    + rewrite lookup_insert_eq in Hq. injection Hq as <-. cbn [DirInfo.entries].
      destruct (Hdirs p di Hlook) as (Hres & Hlen & Hfuel).
      split; [|split].
      * rewrite Hperm. eapply Forall_impl; [exact Hres|]. exact Hsome.
      * unfold len in *. by rewrite Hperm.
      * by rewrite Hperm.
    + rewrite lookup_insert_ne in Hq by done.
      destruct (Hdirs q dq Hq) as (Hres & Hlen & Hfuel).
      split; [|done]. eapply Forall_impl; [exact Hres|]. exact Hsome.
Qed.

(** X18. On a servable table the server answers every request of any
    sequence of requests, each on the table that the one before left:
    no request panics, no listing runs out of fuel, and the table stays
    servable. The table is a shared, mutable value to the server, yet
    nothing that a request does to it can make a later request fail. *)
Theorem server_answers_every_request (fuel : nat) (rs : list gzip_file_server.Request) :
  forall fs : FS.t,
    servable fuel fs ->
    exists fs' out,
      requests url_String html_EscapeString url_Query sort_Sort fuel rs fs
      = Some (Ret (fs', out)) /\
      servable fuel fs' /\ length out = length rs.
Proof.
  induction rs as [|r rs IH]; intros fs Hs.
  - exists fs, []. split; [done|]. by split.
  - cbn [requests].
    destruct (ServeHTTP_returns fuel fs r Hs) as (fs1 & calls & Hserve & Hfs1).
    rewrite Hserve.
    assert (servable fuel fs1) as Hs1.
    { destruct Hfs1 as [-> | (p & di & es' & Hlook & Hperm & ->)]; [done|].
      by apply servable_permuted. }
    destruct (IH fs1 Hs1) as (fs' & out & Hrest & Hs' & Hlen).
    rewrite Hrest. exists fs', (calls :: out).
    split; [done|]. split; [done|]. cbn. by rewrite Hlen.
Qed.


End Safety.

Lemma servable_sample_table : servable (C := rle_codec) 3 sample_table.
Proof.
  split; [apply generated_sample_table|].
  intros p di Hlook. unfold sample_table in Hlook.
  repeat (rewrite lookup_insert in Hlook; case_decide;
          [try discriminate; injection Hlook as <-;
           (split; [repeat constructor; vm_compute; by eexists
                   | split; [vm_compute; discriminate | cbn; lia]])|]).
  by rewrite lookup_empty in Hlook.
Qed.

Lemma server_answers_every_request_witness :
  exists fs' out,
    requests (C := rle_codec) id id (fun _ => []) by_merge 3
      [gzip_file_server.mkRequest "/" "" "";
       gzip_file_server.mkRequest "/a.txt" "plain" "gzip";
       gzip_file_server.mkRequest "/missing" "" ""] sample_table
    = Some (Ret (fs', out)) /\
    length out = 3%nat.
Proof.
  destruct (server_answers_every_request (C := rle_codec) id id (fun _ => []) by_merge
              by_merge_sorts 3
              [gzip_file_server.mkRequest "/" "" "";
               gzip_file_server.mkRequest "/a.txt" "plain" "gzip";
               gzip_file_server.mkRequest "/missing" "" ""]
              sample_table servable_sample_table) as (fs' & out & Hreq & _ & Hlen).
  exists fs', out. split; [exact Hreq | exact Hlen].
Defined.

